(** * openclaw-mini: the agent orchestration core, embedded and verified

    A shallow embedding of the turn loop ([agent/loop.py]), the compactor
    ([session/compaction.py]), the session store ([session/store.py]), the
    tool registry ([tools/registry.py]), the agent router
    ([agent/router.py]), the permission manager ([permissions/manager.py])
    and the heartbeat firing path ([heartbeat/scheduler.py], [main.py]).

    Conventions.
    - A Python [str] is a [string]; every [ascii] stands for one code point
      below 256, so [String.length] is Python's [len].
    - A Python [dict] is an association list in insertion order with
      distinct keys; a JSON document is a [json] value (numbers are
      integers, floating point is not modelled).
    - Effects (the session files, the LLM client, tool handlers, the
      callback) are threaded through a state-and-exception monad [M] that
      also records an event log.
    - A session file appears twice: in the world of the turn loop as the
      list of the messages [load] parses from it, and in [Jsonl] as its
      text, with the line reading, stripping and skipping of the store. *)

From Stdlib Require Import ZArith String Ascii List Bool Lia DecimalString.
From stdpp Require Import base option list strings gmap.

Local Open Scope string_scope.
Local Open Scope Z_scope.
Local Open Scope list_scope.

(** ** Python strings *)

Module PyStr.

(** [str.isspace] on one character (code points below 256). *)
Definition isspace (c : ascii) : bool :=
  let n := nat_of_ascii c in
  ((9 <=? n) && (n <=? 13))%nat || ((28 <=? n) && (n <=? 32))%nat
  || (n =? 133)%nat || (n =? 160)%nat.

(** [str.lower] on one character: A-Z and the Latin-1 capitals. *)
Definition lower_char (c : ascii) : ascii :=
  let n := nat_of_ascii c in
  if ((65 <=? n) && (n <=? 90))%nat
     || ((192 <=? n) && (n <=? 222) && negb (n =? 215))%nat
  then ascii_of_nat (n + 32) else c.

Fixpoint lower (s : string) : string :=
  match s with
  | EmptyString => EmptyString
  | String c s' => String (lower_char c) (lower s')
  end.

Fixpoint lstrip (s : string) : string :=
  match s with
  | EmptyString => EmptyString
  | String c s' => if isspace c then lstrip s' else s
  end.

(** [rstrip] keeps a character when it is not a space or when something
    survives to its right. *)
Fixpoint rstrip (s : string) : string :=
  match s with
  | EmptyString => EmptyString
  | String c s' =>
      match rstrip s' with
      | EmptyString => if isspace c then EmptyString else String c EmptyString
      | r => String c r
      end
  end.

Definition strip (s : string) : string := rstrip (lstrip s).

(** [s.startswith(p)] *)
Definition startswith (s p : string) : bool := String.prefix p s.

(** [s[n:]] *)
Fixpoint drop (n : nat) (s : string) : string :=
  match n, s with
  | O, _ => s
  | S n', String _ s' => drop n' s'
  | S _, EmptyString => EmptyString
  end.

(** [s[:n]] *)
Fixpoint take (n : nat) (s : string) : string :=
  match n, s with
  | S n', String c s' => String c (take n' s')
  | _, _ => EmptyString
  end.

(** The maximal run of non-space characters at the head of [s]. *)
Fixpoint nonspace_run (s : string) : string :=
  match s with
  | EmptyString => EmptyString
  | String c s' => if isspace c then EmptyString else String c (nonspace_run s')
  end.

(** [s.split()]: the maximal runs of non-space characters.  [cur] is the
    run being read ([None] between runs), kept reversed. *)
Fixpoint split_go (cur : option string) (s : string) : list string :=
  match s with
  | EmptyString =>
      match cur with Some w => [String.rev w] | None => [] end
  | String c s' =>
      if isspace c
      then match cur with
           | Some w => String.rev w :: split_go None s'
           | None => split_go None s'
           end
      else split_go (Some (String c (default EmptyString cur))) s'
  end.

Definition split (s : string) : list string := split_go None s.

(** [sep.join(l)] *)
Fixpoint join (sep : string) (l : list string) : string :=
  match l with
  | [] => ""
  | [x] => x
  | x :: l' => x +:+ sep +:+ join sep l'
  end.

(** [str.upper] on one character, for a-z and the Latin-1 small letters
    whose capital is again below 256 (the capitals of the micro sign, the
    sharp s and y with diaeresis are not). *)
Definition upper_char (c : ascii) : ascii :=
  let n := nat_of_ascii c in
  if ((97 <=? n) && (n <=? 122))%nat
     || ((224 <=? n) && (n <=? 254) && negb (n =? 247))%nat
  then ascii_of_nat (n - 32) else c.

(** [s.capitalize()], within the limits of [upper_char]. *)
Definition capitalize (s : string) : string :=
  match s with
  | EmptyString => EmptyString
  | String c s' => String (upper_char c) (lower s')
  end.

(** [str(n)] for an integer. *)
Definition of_Z (z : Z) : string := NilZero.string_of_int (Z.to_int z).

Definition of_nat (n : nat) : string := of_Z (Z.of_nat n).

(** [len(s)] *)
Definition len (s : string) : Z := Z.of_nat (String.length s).

End PyStr.

(** ** JSON values and [json.dumps] *)

#[local] Unset Elimination Schemes.
Inductive json : Type :=
| JNull
| JBool (b : bool)
| JInt (z : Z)
| JStr (s : string)
| JList (l : list json)
| JDict (kvs : list (string * json)).
#[local] Set Elimination Schemes.

(** A message, as the code handles it: a [dict] with string keys. *)
Definition message : Type := list (string * json).

Module Dict.

(** [d.get(k)] *)
Fixpoint get {V : Type} (k : string) (d : list (string * V)) : option V :=
  match d with
  | [] => None
  | (k', v) :: d' => if String.eqb k k' then Some v else get k d'
  end.

(** [d[k] = v]: an existing key keeps its position, a new key goes last. *)
Fixpoint set {V : Type} (k : string) (v : V) (d : list (string * V))
  : list (string * V) :=
  match d with
  | [] => [(k, v)]
  | (k', v') :: d' =>
      if String.eqb k k' then (k', v) :: d' else (k', v') :: set k v d'
  end.

End Dict.

(** Python truthiness of a JSON value ([bool(x)]). *)
Definition truthy (j : json) : bool :=
  match j with
  | JNull => false
  | JBool b => b
  | JInt z => negb (z =? 0)
  | JStr s => negb (String.eqb s "")
  | JList l => match l with [] => false | _ => true end
  | JDict kvs => match kvs with [] => false | _ => true end
  end.

(** [d.get(k)] used as a condition: an absent key gives [None], falsy. *)
Definition truthy_get (k : string) (d : message) : bool :=
  match Dict.get k d with Some j => truthy j | None => false end.

(** [d.get(k) == s] for a string literal [s]. *)
Definition get_is (k s : string) (d : message) : bool :=
  match Dict.get k d with
  | Some (JStr s') => String.eqb s' s
  | _ => false
  end.

Module Json.

Definition dquote : ascii := ascii_of_nat 34.
Definition backslash : ascii := ascii_of_nat 92.

Definition hex_digit (n : nat) : ascii :=
  if (n <? 10)%nat then ascii_of_nat (48 + n) else ascii_of_nat (87 + n).

(** One character inside a JSON string, [ensure_ascii=False]: the quote,
    the backslash and the control characters are escaped, everything
    else is written as it is. *)
Definition escape_char (c : ascii) : string :=
  let n := nat_of_ascii c in
  if (n =? 34)%nat then String backslash (String dquote "")
  else if (n =? 92)%nat then "\\"
  else if (n =? 10)%nat then "\n"
  else if (n =? 13)%nat then "\r"
  else if (n =? 9)%nat then "\t"
  else if (n =? 8)%nat then "\b"
  else if (n =? 12)%nat then "\f"
  else if (n <? 32)%nat
       then "\u00" +:+ String (hex_digit (n / 16)) (String (hex_digit (n mod 16)) "")
  else String c "".

Fixpoint escape (s : string) : string :=
  match s with
  | EmptyString => EmptyString
  | String c s' => escape_char c +:+ escape s'
  end.

Definition quote (s : string) : string :=
  String dquote (escape s +:+ String dquote "").

(** [json.dumps(j, ensure_ascii=False)] with the default separators. *)
Fixpoint dumps (j : json) : string :=
  match j with
  | JNull => "null"
  | JBool true => "true"
  | JBool false => "false"
  | JInt z => PyStr.of_Z z
  | JStr s => quote s
  | JList l => "[" +:+ PyStr.join ", " (map dumps l) +:+ "]"
  | JDict kvs =>
      "{" +:+ PyStr.join ", "
                (map (fun kv => match kv with
                                | (k, v) => quote k +:+ ": " +:+ dumps v
                                end) kvs) +:+ "}"
  end.

Definition dumps_message (m : message) : string := dumps (JDict m).

Definition dumps_messages (ms : list message) : string :=
  dumps (JList (map JDict ms)).

End Json.

(** ** Effects: exceptions, the world, the event log *)

(** A raised Python [Exception], by its message ([str(e)]). *)
Inductive exn : Type := PyExc (msg : string).

Definition exn_msg (e : exn) : string := match e with PyExc m => m end.

Inductive outcome (A : Type) : Type :=
| Ok (a : A)
| Raise (e : exn).
Arguments Ok {A} a.
Arguments Raise {A} e.

(** A tool call of an LLM response: [tc.id], [tc.function.name],
    [tc.function.arguments]. *)
Record ToolCall : Type := {
  tc_id : string;
  tc_name : string;
  tc_arguments : string
}.

(** [response.choices[0]]: the message's [content] and [tool_calls]
    ([None] and the empty list are both [[]]) and the [finish_reason]. *)
Record Response : Type := {
  content : option string;
  tool_calls : list ToolCall;
  finish_reason : string
}.

(** The keyword arguments of [client.chat.completions.create]. *)
Record Request : Type := {
  req_model : string;
  req_messages : list message;
  req_max_tokens : Z;
  req_tools : option (list json)
}.

Inductive event : Type :=
| EvChat (req : Request) (res : outcome Response)
| EvTool (name : string) (tool_input : json) (result : string)
| EvCallback (name : string) (tool_input : json) (result : string)
| EvAppend (file : string) (m : message)
| EvSave (file : string) (ms : list message).

(** Store writes among the events. *)
Definition is_write (ev : event) : bool :=
  match ev with
  | EvAppend _ _ | EvSave _ _ => true
  | _ => false
  end.

Definition is_chat (ev : event) : bool :=
  match ev with EvChat _ _ => true | _ => false end.

Section Core.

(** Everything outside the process: the LLM service, whatever the tool
    handlers and the callback read and change. *)
Variable Env : Type.

(** [client.chat.completions.create]: a response or a
    transport error. *)
Variable chat : Request -> Env -> outcome Response * Env.

(** [json.loads] of the standard library; [None] is [JSONDecodeError]. *)
Variable json_loads : string -> option json.

(** [_format_for_summary], the plain-text rendering of the old half
    sent to the summariser.  The compactor uses it only to build its
    request, so it is left open here; it may raise. *)
Variable format_for_summary : list message -> outcome string.

(** The session directory (file name to parsed lines), the environment
    and the log of what happened so far, oldest first. *)
Record World : Type := {
  env : Env;
  files : gmap string (list message);
  events : list event
}.

Definition M (A : Type) : Type := World -> outcome A * World.

Definition ret {A : Type} (a : A) : M A := fun w => (Ok a, w).

Definition bind {A B : Type} (c : M A) (k : A -> M B) : M B :=
  fun w =>
    match c w with
    | (Ok a, w') => k a w'
    | (Raise e, w') => (Raise e, w')
    end.

Definition raise {A : Type} (e : exn) : M A := fun w => (Raise e, w).

(** [try: c except Exception as e: h(e)] *)
Definition try_except {A : Type} (c : M A) (h : exn -> M A) : M A :=
  fun w =>
    match c w with
    | (Ok a, w') => (Ok a, w')
    | (Raise e, w') => h e w'
    end.

Definition lift {A : Type} (o : outcome A) : M A := fun w => (o, w).

Definition log (ev : event) : M unit :=
  fun w => (Ok tt, {| env := env w; files := files w;
                      events := events w ++ [ev] |}).

(** Run something of the environment, keeping files and events. *)
Definition on_env {A : Type} (f : Env -> outcome A * Env) : M A :=
  fun w =>
    let '(o, e') := f (env w) in
    (o, {| env := e'; files := files w; events := events w |}).

Notation "x <- c ;; k" := (bind c (fun x => k))
  (at level 100, c at next level, right associativity).
Notation "c ;;; k" := (bind c (fun _ => k))
  (at level 100, right associativity).

(** The LLM call, recorded with its outcome. *)
Definition chat_create (req : Request) : M Response :=
  fun w =>
    let '(o, e') := chat req (env w) in
    (o, {| env := e'; files := files w;
           events := events w ++ [EvChat req o] |}).

(** *** session/store.py *)

Definition sanitize_char (c : ascii) : ascii :=
  let n := nat_of_ascii c in
  if ((97 <=? n) && (n <=? 122))%nat || ((65 <=? n) && (n <=? 90))%nat
     || ((48 <=? n) && (n <=? 57))%nat || (n =? 95)%nat || (n =? 45)%nat
  then c else "_"%char.

Fixpoint sanitize_key (key : string) : string :=
  match key with
  | EmptyString => EmptyString
  | String c s => String (sanitize_char c) (sanitize_key s)
  end.

(** [SessionStore._path], relative to the session directory. *)
Definition _path (session_key : string) : string :=
  sanitize_key session_key +:+ ".jsonl".

(** [SessionStore.load]: the parsed lines, [[]] when the file is absent. *)
Definition load (session_key : string) : M (list message) :=
  fun w => (Ok (default [] (files w !! _path session_key)), w).

(** [SessionStore.append]: one more line at the end of the file. *)
Definition append (session_key : string) (m : message) : M unit :=
  fun w =>
    let p := _path session_key in
    (Ok tt, {| env := env w;
               files := <[p := default [] (files w !! p) ++ [m]]> (files w);
               events := events w ++ [EvAppend p m] |}).

(** [SessionStore.save]: the file rewritten from the list. *)
Definition save (session_key : string) (ms : list message) : M unit :=
  fun w =>
    let p := _path session_key in
    (Ok tt, {| env := env w; files := <[p := ms]> (files w);
               events := events w ++ [EvSave p ms] |}).

(** What [load] would return in world [w]. *)
Definition session_log (w : World) (session_key : string) : list message :=
  default [] (files w !! _path session_key).

(** *** tools/registry.py *)

Record Tool : Type := {
  name : string;
  description : string;
  input_schema : json;
  handler : json -> Env -> outcome string * Env
}.

(** [ToolRegistry._tools], a dict in registration order. *)
Definition ToolRegistry : Type := list (string * Tool).

(** [ToolRegistry.register]: [ValueError] when the name is taken. *)
Definition register (tool : Tool) (reg : ToolRegistry) : outcome ToolRegistry :=
  match Dict.get (name tool) reg with
  | Some _ => Raise (PyExc ("Tool already registered: " +:+ name tool))
  | None => Ok (Dict.set (name tool) tool reg)
  end.

Definition get_schemas (reg : ToolRegistry) : list json :=
  map (fun kv =>
         let tool := snd kv in
         JDict [("type", JStr "function");
                ("function", JDict [("name", JStr (name tool));
                                    ("description", JStr (description tool));
                                    ("parameters", input_schema tool)])])
      reg.

(** [ToolRegistry.execute] *)
Definition execute (reg : ToolRegistry) (nm : string) (tool_input : json)
  : M string :=
  match Dict.get nm reg with
  | None => ret ("Error: Unknown tool '" +:+ nm +:+ "'")
  | Some tool =>
      try_except
        (result <- on_env (handler tool tool_input) ;; ret result)
        (fun e => ret ("Error executing " +:+ nm +:+ ": " +:+ exn_msg e))
  end.

(** *** session/compaction.py *)

Definition estimate_tokens (messages : list message) : Z :=
  PyStr.len (Json.dumps_messages messages) / 4.

(** [messages[i].get("role") == "user"] *)
Definition is_user (m : message) : bool := get_is "role" "user" m.

(** [for i in range(i, len(messages))], reading [l = messages[i:]]:
    the first index holding a user message. *)
Fixpoint walk_forward (l : list message) (i : nat) : option nat :=
  match l with
  | [] => None
  | m :: l' => if is_user m then Some i else walk_forward l' (S i)
  end.

(** [messages[i].get("role") == "user"] for an index within the list. *)
Definition user_at (messages : list message) (i : nat) : bool :=
  match messages !! i with
  | Some m => is_user m
  | None => false
  end.

(** [for i in range(i, 0, -1)]: the indices [i, i-1, ..., 1]. *)
Fixpoint walk_backward (messages : list message) (i : nat) : option nat :=
  match i with
  | O => None
  | S i' => if user_at messages i then Some i else walk_backward messages i'
  end.

(** The index at which [_split_messages] cuts. *)
Definition split_index (messages : list message) : nat :=
  let mid := (length messages / 2)%nat in
  match walk_forward (drop mid messages) mid with
  | Some i => i
  | None =>
      match walk_backward messages mid with
      | Some i => i
      | None => mid
      end
  end.

Definition _split_messages (messages : list message)
  : list message * list message :=
  let i := split_index messages in (take i messages, drop i messages).

Definition nl : string := String (ascii_of_nat 10) "".

(** [_COMPACTION_PROMPT] up to its [{conversation}] slot.  The dash of
    the source text lies outside the modelled character range and is
    written as a hyphen; only the request to the summariser carries it. *)
Definition _COMPACTION_PROMPT : string :=
  "Summarize the following conversation concisely. "
  +:+ "Preserve all important facts, decisions, user preferences, file paths, "
  +:+ "variable names, and action outcomes. Be specific - do not generalize. "
  +:+ "Format as a bullet list." +:+ nl +:+ nl
  +:+ "Conversation to summarize:" +:+ nl.

(** [x or d] for an optional string. *)
Definition str_or (x : option string) (d : string) : string :=
  match x with
  | Some s => if String.eqb s "" then d else s
  | None => d
  end.

Definition summary_msg (n : nat) (summary : string) : message :=
  [("role", JStr "user");
   ("content", JStr ("[Conversation summary of " +:+ PyStr.of_nat n
                     +:+ " earlier messages]" +:+ nl +:+ nl +:+ summary))].

Definition summary_request (model conversation_text : string) : Request :=
  {| req_model := model;
     req_messages :=
       [[("role", JStr "system");
         ("content", JStr "You are a precise conversation summarizer.")];
        [("role", JStr "user");
         ("content", JStr (_COMPACTION_PROMPT +:+ conversation_text))]];
     req_max_tokens := 2048;
     req_tools := None |}.

Definition compact (messages : list message) (model : string) (threshold : Z)
  : M (list message) :=
  if estimate_tokens messages <? threshold then ret messages
  else
    let '(old_half, recent_half) := _split_messages messages in
    match old_half with
    | [] => ret messages
    | _ :: _ =>
        conversation_text <- lift (format_for_summary old_half) ;;
        summary_response <- chat_create (summary_request model conversation_text) ;;
        let summary := str_or (content summary_response) "(empty summary)" in
        ret (summary_msg (length old_half) summary :: recent_half)
    end.

(** *** agent/loop.py *)

Definition _serialize_tool_calls (tcs : list ToolCall) : list json :=
  map (fun tc =>
         JDict [("id", JStr (tc_id tc));
                ("type", JStr "function");
                ("function", JDict [("name", JStr (tc_name tc));
                                    ("arguments", JStr (tc_arguments tc))])])
      tcs.

Definition json_of_content (c : option string) : json :=
  match c with Some s => JStr s | None => JNull end.

Definition _serialize_assistant_message (r : Response) : message :=
  let msg := [("role", JStr "assistant"); ("content", json_of_content (content r))] in
  match tool_calls r with
  | [] => msg
  | tcs => msg ++ [("tool_calls", JList (_serialize_tool_calls tcs))]
  end.

(** A trailing assistant message with [tool_calls] and no results. *)
Definition is_orphan (m : message) : bool :=
  get_is "role" "assistant" m && truthy_get "tool_calls" m.

(** [_sanitize_loaded_messages], reading the list from its end: [rev_ms]
    is the list reversed, so its head is [messages[-1]] and dropping the
    head is [messages.pop()]. *)
Fixpoint pop_orphans (rev_ms : list message) : list message :=
  match rev_ms with
  | [] => []
  | last :: before => if is_orphan last then pop_orphans before else rev_ms
  end.

Definition _sanitize_loaded_messages (messages : list message) : list message :=
  rev (pop_orphans (rev messages)).

Definition has_tool_calls (r : Response) : bool :=
  (String.eqb (finish_reason r) "tool_calls"
   || String.eqb (finish_reason r) "tool_use")
  && match tool_calls r with [] => false | _ => true end.

Definition sentinel : string := "(max tool turns reached)".

Definition OnToolUseCallback : Type :=
  option (string -> json -> string -> Env -> outcome unit * Env).

Section Turn.

Variables (model system_prompt session_key : string).
Variable tool_registry : ToolRegistry.
Variable on_tool_use : OnToolUseCallback.

Definition tool_result_msg (tool_call : ToolCall) (result : string) : message :=
  [("role", JStr "tool");
   ("tool_call_id", JStr (tc_id tool_call));
   ("content", JStr result)].

Definition parse_arguments (tool_call : ToolCall) : json :=
  default (JDict []) (json_loads (tc_arguments tool_call)).

Definition notify (tool_name : string) (tool_input : json) (result : string)
  : M unit :=
  match on_tool_use with
  | Some cb =>
      on_env (cb tool_name tool_input result) ;;;
      log (EvCallback tool_name tool_input result)
  | None => ret tt
  end.

(** The inner [for tool_call in assistant_message.tool_calls] loop;
    [tool_result_msgs] is the list built so far. *)
Fixpoint run_tools (tcs : list ToolCall) (tool_result_msgs : list message)
  : M (list message) :=
  match tcs with
  | [] => ret tool_result_msgs
  | tool_call :: rest =>
      let tool_name := tc_name tool_call in
      let tool_input := parse_arguments tool_call in
      result <- execute tool_registry tool_name tool_input ;;
      log (EvTool tool_name tool_input result) ;;;
      notify tool_name tool_input result ;;;
      run_tools rest (tool_result_msgs ++ [tool_result_msg tool_call result])
  end.

(** [for tool_msg in tool_result_msgs: ... session_store.append ...] *)
Fixpoint persist_all (msgs : list message) : M unit :=
  match msgs with
  | [] => ret tt
  | tool_msg :: rest => append session_key tool_msg ;;; persist_all rest
  end.

Definition turn_request (tools : list json) (api_messages : list message)
  : Request :=
  {| req_model := model;
     req_messages := api_messages;
     req_max_tokens := 4096;
     req_tools := match tools with [] => None | _ => Some tools end |}.

(** [for _ in range(max_turns)] with [n] iterations left. *)
Fixpoint turn_loop (n : nat) (tools : list json)
         (messages api_messages : list message) : M string :=
  match n with
  | O => ret sentinel
  | S n' =>
      response <- chat_create (turn_request tools api_messages) ;;
      let serialized_msg := _serialize_assistant_message response in
      if negb (has_tool_calls response) then
        append session_key serialized_msg ;;;
        ret (str_or (content response) "")
      else
        tool_result_msgs <- run_tools (tool_calls response) [] ;;
        append session_key serialized_msg ;;;
        persist_all tool_result_msgs ;;;
        turn_loop n' tools
                  (messages ++ serialized_msg :: tool_result_msgs)
                  (api_messages ++ serialized_msg :: tool_result_msgs)
  end.

Definition user_message (user_text : string) : message :=
  [("role", JStr "user"); ("content", JStr user_text)].

(** Load, sanitise, compact when the estimate reaches the threshold. *)
Definition prepare_history (compaction_threshold : Z) : M (list message) :=
  loaded <- load session_key ;;
  let messages := _sanitize_loaded_messages loaded in
  if estimate_tokens messages >=? compaction_threshold then
    compacted <- compact messages model compaction_threshold ;;
    save session_key compacted ;;;
    ret compacted
  else ret messages.

Definition run_agent_turn (user_text : string) (max_turns : Z)
           (compaction_threshold : Z) : M string :=
  messages <- prepare_history compaction_threshold ;;
  let user_msg := user_message user_text in
  append session_key user_msg ;;;
  let messages := messages ++ [user_msg] in
  let api_messages :=
    [("role", JStr "system"); ("content", JStr system_prompt)] :: messages in
  let tools := get_schemas tool_registry in
  turn_loop (Z.to_nat max_turns) tools messages api_messages.

End Turn.

(** *** agent/router.py *)

(** [AgentConfig]; [system_prompt] is the cached prompt text. *)
Record AgentConfig : Type := {
  agent_name : string;
  agent_model : string;
  prefix : option string;
  session_prefix : string;
  system_prompt : string
}.

Record AgentRouter : Type := {
  _default : AgentConfig;
  _prefix_map : list (string * AgentConfig)
}.

(** [AgentRouter.__init__]: agents with a non-empty prefix are entered
    under the lowercased prefix, in the order given. *)
Fixpoint build_prefix_map (agents : list AgentConfig)
         (acc : list (string * AgentConfig)) : list (string * AgentConfig) :=
  match agents with
  | [] => acc
  | agent :: rest =>
      match prefix agent with
      | Some p =>
          if String.eqb p "" then build_prefix_map rest acc
          else build_prefix_map rest (Dict.set (PyStr.lower p) agent acc)
      | None => build_prefix_map rest acc
      end
  end.

Definition AgentRouter_init (default_agent : AgentConfig)
           (agents : list AgentConfig) : AgentRouter :=
  {| _default := default_agent; _prefix_map := build_prefix_map agents [] |}.

Definition no_query : string := "(no query provided)".

(** The remainder returned on a match with a prefix [p]. *)
Definition remainder_of (user_text p : string) : string :=
  str_or (Some (PyStr.strip (PyStr.drop (String.length p) (PyStr.strip user_text))))
         no_query.

(** The [for prefix, agent in self._prefix_map.items()] loop. *)
Fixpoint resolve_in (pm : list (string * AgentConfig))
         (user_text text_lower : string) : option (AgentConfig * string) :=
  match pm with
  | [] => None
  | (p, agent) :: rest =>
      if PyStr.startswith text_lower p
      then Some (agent, remainder_of user_text p)
      else resolve_in rest user_text text_lower
  end.

Definition resolve (router : AgentRouter) (user_text : string)
  : AgentConfig * string :=
  let text_lower := PyStr.lower (PyStr.strip user_text) in
  match resolve_in (_prefix_map router) user_text text_lower with
  | Some res => res
  | None => (_default router, user_text)
  end.

(** The arguments of one [router.run] call. *)
Record RunCall : Type := {
  rc_user_text : string;
  rc_channel : string;
  rc_user_id : string
}.

(** [f"{agent.session_prefix}:{channel}:{user_id}"] *)
Definition session_key_of (agent : AgentConfig) (c : RunCall) : string :=
  session_prefix agent +:+ ":" +:+ rc_channel c +:+ ":" +:+ rc_user_id c.

(** The session key [router.run] composes for a call. *)
Definition run_session_key (router : AgentRouter) (c : RunCall) : string :=
  session_key_of (fst (resolve router (rc_user_text c))) c.

(** [AgentRouter.run]; [max_turns] and [compaction_threshold] are left
    at the defaults of [run_agent_turn]. *)
Definition run (router : AgentRouter) (c : RunCall)
           (tool_registry : ToolRegistry) (on_tool_use : OnToolUseCallback)
  : M string :=
  let '(agent, cleaned_text) := resolve router (rc_user_text c) in
  let session_key := session_key_of agent c in
  run_agent_turn (agent_model agent) (system_prompt agent) session_key
                 tool_registry on_tool_use cleaned_text 20 100000.

(** *** heartbeat/scheduler.py and the wiring in main.py *)

Record Heartbeat : Type := {
  hb_name : string;
  schedule_expr : string;
  hb_prompt : string;
  hb_agent : string
}.

(** The [router.run] call made by [_heartbeat_run_fn(agent_name,
    session_key, prompt)] of main.py. *)
Definition _heartbeat_run_fn_call (agent_name session_key prompt : string)
  : RunCall :=
  {| rc_user_text := prompt; rc_channel := "heartbeat";
     rc_user_id := session_key |}.

(** The [router.run] call a firing of [heartbeat] leads to:
    [HeartbeatScheduler._fire] passes [cron:<name>] as the session key. *)
Definition fire_call (heartbeat : Heartbeat) : RunCall :=
  let session_key := "cron:" +:+ hb_name heartbeat in
  _heartbeat_run_fn_call (hb_agent heartbeat) session_key (hb_prompt heartbeat).

Definition OnHeartbeatResult : Type :=
  option (string -> string -> Env -> outcome unit * Env).

(** [HeartbeatScheduler._fire] with [run_fn = _heartbeat_run_fn]:
    exceptions of the run and of the result callback are swallowed. *)
Definition _fire (router : AgentRouter) (tool_registry : ToolRegistry)
           (on_result : OnHeartbeatResult) (heartbeat : Heartbeat) : M unit :=
  try_except
    (response <- run router (fire_call heartbeat) tool_registry None ;;
     match on_result with
     | Some cb => on_env (cb (hb_name heartbeat) response)
     | None => ret tt
     end)
    (fun _ => ret tt).

End Core.

(** ** permissions/manager.py and the gate of tools/shell.py *)

Section Permissions.

(** Whoever answers the approval prompt. *)
Variable User : Type.

(** The approvals file: absent, unreadable as JSON, or a document
    mapping keys to lists of commands. *)
Inductive ApprovalsFile : Type :=
| Missing
| Corrupt
| Document (d : list (string * list string)).

Definition DEFAULT_SAFE_COMMANDS : gset string :=
  list_to_set
    ["ls"; "cat"; "head"; "tail"; "wc"; "date"; "whoami"; "echo";
     "pwd"; "which"; "git"; "python"; "python3"; "node"; "npm"; "npx";
     "uv"; "pip"; "find"; "grep"; "sort"; "uniq"; "tr"; "cut"; "env"].

Record PermissionManager : Type := {
  _safe_commands : gset string;
  _approval_callback : option (string -> User -> bool * User)
}.

(** [PermissionManager.__init__]: an absent or empty safe set falls back
    to the default one. *)
Definition PermissionManager_init (safe_commands : option (gset string))
           (approval_callback : option (string -> User -> bool * User))
  : PermissionManager :=
  {| _safe_commands :=
       match safe_commands with
       | Some s => if decide (s = ∅) then DEFAULT_SAFE_COMMANDS else s
       | None => DEFAULT_SAFE_COMMANDS
       end;
     _approval_callback := approval_callback |}.

Record PermState : Type := {
  approvals_file : ApprovalsFile;
  user : User;
  prompts : list string          (* the commands asked about, oldest first *)
}.

Definition _load_approvals (f : ApprovalsFile) : list (string * list string) :=
  match f with
  | Document d => d
  | Missing | Corrupt => [("allowed", []); ("denied", [])]
  end.

(** [approvals.get(key, [])] *)
Definition listed (key : string) (f : ApprovalsFile) : list string :=
  default [] (Dict.get key (_load_approvals f)).

Definition mem (x : string) (l : list string) : bool :=
  existsb (String.eqb x) l.

(** [command.strip().split()[0] if command.strip() else ""] *)
Definition base_cmd (command : string) : string :=
  match PyStr.split (PyStr.strip command) with
  | w :: _ => w
  | [] => ""
  end.

Definition check (pm : PermissionManager) (f : ApprovalsFile) (command : string)
  : string :=
  if decide (base_cmd command ∈ _safe_commands pm) then "safe"
  else if mem command (listed "allowed" f) then "approved"
  else "needs_approval".

Definition _save_approval (command : string) (approved : bool)
           (f : ApprovalsFile) : ApprovalsFile :=
  let approvals := _load_approvals f in
  let key := if approved then "allowed" else "denied" in
  let old := default [] (Dict.get key approvals) in
  if mem command old then Document approvals
  else Document (Dict.set key (old ++ [command]) approvals).

Definition request_approval (pm : PermissionManager) (command : string)
           (s : PermState) : bool * PermState :=
  let '(approved, u) :=
    match _approval_callback pm with
    | Some cb => cb command (user s)
    | None => (false, user s)
    end in
  (approved,
   {| approvals_file := _save_approval command approved (approvals_file s);
      user := u;
      prompts := prompts s ++ [command] |}).

(** The permission part of [run_command] in tools/shell.py: [true] when
    the command goes on to run, [false] when the tool answers
    [Permission denied]. *)
Definition run_command_gate (pm : PermissionManager) (command : string)
           (s : PermState) : bool * PermState :=
  if String.eqb (check pm (approvals_file s) command) "needs_approval"
  then request_approval pm command s
  else (true, s).

(** [n] attempts at the same command, one after the other. *)
Fixpoint attempts (pm : PermissionManager) (command : string) (n : nat)
         (s : PermState) : PermState :=
  match n with
  | O => s
  | S n' => attempts pm command n' (snd (run_command_gate pm command s))
  end.

End Permissions.

Arguments env {Env} w.
Arguments files {Env} w.
Arguments events {Env} w.
Arguments Build_World {Env} env files events.
Arguments ret {Env A} a w.
Arguments bind {Env A B} c k w.
Arguments raise {Env A} e w.
Arguments try_except {Env A} c h w.
Arguments lift {Env A} o w.
Arguments log {Env} ev w.
Arguments on_env {Env A} f w.
Arguments chat_create {Env} chat req w.
Arguments load {Env} session_key w.
Arguments append {Env} session_key m w.
Arguments save {Env} session_key ms w.
Arguments session_log {Env} w session_key.
Arguments Build_Tool {Env} name description input_schema handler.
Arguments name {Env} t.
Arguments description {Env} t.
Arguments input_schema {Env} t.
Arguments handler {Env} t tool_input e.
Arguments register {Env} tool reg.
Arguments get_schemas {Env} reg.
Arguments execute {Env} reg nm tool_input w.
Arguments compact {Env} chat format_for_summary messages model threshold w.
Arguments notify {Env} on_tool_use tool_name tool_input result w.
Arguments run_tools {Env} json_loads tool_registry on_tool_use tcs tool_result_msgs w.
Arguments persist_all {Env} session_key msgs w.
Arguments turn_loop {Env} chat json_loads model session_key tool_registry
  on_tool_use n tools messages api_messages w.
Arguments prepare_history {Env} chat format_for_summary model session_key
  compaction_threshold w.
Arguments run_agent_turn {Env} chat json_loads format_for_summary model
  system_prompt session_key tool_registry on_tool_use user_text max_turns
  compaction_threshold w.
Arguments run {Env} chat json_loads format_for_summary router c tool_registry
  on_tool_use w.
Arguments _fire {Env} chat json_loads format_for_summary router tool_registry
  on_result heartbeat w.
Arguments _safe_commands {User} p.
Arguments _approval_callback {User} p.
Arguments PermissionManager_init {User} safe_commands approval_callback.
Arguments Build_PermState {User} approvals_file user prompts.
Arguments approvals_file {User} p.
Arguments user {User} p.
Arguments prompts {User} p.
Arguments check {User} pm f command.
Arguments request_approval {User} pm command s.
Arguments run_command_gate {User} pm command s.
Arguments attempts {User} pm command n s.

(** ** Vocabulary of the statements *)

(** The list ends with an assistant message whose tool calls are
    unanswered. *)
Definition ends_with_orphan (l : list message) : bool :=
  match last l with
  | Some m => is_orphan m
  | None => false
  end.

(** The outcomes of the LLM calls among some events, oldest first. *)
Fixpoint chat_results (evs : list event) : list (outcome Response) :=
  match evs with
  | [] => []
  | EvChat _ res :: evs' => res :: chat_results evs'
  | _ :: evs' => chat_results evs'
  end.

(** The call answered, and with a tool-requesting response. *)
Definition tool_requesting (res : outcome Response) : bool :=
  match res with
  | Ok r => has_tool_calls r
  | Raise _ => false
  end.

(** The tools run among some events, oldest first, by name. *)
Fixpoint tools_run (evs : list event) : list string :=
  match evs with
  | [] => []
  | EvTool nm _ _ :: evs' => nm :: tools_run evs'
  | _ :: evs' => tools_run evs'
  end.

(** The messages appended to a file among some events, oldest first. *)
Fixpoint appended (evs : list event) : list message :=
  match evs with
  | [] => []
  | EvAppend _ m :: evs' => m :: appended evs'
  | _ :: evs' => appended evs'
  end.

(** [len(json.dumps(ms))], the quantity [estimate_tokens] divides by 4. *)
Definition dumps_len (ms : list message) : Z :=
  PyStr.len (Json.dumps_messages ms).

(** No entry of the prefix map is a prefix of the lowercased text. *)
Definition unmatched (pm : list (string * AgentConfig)) (text_lower : string) : Prop :=
  Forall (λ kv, PyStr.startswith text_lower (fst kv) = false) pm.

(** The three ways [split_index] finds its cut. *)
Definition found_forward (msgs : list message) (i : nat) : Prop :=
  let mid := (length msgs / 2)%nat in
  (mid ≤ i < length msgs)%nat
  ∧ user_at msgs i = true
  ∧ ∀ k, (mid ≤ k < i)%nat → user_at msgs k = false.

Definition found_backward (msgs : list message) (i : nat) : Prop :=
  let mid := (length msgs / 2)%nat in
  (∀ k, (mid ≤ k)%nat → user_at msgs k = false)
  ∧ (1 ≤ i < mid)%nat
  ∧ user_at msgs i = true
  ∧ ∀ k, (i < k)%nat → user_at msgs k = false.

Definition fell_back (msgs : list message) (i : nat) : Prop :=
  (∀ k, (1 ≤ k)%nat → user_at msgs k = false) ∧ i = (length msgs / 2)%nat.

(** The text of a list of messages is its items joined by a comma and a
    space, between brackets. *)
Definition items (ms : list message) : list string :=
  map Json.dumps (map JDict ms).

(** Events that touch neither the session files nor the LLM. *)
Definition local_event (ev : event) : Prop :=
  is_write ev = false ∧ is_chat ev = false.

(** The messages built from the calls and the results of their tools. *)
Definition result_msgs (tcs : list ToolCall) (results : list string) : list message :=
  zip_with tool_result_msg tcs results.

(** The world after [m] and then [msgs] were appended to the session file. *)
Definition after_appends {Env : Type} (session_key : string) (w : World Env)
           (m : message) (msgs : list message) : World Env :=
  {| env := env w;
     files := <[_path session_key := session_log w session_key ++ m :: msgs]> (files w);
     events := events w ++ EvAppend (_path session_key) m
                        :: map (EvAppend (_path session_key)) msgs |}.

(** The world once the user message is appended. *)
Definition with_user {Env : Type} (session_key : string) (w : World Env)
           (user_text : string) : World Env :=
  {| env := env w;
     files := <[_path session_key :=
                  session_log w session_key ++ [user_message user_text]]> (files w);
     events := events w ++ [EvAppend (_path session_key) (user_message user_text)] |}.

(** The loop ran out of iterations: [n] calls, each tool-requesting, and
    the sentinel as the result. *)
Definition budget_exhausted (n : nat) (evs : list event) (s : string) : Prop :=
  length (chat_results evs) = n
  ∧ forallb tool_requesting (chat_results evs) = true
  ∧ s = sentinel.

(** The loop ended on a final response, after tool-requesting ones: the
    result is its content and its message is the last one written. *)
Definition ended_on_final (evs : list event) (s : string) : Prop :=
  ∃ earlier r,
    chat_results evs = earlier ++ [Ok r]
    ∧ forallb tool_requesting earlier = true
    ∧ has_tool_calls r = false
    ∧ s = str_or (content r) ""
    ∧ last (appended evs) = Some (_serialize_assistant_message r).

(** ** The specification's wording, where it is compared with the code *)

Module Spec.

(** Searching backward from [i] for a user message: [i, i-1, ..., 0]. *)
Fixpoint nearest_user_below (messages : list message) (i : nat) : option nat :=
  if user_at messages i then Some i
  else match i with
       | O => None
       | S i' => nearest_user_below messages i'
       end.

(** The split point as the specification words it: the first user
    message at or after the midpoint; failing that, the nearest user
    message before it; failing that, the midpoint. *)
Definition split_index (messages : list message) : nat :=
  let mid := (length messages / 2)%nat in
  match walk_forward (drop mid messages) mid with
  | Some i => i
  | None =>
      match nearest_user_below messages mid with
      | Some i => i
      | None => mid
      end
  end.

(** The text's leading non-space run, lowercased. *)
Definition leading_run (user_text : string) : string :=
  PyStr.lower (PyStr.nonspace_run (PyStr.lstrip user_text)).

(** Routing as the specification words it: the leading run is compared
    with each registered prefix, the first equal one wins; the prefix
    and the whitespace after it are stripped. *)
Fixpoint resolve_in (pm : list (string * AgentConfig)) (user_text : string)
  : option (AgentConfig * string) :=
  match pm with
  | [] => None
  | (p, agent) :: rest =>
      if String.eqb (leading_run user_text) p
      then Some (agent,
                 str_or (Some (PyStr.lstrip
                                 (PyStr.drop (String.length p)
                                             (PyStr.lstrip user_text))))
                        no_query)
      else resolve_in rest user_text
  end.

Definition resolve (router : AgentRouter) (user_text : string)
  : AgentConfig * string :=
  match resolve_in (_prefix_map router) user_text with
  | Some res => res
  | None => (_default router, user_text)
  end.

End Spec.

(** ** Concrete instances used in the examples below *)

Module Demo.

(** A client that answers from a script; the environment counts the
    calls made so far. *)
Definition scripted (script : list (outcome Response))
  : Request -> nat -> outcome Response * nat :=
  fun _ n => (nth n script (Raise (PyExc "connection refused")), S n).

(** A parser that knows the two argument texts of the examples. *)
Definition loads (s : string) : option json :=
  if String.eqb s "{}" then Some (JDict [])
  else if String.eqb s "[]" then Some (JList [])
  else None.

(** [str(x)] of a value inside an f-string, for the scalar values. *)
Definition show (j : json) : outcome string :=
  match j with
  | JStr s => Ok s
  | JNull => Ok "None"
  | JBool true => Ok "True"
  | JBool false => Ok "False"
  | JInt z => Ok (PyStr.of_Z z)
  | JList _ | JDict _ => Raise (PyExc "not rendered here")
  end.

(** [tc["function"]["name"]] of a recorded tool call. *)
Definition call_name (tc : json) : outcome string :=
  match tc with
  | JDict d =>
      match Dict.get "function" d with
      | Some (JDict f) =>
          match Dict.get "name" f with
          | Some (JStr n) => Ok n
          | _ => Raise (PyExc "TypeError")
          end
      | _ => Raise (PyExc "TypeError")
      end
  | _ => Raise (PyExc "TypeError")
  end.

Fixpoint call_names (tcs : list json) : outcome (list string) :=
  match tcs with
  | [] => Ok []
  | tc :: rest =>
      match call_name tc, call_names rest with
      | Ok n, Ok ns => Ok (n :: ns)
      | Raise e, _ => Raise e
      | _, Raise e => Raise e
      end
  end.

(** The lines [_format_for_summary] writes for one message. *)
Definition render_message (msg : message) : outcome (list string) :=
  let role := default (JStr "unknown") (Dict.get "role" msg) in
  let content := default (JStr "") (Dict.get "content" msg) in
  match role with
  | JStr "tool" =>
      match show (default (JStr "") (Dict.get "tool_call_id" msg)), content with
      | Ok tool_id, JStr c =>
          Ok ["[Tool result " +:+ tool_id +:+ "]: " +:+ PyStr.take 500 c]
      | Raise e, _ => Raise e
      | _, _ => Raise (PyExc "TypeError")
      end
  | _ =>
      if truthy_get "tool_calls" msg then
        match Dict.get "tool_calls" msg with
        | Some (JList tcs) =>
            match call_names tcs with
            | Ok tool_names =>
                let line :=
                  "Assistant: [called tools: " +:+ PyStr.join ", " tool_names +:+ "]" in
                if truthy content then
                  match show content with
                  | Ok c => Ok [line; "Assistant: " +:+ c]
                  | Raise e => Raise e
                  end
                else Ok [line]
            | Raise e => Raise e
            end
        | _ => Raise (PyExc "TypeError")
        end
      else
        match role, show content with
        | JStr r, Ok c => Ok [PyStr.capitalize r +:+ ": " +:+ c]
        | JStr _, Raise e => Raise e
        | _, _ => Raise (PyExc "AttributeError")
        end
  end.

Fixpoint render_lines (ms : list message) : outcome (list string) :=
  match ms with
  | [] => Ok []
  | msg :: rest =>
      match render_message msg, render_lines rest with
      | Ok l, Ok ls => Ok (l ++ ls)
      | Raise e, _ => Raise e
      | _, Raise e => Raise e
      end
  end.

(** An instance of the rendering for the summariser.  It follows
    [_format_for_summary] on messages whose fields are strings, null,
    booleans or integers and whose tool calls are recorded as the loop
    records them; a list or a dict as content is not rendered here. *)
Definition render (ms : list message) : outcome string :=
  match render_lines ms with
  | Ok ls => Ok (PyStr.join nl ls)
  | Raise e => Raise e
  end.

Definition echo : Tool nat :=
  {| name := "echo"; description := "Echo the input";
     input_schema := JDict [("type", JStr "object")];
     handler := fun _ e => (Ok "echoed", e) |}.

Definition boom : Tool nat :=
  {| name := "boom"; description := "Always fails";
     input_schema := JDict [("type", JStr "object")];
     handler := fun _ e => (Raise (PyExc "boom"), e) |}.

Definition registry : ToolRegistry nat := [("echo", echo); ("boom", boom)].

Definition world0 : World nat := {| env := 0%nat; files := ∅; events := [] |}.

Definition call (id nm : string) : ToolCall :=
  {| tc_id := id; tc_name := nm; tc_arguments := "{}" |}.

Definition tool_response (tcs : list ToolCall) : Response :=
  {| content := None; tool_calls := tcs; finish_reason := "tool_use" |}.

Definition text_response (s : string) : Response :=
  {| content := Some s; tool_calls := []; finish_reason := "stop" |}.

Definition jarvis : AgentConfig :=
  {| agent_name := "Jarvis"; agent_model := "m"; prefix := None;
     session_prefix := "agent:main"; system_prompt := "You are Jarvis." |}.

Definition scout : AgentConfig :=
  {| agent_name := "Scout"; agent_model := "m"; prefix := Some "/research";
     session_prefix := "agent:research"; system_prompt := "You are Scout." |}.

Definition router : AgentRouter := AgentRouter_init jarvis [scout].

Definition morning : Heartbeat :=
  {| hb_name := "morning"; schedule_expr := "every day at 07:30";
     hb_prompt := "Good morning"; hb_agent := "main" |}.

Definition u (s : string) : message := [("role", JStr "user"); ("content", JStr s)].
Definition a (s : string) : message := [("role", JStr "assistant"); ("content", JStr s)].

End Demo.

(** ** The scenarios run in the examples *)

Definition two_calls : Response :=
  Demo.tool_response [Demo.call "c1" "echo"; Demo.call "c2" "boom"].

Definition parallel_client : Request → nat → outcome Response * nat :=
  Demo.scripted [Ok two_calls; Ok (Demo.text_response "both")].

Definition looping_client : Request → nat → outcome Response * nat :=
  Demo.scripted (replicate 4 (Ok (Demo.tool_response [Demo.call "c1" "echo"]))).

Definition demo_turn (chat : Request → nat → outcome Response * nat)
           (user_text : string) (max_turns threshold : Z) (w : World nat)
  : outcome string * World nat :=
  run_agent_turn chat Demo.loads Demo.render "m" "You are Jarvis." "k"
                 Demo.registry None user_text max_turns threshold w.

Definition seeded : World nat :=
  {| env := 0%nat;
     files := {[ _path "k" := [Demo.u "run ls"; Demo.a "done"] ]};
     events := [] |}.

(** A user who refuses every command, and the files of the permission
    examples. *)
Definition refuse : string → nat → bool * nat := λ _ n, (false, S n).

Definition guarded : PermissionManager nat :=
  PermissionManager_init None (Some refuse).

Definition fresh : PermState nat :=
  {| approvals_file := Missing; user := 0%nat; prompts := [] |}.

Definition once_denied : ApprovalsFile :=
  Document [("allowed", []); ("denied", ["rm -rf /"])].

(** ** Vocabulary of the further properties *)

(** *** session/store.py, continued *)

(** [SessionStore.delete]: the file is removed when it is there.  No event
    is recorded for it; the turn loop never deletes. *)
Definition session_delete {Env : Type} (session_key : string) (w : World Env)
  : World Env :=
  {| env := env w; files := delete (_path session_key) (files w);
     events := events w |}.

(** The characters a file name keeps. *)
Definition filename_char (c : ascii) : bool :=
  let n := nat_of_ascii c in
  ((97 <=? n) && (n <=? 122))%nat || ((65 <=? n) && (n <=? 90))%nat
  || ((48 <=? n) && (n <=? 57))%nat || (n =? 95)%nat || (n =? 45)%nat.

Fixpoint string_forallb (p : ascii → bool) (s : string) : bool :=
  match s with
  | EmptyString => true
  | String c s' => p c && string_forallb p s'
  end.

(** *** tools/registry.py, continued *)

(** Tools registered one after the other, as the entry points do; the
    first [ValueError] ends the sequence. *)
Fixpoint register_all {Env : Type} (tools : list (Tool Env)) (reg : ToolRegistry Env)
  : outcome (ToolRegistry Env) :=
  match tools with
  | [] => Ok reg
  | tool :: rest =>
      match register tool reg with
      | Ok reg' => register_all rest reg'
      | Raise e => Raise e
      end
  end.

(** The schema [get_schemas] lists for one tool. *)
Definition schema_of {Env : Type} (tool : Tool Env) : json :=
  JDict [("type", JStr "function");
         ("function", JDict [("name", JStr (name tool));
                             ("description", JStr (description tool));
                             ("parameters", input_schema tool)])].

(** *** permissions/manager.py, continued *)

(** No character of [s] is white space. *)
Definition no_space (s : string) : bool :=
  string_forallb (λ c, negb (PyStr.isspace c)) s.

(** Several commands put to the gate one after the other; the answers in
    order and the state left behind. *)
Fixpoint run_commands {User : Type} (pm : PermissionManager User)
         (commands : list string) (s : PermState User) : list bool * PermState User :=
  match commands with
  | [] => ([], s)
  | command :: rest =>
      let '(ok, s1) := run_command_gate pm command s in
      let '(oks, s2) := run_commands pm rest s1 in
      (ok :: oks, s2)
  end.

(** The key [_save_approval] files a decision under. *)
Definition decision_key (approved : bool) : string :=
  if approved then "allowed" else "denied".

(** *** agent/router.py, continued *)

(** What [__init__] guarantees of an entry of the prefix map. *)
Definition entry_ok (agents : list AgentConfig) (kv : string * AgentConfig) : Prop :=
  fst kv ≠ ""
  ∧ PyStr.lower (fst kv) = fst kv
  ∧ snd kv ∈ agents
  ∧ ∃ p, prefix (snd kv) = Some p ∧ PyStr.lower p = fst kv.

(** *** agent/loop.py, continued *)

(** What is written after a list that does not end with an unanswered
    assistant message leaves it so. *)
Definition keeps_clean (body : list message) : Prop :=
  ∀ pre, pre ≠ [] → ends_with_orphan pre = false →
         ends_with_orphan (pre ++ body) = false.

(** The messages the code itself writes to a session file: the user
    message and the assistant and tool messages of the loop, and the
    summary message of the compactor. *)
Definition loop_written (m : message) : Prop :=
  (∃ user_text, m = user_message user_text)
  ∨ (∃ r, m = _serialize_assistant_message r)
  ∨ (∃ tc result, m = tool_result_msg tc result)
  ∨ (∃ n summary, m = summary_msg n summary).

(** The events of a tool phase: each tool run, followed by the callback
    when there is one, with the result that goes into the tool message. *)
Definition tool_trace {Env : Type} (json_loads : string → option json)
           (on_tool_use : OnToolUseCallback Env)
           (tcs : list ToolCall) (results : list string) : list event :=
  concat (zip_with
            (λ tc s,
               EvTool (tc_name tc) (parse_arguments json_loads tc) s
               :: match on_tool_use with
                  | Some _ => [EvCallback (tc_name tc) (parse_arguments json_loads tc) s]
                  | None => []
                  end)
            tcs results).

(** Not a control character: code point 32 or above, so neither a line
    feed nor a carriage return. *)
Definition no_control (c : ascii) : bool := (32 <=? nat_of_ascii c)%nat.

(** The line [append] and [save] write for a message, without its
    line feed. *)
Definition line_of (m : message) : string := Json.dumps_message m.

(** The world once a tool run is recorded. *)
Definition tool_logged {Env : Type} (w : World Env) (nm : string)
           (tool_input : json) (result : string) : World Env :=
  {| env := env w; files := files w;
     events := events w ++ [EvTool nm tool_input result] |}.

(** The callback is told of a result and returns: without a callback
    nothing happens. *)
Definition callback_told {Env : Type} (on_tool_use : OnToolUseCallback Env)
           (nm : string) (tool_input : json) (result : string)
           (w w' : World Env) : Prop :=
  match on_tool_use with
  | None => w' = w
  | Some cb =>
      ∃ e', cb nm tool_input result (env w) = (Ok tt, e')
            ∧ w' = {| env := e'; files := files w;
                      events := events w ++ [EvCallback nm tool_input result] |}
  end.

(** The callback is told of a result and raises. *)
Definition callback_raised {Env : Type} (on_tool_use : OnToolUseCallback Env)
           (nm : string) (tool_input : json) (result : string)
           (w : World Env) (e : exn) (w' : World Env) : Prop :=
  ∃ cb e', on_tool_use = Some cb
           ∧ cb nm tool_input result (env w) = (Raise e, e')
           ∧ w' = {| env := e'; files := files w; events := events w |}.

(** The tools of some calls executed one after the other: the tool of
    each call is executed by the registry on the parsed arguments, in the
    world the calls before it left, and the callback is told its result.
    [results] are the strings the executions returned, in order. *)
Inductive tools_executed {Env : Type} (json_loads : string → option json)
          (reg : ToolRegistry Env) (on_tool_use : OnToolUseCallback Env)
  : list ToolCall → World Env → list string → World Env → Prop :=
| executed_nil (w : World Env) :
    tools_executed json_loads reg on_tool_use [] w [] w
| executed_cons (tc : ToolCall) (tcs : list ToolCall) (w w1 w2 w' : World Env)
                (s : string) (results : list string) :
    execute reg (tc_name tc) (parse_arguments json_loads tc) w = (Ok s, w1) →
    callback_told on_tool_use (tc_name tc) (parse_arguments json_loads tc) s
                  (tool_logged w1 (tc_name tc) (parse_arguments json_loads tc) s) w2 →
    tools_executed json_loads reg on_tool_use tcs w2 results w' →
    tools_executed json_loads reg on_tool_use (tc :: tcs) w (s :: results) w'.

(** *** session/store.py on the text of the file

    The store of the turn loop above keeps a session file as the list of
    its messages.  Here the file is its text, and [load], [append],
    [save] and [message_count] are the line-by-line code of the source;
    [None] is a file that does not exist. *)

Module Jsonl.

Definition LF : ascii := ascii_of_nat 10.
Definition CR : ascii := ascii_of_nat 13.

(** Where the reader of a text file stands: right after a carriage
    return, or inside a line of which [cur] was read, kept reversed. *)
Inductive reader : Type :=
| after_cr
| in_line (cur : string).

Definition cur_of (st : reader) : string :=
  match st with
  | after_cr => EmptyString
  | in_line cur => cur
  end.

(** [for line in f] on a file opened in text mode: the lines with
    their terminators, where a carriage return, alone or followed by a
    line feed, is read as a line feed; a last line without terminator is
    given as it is. *)
Fixpoint lines_go (st : reader) (text : string) : list string :=
  match text with
  | EmptyString =>
      match cur_of st with
      | EmptyString => []
      | cur => [String.rev cur]
      end
  | String c rest =>
      if Ascii.eqb c LF then
        match st with
        | after_cr => lines_go (in_line EmptyString) rest
        | in_line cur => String.rev (String LF cur) :: lines_go (in_line EmptyString) rest
        end
      else if Ascii.eqb c CR then
        String.rev (String LF (cur_of st)) :: lines_go after_cr rest
      else lines_go (in_line (String c (cur_of st))) rest
  end.

Definition lines (text : string) : list string :=
  lines_go (in_line EmptyString) text.

(** What [load] makes of one line: nothing of a line that is blank
    once stripped or that [json.loads] refuses. *)
Definition parse_line (json_loads : string → option json) (line : string)
  : option json :=
  let stripped := PyStr.strip line in
  if String.eqb stripped "" then None else json_loads stripped.

(** [SessionStore.load] *)
Definition load (json_loads : string → option json) (file : option string)
  : list json :=
  match file with
  | None => []
  | Some text => omap (parse_line json_loads) (lines text)
  end.

(** [SessionStore.append]: the file opened for appending. *)
Definition append (m : message) (file : option string) : option string :=
  Some (default EmptyString file +:+ Json.dumps_message m +:+ nl).

(** The [for msg in messages: f.write(...)] loop of [save]. *)
Fixpoint write_lines (ms : list message) : string :=
  match ms with
  | [] => EmptyString
  | msg :: rest => Json.dumps_message msg +:+ nl +:+ write_lines rest
  end.

(** [SessionStore.save]: the file written anew. *)
Definition save (ms : list message) : option string := Some (write_lines ms).

(** [SessionStore.message_count] *)
Definition message_count (file : option string) : nat :=
  match file with
  | None => 0
  | Some text =>
      length (List.filter (λ line, negb (String.eqb (PyStr.strip line) ""))
                          (lines text))
  end.

(** The text is empty or ends with a line terminator. *)
Fixpoint ends_line (text : string) : bool :=
  match text with
  | EmptyString => true
  | String c rest =>
      match rest with
      | EmptyString => Ascii.eqb c LF || Ascii.eqb c CR
      | _ => ends_line rest
      end
  end.

(** No file, or a file whose last line is complete. *)
Definition terminated (file : option string) : bool :=
  match file with
  | None => true
  | Some text => ends_line text
  end.

End Jsonl.

(** *** Further scenarios *)

(** A user who approves every command, and a manager nobody answers for. *)
Definition accept : string → nat → bool * nat := λ _ n, (true, S n).

Definition trusting : PermissionManager nat :=
  PermissionManager_init None (Some accept).

Definition unattended : PermissionManager nat :=
  PermissionManager_init None None.

(** An agent whose prefix is that of [Demo.scout] in capitals. *)
Definition deep : AgentConfig :=
  {| agent_name := "Deep"; agent_model := "m"; prefix := Some "/RESEARCH";
     session_prefix := "agent:deep"; system_prompt := "You are Deep." |}.

(** A parser that knows the lines of the given messages. *)
Definition knows (ms : list message) (s : string) : option json :=
  match List.find (λ m, String.eqb s (line_of m)) ms with
  | Some m => Some (JDict m)
  | None => None
  end.

(** * Properties *)

(** ** The history sanitiser *)

Lemma pop_orphans_split (l : list message) :
  ∃ popped, l = popped ++ pop_orphans l
            ∧ Forall (λ m, is_orphan m = true) popped
            ∧ match pop_orphans l with
              | [] => True
              | m :: _ => is_orphan m = false
              end.
Proof.
  induction l as [|m l IH]; simpl.
  - exists []. by repeat split.
  - destruct (is_orphan m) eqn:Hm.
    + destruct IH as (popped & Heq & Hall & Hhd).
      exists (m :: popped). repeat split; [simpl; by f_equal | by constructor | done].
    + exists []. by repeat split.
Qed.

Lemma sanitize_split (x : list message) :
  ∃ tail, x = _sanitize_loaded_messages x ++ tail
          ∧ Forall (λ m, is_orphan m = true) tail
          ∧ ends_with_orphan (_sanitize_loaded_messages x) = false.
Proof.
  unfold _sanitize_loaded_messages, ends_with_orphan.
  destruct (pop_orphans_split (rev x)) as (popped & Heq & Hall & Hhd).
  exists (rev popped). repeat split.
  - rewrite <- rev_app_distr, <- Heq. by rewrite rev_involutive.
  - by apply Forall_rev.
  - destruct (pop_orphans (rev x)) as [|m k]; [done|].
    simpl rev. by rewrite last_snoc.
Qed.

Lemma last_orphan_tail (r t : list message) :
  Forall (λ m, is_orphan m = true) t → t ≠ [] → ends_with_orphan (r ++ t) = true.
Proof.
  intros Hall Hne. unfold ends_with_orphan.
  destruct (decide (t = [])) as [->|_]; [done|].
  induction t as [|y t IH] using rev_ind; [done|].
  rewrite app_assoc, last_snoc.
  apply Forall_app in Hall as [_ Hy]. by inversion Hy.
Qed.

(** C2. [_sanitize_loaded_messages x] is a prefix of [x] that does not end
    with an assistant message carrying unanswered tool calls, no longer
    prefix of [x] has that property, and sanitising twice changes nothing. *)
Theorem sanitize_longest_clean_prefix (x : list message) :
  let r := _sanitize_loaded_messages x in
  r `prefix_of` x
  ∧ ends_with_orphan r = false
  ∧ (∀ p, p `prefix_of` x → ends_with_orphan p = false → (length p ≤ length r)%nat)
  ∧ _sanitize_loaded_messages r = r.
Proof.
  intros r. destruct (sanitize_split x) as (tail & Heq & Hall & Hclean).
  fold r in Heq, Hclean. repeat split.
  - by exists tail.
  - done.
  - intros p [k Hp] Hpclean.
    destruct (decide (length p ≤ length r)%nat) as [|Hlong]; [done|exfalso].
    destruct (prefix_weak_total r p x) as [[t ->]|Hpr];
      [by exists tail | by exists k | | apply prefix_length in Hpr; lia].
    assert (Ht : t ≠ []) by (intros ->; rewrite app_nil_r in Hlong; lia).
    rewrite Heq, <- app_assoc in Hp. apply app_inv_head in Hp. subst tail.
    apply Forall_app in Hall as [Hall _].
    rewrite (last_orphan_tail r t) in Hpclean; done.
  - destruct (sanitize_split r) as (tail' & Heq' & Hall' & _).
    destruct tail' as [|m tail']; [by rewrite app_nil_r in Heq'|exfalso].
    assert (ends_with_orphan r = true); [|congruence].
    rewrite Heq'. by apply last_orphan_tail.
Qed.

(** ** The tool registry *)

(** C8. [ToolRegistry.execute] always returns a string: the fixed text for
    a name that is not registered, and a text beginning with [Error] when
    the handler of a registered tool raises. *)
Theorem execute_never_raises {Env : Type} (reg : ToolRegistry Env)
        (nm : string) (tool_input : json) (w : World Env) :
  ∃ s, fst (execute reg nm tool_input w) = Ok s
       ∧ (Dict.get nm reg = None → s = "Error: Unknown tool '" +:+ nm +:+ "'")
       ∧ (∀ tool e env', Dict.get nm reg = Some tool →
                         handler tool tool_input (env w) = (Raise e, env') →
                         s = "Error executing " +:+ nm +:+ ": " +:+ exn_msg e
                         ∧ PyStr.startswith s "Error" = true)
       ∧ (∀ tool r env', Dict.get nm reg = Some tool →
                         handler tool tool_input (env w) = (Ok r, env') → s = r).
Proof.
  unfold execute. destruct (Dict.get nm reg) as [tool|] eqn:Hget.
  - unfold try_except, bind, on_env, ret.
    destruct (handler tool tool_input (env w)) as [[r|e] env'] eqn:Hh; simpl.
    + exists r. split_and!; [done|done| |].
      * intros ? ? ? [= <-]. rewrite Hh. by intros [= ].
      * intros ? ? ? [= <-]. rewrite Hh. by intros [= <- _].
    + exists ("Error executing " +:+ nm +:+ ": " +:+ exn_msg e).
      split_and!; [done|done| |].
      * intros ? ? ? [= <-]. rewrite Hh. by intros [= <- _].
      * intros ? ? ? [= <-]. rewrite Hh. by intros [= ].
  - exists ("Error: Unknown tool '" +:+ nm +:+ "'"). by split_and!.
Qed.

(** ** Dictionaries *)

Lemma dict_get_set_eq {V : Type} (k : string) (v : V) (d : list (string * V)) :
  Dict.get k (Dict.set k v d) = Some v.
Proof.
  induction d as [|[k' v'] d IH]; simpl.
  - by rewrite String.eqb_refl.
  - destruct (String.eqb k k') eqn:E; simpl; rewrite E; [done|apply IH].
Qed.

Lemma dict_get_set_ne {V : Type} (k k0 : string) (v : V) (d : list (string * V)) :
  k0 ≠ k → Dict.get k0 (Dict.set k v d) = Dict.get k0 d.
Proof.
  intros Hne. induction d as [|[k' v'] d IH]; simpl.
  - apply String.eqb_neq in Hne. by rewrite Hne.
  - destruct (String.eqb k k') eqn:E; simpl.
    + apply String.eqb_eq in E as <-. apply String.eqb_neq in Hne. by rewrite Hne.
    + by rewrite IH.
Qed.

(** ** The permission manager *)

Section PermissionFacts.

Context {User : Type}.
Implicit Types (pm : PermissionManager User) (s : PermState User).

Lemma mem_snoc (x : string) (l : list string) : mem x (l ++ [x]) = true.
Proof.
  unfold mem. rewrite existsb_app. simpl. rewrite String.eqb_refl.
  by rewrite orb_true_r.
Qed.

Lemma save_denied_keeps_allowed (command : string) (f : ApprovalsFile) :
  listed "allowed" (_save_approval command false f) = listed "allowed" f.
Proof.
  unfold _save_approval, listed.
  destruct (mem command (default [] (Dict.get "denied" (_load_approvals f))));
    simpl; [done|].
  by rewrite dict_get_set_ne.
Qed.

Lemma save_denied_records (command : string) (f : ApprovalsFile) :
  mem command (listed "denied" (_save_approval command false f)) = true.
Proof.
  unfold _save_approval, listed.
  destruct (mem command (default [] (Dict.get "denied" (_load_approvals f))))
    eqn:Hm; simpl; [done|].
  rewrite dict_get_set_eq. simpl. apply mem_snoc.
Qed.

Lemma check_needs_approval pm (f : ApprovalsFile) (command : string) :
  base_cmd command ∉ _safe_commands pm →
  mem command (listed "allowed" f) = false →
  check pm f command = "needs_approval".
Proof.
  intros Hsafe Hallowed. unfold check.
  destruct (decide _) as [|_]; [done|]. by rewrite Hallowed.
Qed.

(** C10. A command whose base token is not safe and which is not in the
    allowed list needs approval whatever the denied list holds; a denial
    records it in the denied list and leaves the answer of [check]
    unchanged, so the next attempt asks again. *)
Theorem check_ignores_denied pm (f : ApprovalsFile) (command : string) :
  base_cmd command ∉ _safe_commands pm →
  mem command (listed "allowed" f) = false →
  check pm f command = "needs_approval"
  ∧ ∀ s s', approvals_file s = f →
            request_approval pm command s = (false, s') →
            mem command (listed "denied" (approvals_file s')) = true
            ∧ check pm (approvals_file s') command = "needs_approval"
            ∧ prompts (snd (run_command_gate pm command s'))
              = prompts s ++ [command; command].
Proof.
  intros Hsafe Hallowed. split; [by apply check_needs_approval|].
  intros s s' <- Hreq. unfold request_approval in Hreq.
  destruct (match _approval_callback pm with
            | Some cb => cb command (user s)
            | None => (false, user s)
            end) as [approved u] eqn:Hcb.
  injection Hreq as -> <-. simpl.
  assert (Hc : check pm (_save_approval command false (approvals_file s)) command
               = "needs_approval").
  { apply check_needs_approval; [done|]. by rewrite save_denied_keeps_allowed. }
  split_and!; [apply save_denied_records | done |].
  unfold run_command_gate. simpl. rewrite Hc. simpl.
  unfold request_approval. simpl.
  destruct (match _approval_callback pm with
            | Some cb => cb command u
            | None => (false, u)
            end) as [approved' u']. simpl.
  by rewrite <- app_assoc.
Qed.

(** With a user who refuses, every attempt prompts once more. *)
Lemma refused_command_prompts_every_time pm (command : string)
      (cb : string → User → bool * User) (n : nat) s :
  _approval_callback pm = Some cb →
  (∀ u, fst (cb command u) = false) →
  base_cmd command ∉ _safe_commands pm →
  mem command (listed "allowed" (approvals_file s)) = false →
  prompts (attempts pm command n s) = prompts s ++ replicate n command.
Proof.
  intros Hcb Hno Hsafe. revert s.
  induction n as [|n IH]; intros s Hallowed; simpl.
  - by rewrite app_nil_r.
  - unfold run_command_gate.
    rewrite (check_needs_approval pm _ command Hsafe Hallowed). simpl.
    unfold request_approval. rewrite Hcb.
    specialize (Hno (user s)).
    destruct (cb command (user s)) as [approved u]. simpl in *. subst approved.
    rewrite IH; simpl.
    + by rewrite <- app_assoc.
    + by rewrite save_denied_keeps_allowed.
Qed.

End PermissionFacts.

Lemma check_ignores_denied_witness :
  (base_cmd "rm -rf /" ∉ _safe_commands guarded)
  ∧ mem "rm -rf /" (listed "allowed" once_denied) = false
  ∧ mem "rm -rf /" (listed "denied" once_denied) = true
  ∧ check guarded once_denied "rm -rf /" = "needs_approval".
Proof.
  assert (Hsafe : base_cmd "rm -rf /" ∉ _safe_commands guarded).
  { apply (bool_decide_unpack _). vm_compute. exact I. }
  assert (Hallowed : mem "rm -rf /" (listed "allowed" once_denied) = false).
  { reflexivity. }
  split_and!; [exact Hsafe | exact Hallowed | reflexivity |].
  exact (proj1 (check_ignores_denied guarded once_denied "rm -rf /" Hsafe Hallowed)).
Defined.

(** ** The agent router *)

Lemma resolve_in_first_match (before after : list (string * AgentConfig))
      (p : string) (agent : AgentConfig) (user_text text_lower : string) :
  unmatched before text_lower →
  PyStr.startswith text_lower p = true →
  resolve_in (before ++ (p, agent) :: after) user_text text_lower
  = Some (agent, remainder_of user_text p).
Proof.
  intros Hbefore Hp. induction Hbefore as [|[q b] before Hq _ IH]; simpl.
  - by rewrite Hp.
  - simpl in Hq. by rewrite Hq.
Qed.

Lemma resolve_in_no_match (pm : list (string * AgentConfig))
      (user_text text_lower : string) :
  unmatched pm text_lower → resolve_in pm user_text text_lower = None.
Proof.
  intros H. induction H as [|[q b] pm Hq _ IH]; simpl; [done|].
  simpl in Hq. by rewrite Hq.
Qed.

Lemma resolve_in_cases (pm : list (string * AgentConfig)) (text_lower : string) :
  unmatched pm text_lower
  ∨ ∃ before p agent after,
      pm = before ++ (p, agent) :: after
      ∧ unmatched before text_lower
      ∧ PyStr.startswith text_lower p = true.
Proof.
  induction pm as [|[q b] pm IH].
  - left. constructor.
  - destruct (PyStr.startswith text_lower q) eqn:Hq.
    + right. exists [], q, b, pm. split_and!; [done|constructor|done].
    + destruct IH as [IH|(before & p & agent & after & -> & Hb & Hp)].
      * left. by constructor.
      * right. exists ((q, b) :: before), p, agent, after.
        split_and!; [done|by constructor|done].
Qed.

(** C5, as the code has it. [resolve] tests whether the stripped,
    lowercased text starts with an entry of the prefix map; the first such
    entry in the order of the map wins and gives its agent, with the text
    stripped, cut by the length of the prefix and stripped again, or the
    placeholder when nothing is left; when no entry matches, the default
    agent gets the text as it came.  One of the two cases always applies. *)
Theorem resolve_by_prefix (router : AgentRouter) (user_text : string) :
  let text_lower := PyStr.lower (PyStr.strip user_text) in
  (∀ before p agent after,
      _prefix_map router = before ++ (p, agent) :: after →
      unmatched before text_lower →
      PyStr.startswith text_lower p = true →
      resolve router user_text
      = (agent,
         str_or (Some (PyStr.strip (PyStr.drop (String.length p)
                                               (PyStr.strip user_text))))
                "(no query provided)"))
  ∧ (unmatched (_prefix_map router) text_lower →
     resolve router user_text = (_default router, user_text))
  ∧ (unmatched (_prefix_map router) text_lower
     ∨ ∃ before p agent after,
         _prefix_map router = before ++ (p, agent) :: after
         ∧ unmatched before text_lower
         ∧ PyStr.startswith text_lower p = true).
Proof.
  intros text_lower. split_and!.
  - intros before p agent after Hpm Hb Hp. unfold resolve. fold text_lower.
    rewrite Hpm. by rewrite (resolve_in_first_match _ _ _ _ _ _ Hb Hp).
  - intros Hno. unfold resolve. fold text_lower.
    by rewrite (resolve_in_no_match _ _ _ Hno).
  - apply resolve_in_cases.
Qed.

(** C5 as stated fails: the code matches on a prefix of the text, not on
    its whole leading word. *)
Lemma resolve_not_by_leading_run :
  resolve Demo.router "/researching AI" = (Demo.scout, "ing AI")
  ∧ Spec.resolve Demo.router "/researching AI" = (Demo.jarvis, "/researching AI")
  ∧ resolve Demo.router "/researching AI"
    ≠ Spec.resolve Demo.router "/researching AI".
Proof.
  split_and!; [reflexivity | reflexivity | ].
  vm_compute. intros [=].
Qed.

(** The registration of the examples, and inputs on which the two
    readings agree. *)
Example demo_prefix_map : _prefix_map Demo.router = [("/research", Demo.scout)].
Proof. reflexivity. Qed.

Example resolve_research :
  resolve Demo.router "  /RESEARCH  quantum computing " = (Demo.scout, "quantum computing").
Proof. reflexivity. Qed.

Example resolve_no_query : resolve Demo.router "/research" = (Demo.scout, "(no query provided)").
Proof. reflexivity. Qed.

Example resolve_default : resolve Demo.router " hello " = (Demo.jarvis, " hello ").
Proof. reflexivity. Qed.

(** ** The heartbeat firing path *)

Lemma string_app_assoc (a b c : string) : (a +:+ b) +:+ c = a +:+ (b +:+ c).
Proof. induction a as [|x a IH]; simpl; [done|]. unfold String.app in *. simpl. by rewrite IH. Qed.

(** C6, as the code has it.  A firing calls the router with channel
    [heartbeat], the heartbeat's prompt as text and [cron:<name>] as user
    id; whatever agent the router runs the turn with, the session key it
    composes is [<namespace>:heartbeat:cron:<name>] for the namespace of
    that agent, and it is on this key that the turn runs; [_fire] is this
    call of the router, with what it raises swallowed. *)
Theorem fire_session_key {Env : Type} chat json_loads format_for_summary
        (router : AgentRouter) (tool_registry : ToolRegistry Env)
        (on_result : OnHeartbeatResult Env) (h : Heartbeat) (w : World Env) :
  let c := fire_call h in
  rc_channel c = "heartbeat"
  ∧ rc_user_id c = "cron:" +:+ hb_name h
  ∧ rc_user_text c = hb_prompt h
  ∧ (∀ agent, session_key_of agent c
              = session_prefix agent +:+ ":heartbeat:cron:" +:+ hb_name h)
  ∧ (∃ agent cleaned_text,
       run chat json_loads format_for_summary router c tool_registry None w
       = run_agent_turn chat json_loads format_for_summary
                        (agent_model agent) (system_prompt agent)
                        (session_prefix agent +:+ ":heartbeat:cron:" +:+ hb_name h)
                        tool_registry None cleaned_text 20 100000 w)
  ∧ _fire chat json_loads format_for_summary router tool_registry on_result h w
    = try_except
        (bind (run chat json_loads format_for_summary router c tool_registry None)
              (λ response,
                 match on_result with
                 | Some cb => on_env (cb (hb_name h) response)
                 | None => ret tt
                 end))
        (λ _, ret tt) w.
Proof.
  intros c.
  assert (Hkey : ∀ agent, session_key_of agent c
                          = session_prefix agent +:+ ":heartbeat:cron:" +:+ hb_name h).
  { intros agent. reflexivity. }
  split_and!; [reflexivity|reflexivity|reflexivity|exact Hkey| |reflexivity].
  unfold run.
  destruct (resolve router (rc_user_text c)) as [agent cleaned_text].
  exists agent, cleaned_text. by rewrite Hkey.
Qed.

(** C6 as stated fails: the user id is not the heartbeat's name and the
    session key carries the [cron:] marker. *)
Lemma fire_user_id_is_not_the_name :
  ¬ (rc_channel (fire_call Demo.morning) = "heartbeat"
     ∧ rc_user_id (fire_call Demo.morning) = hb_name Demo.morning
     ∧ rc_user_text (fire_call Demo.morning) = hb_prompt Demo.morning
     ∧ run_session_key Demo.router (fire_call Demo.morning)
       = "agent:main:heartbeat:morning").
Proof. vm_compute. intros (_ & [=] & _). Qed.

Example fire_morning_key :
  run_session_key Demo.router (fire_call Demo.morning)
  = "agent:main:heartbeat:cron:morning".
Proof. reflexivity. Qed.

(** ** The compactor: where it splits *)

Lemma user_at_drop (msgs : list message) (n k : nat) :
  user_at (drop n msgs) k = user_at msgs (n + k).
Proof. unfold user_at. by rewrite lookup_drop. Qed.

Lemma user_at_cons (m : message) (l : list message) (k : nat) :
  user_at (m :: l) (S k) = user_at l k.
Proof. done. Qed.

Lemma user_at_lt (msgs : list message) (i : nat) :
  user_at msgs i = true → (i < length msgs)%nat.
Proof.
  unfold user_at. destruct (msgs !! i) eqn:H; [|done].
  intros _. by apply lookup_lt_Some in H.
Qed.

Lemma walk_forward_some (l : list message) (i j : nat) :
  walk_forward l i = Some j →
  (i ≤ j < i + length l)%nat
  ∧ user_at l (j - i) = true
  ∧ ∀ k, (k < j - i)%nat → user_at l k = false.
Proof.
  revert i. induction l as [|m l IH]; intros i; simpl; [done|].
  destruct (is_user m) eqn:Hm.
  - intros [= <-]. rewrite Nat.sub_diag. split_and!; [lia|lia|done|lia].
  - intros H. apply IH in H as ([Hij Hlt] & Hu & Hbefore).
    replace (j - i)%nat with (S (j - S i)) by lia.
    split_and!; [lia|lia|done|].
    intros [|k] Hk; [done|]. rewrite user_at_cons. apply Hbefore. lia.
Qed.

Lemma walk_forward_none (l : list message) (i : nat) :
  walk_forward l i = None → ∀ k, user_at l k = false.
Proof.
  revert i. induction l as [|m l IH]; intros i; simpl.
  - intros _ k. unfold user_at. by rewrite lookup_nil.
  - destruct (is_user m) eqn:Hm; [done|].
    intros H [|k]; [done|]. rewrite user_at_cons. by eapply IH.
Qed.

Lemma walk_backward_some (msgs : list message) (i j : nat) :
  walk_backward msgs i = Some j →
  (1 ≤ j ≤ i)%nat
  ∧ user_at msgs j = true
  ∧ ∀ k, (j < k ≤ i)%nat → user_at msgs k = false.
Proof.
  induction i as [|i IH]; simpl; [done|].
  destruct (user_at msgs (S i)) eqn:Hu.
  - intros [= <-]. split_and!; [lia|lia|done|lia].
  - intros H. apply IH in H as ([H1 H2] & Hj & Hafter).
    split_and!; [lia|lia|done|].
    intros k Hk. destruct (decide (k = S i)) as [->|]; [done|]. apply Hafter. lia.
Qed.

Lemma walk_backward_none (msgs : list message) (i : nat) :
  walk_backward msgs i = None → ∀ k, (1 ≤ k ≤ i)%nat → user_at msgs k = false.
Proof.
  induction i as [|i IH]; simpl; [intros _ k; lia|].
  destruct (user_at msgs (S i)) eqn:Hu; [done|].
  intros H k Hk. destruct (decide (k = S i)) as [->|]; [done|]. apply IH; [done|lia].
Qed.

Lemma compact_empty_old {Env : Type} chat format_for_summary
      (msgs : list message) (model : string) (threshold : Z) (w : World Env) :
  take (split_index msgs) msgs = [] →
  compact chat format_for_summary msgs model threshold w = (Ok msgs, w).
Proof.
  intros Hold. unfold compact, _split_messages. rewrite Hold.
  by destruct (estimate_tokens msgs <? threshold).
Qed.

Lemma split_index_trichotomy (msgs : list message) :
  found_forward msgs (split_index msgs)
  ∨ found_backward msgs (split_index msgs)
  ∨ fell_back msgs (split_index msgs).
Proof.
  unfold found_forward, found_backward, fell_back, split_index.
  set (mid := (length msgs / 2)%nat).
  destruct (walk_forward (drop mid msgs) mid) as [j|] eqn:Hf.
  - left. apply walk_forward_some in Hf as ([H1 H2] & Hu & Hbefore).
    rewrite user_at_drop in Hu. replace (mid + (j - mid))%nat with j in Hu by lia.
    split_and!; [done|by apply user_at_lt|done|].
    intros k Hk. specialize (Hbefore (k - mid)%nat).
    rewrite user_at_drop in Hbefore. replace (mid + (k - mid))%nat with k in Hbefore by lia.
    apply Hbefore. lia.
  - assert (Hlate : ∀ k, (mid ≤ k)%nat → user_at msgs k = false).
    { intros k Hk. pose proof (walk_forward_none _ _ Hf (k - mid)%nat) as H.
      rewrite user_at_drop in H. by replace (mid + (k - mid))%nat with k in H by lia. }
    destruct (walk_backward msgs mid) as [j|] eqn:Hb.
    + right; left. apply walk_backward_some in Hb as ([H1 H2] & Hu & Hafter).
      assert (j ≠ mid) by (intros ->; rewrite Hlate in Hu; [done|lia]).
      split_and!; [done|lia|lia|done|].
      intros k Hk. destruct (decide (k ≤ mid)%nat); [apply Hafter|apply Hlate]; lia.
    + right; right. split; [|done].
      intros k Hk. destruct (decide (k ≤ mid)%nat).
      * by apply (walk_backward_none _ _ Hb).
      * apply Hlate. lia.
Qed.

(** C4, as the code has it.  The split point is the first index at or
    after the midpoint that holds a user message; failing that, the
    largest index from 1 to the midpoint that holds one (index 0 is never
    looked at); failing that, the midpoint.  When the old part is empty,
    [compact] returns the list as it is and calls nothing. *)
Theorem split_index_cases (msgs : list message) :
  let mid := (length msgs / 2)%nat in
  let i := split_index msgs in
  _split_messages msgs = (take i msgs, drop i msgs)
  ∧ ( ((mid ≤ i < length msgs)%nat
       ∧ user_at msgs i = true
       ∧ ∀ k, (mid ≤ k < i)%nat → user_at msgs k = false)
    ∨ ((∀ k, (mid ≤ k)%nat → user_at msgs k = false)
       ∧ (1 ≤ i < mid)%nat
       ∧ user_at msgs i = true
       ∧ ∀ k, (i < k)%nat → user_at msgs k = false)
    ∨ ((∀ k, (1 ≤ k)%nat → user_at msgs k = false) ∧ i = mid) )
  ∧ (∀ (Env : Type) chat format_for_summary model threshold (w : World Env),
       take i msgs = [] →
       compact chat format_for_summary msgs model threshold w = (Ok msgs, w)).
Proof.
  intros mid i. split_and!.
  - reflexivity.
  - exact (split_index_trichotomy msgs).
  - intros Env chat format_for_summary model threshold w Hold.
    by apply compact_empty_old.
Qed.

(** C4 as stated fails: with the only user message at index 0 the code
    splits at the midpoint, while searching backward from the midpoint
    would find index 0. *)
Lemma split_skips_index_zero :
  let msgs := [Demo.u "run ls"; Demo.a "one"; Demo.a "two"] in
  user_at msgs 0 = true
  ∧ split_index msgs = 1%nat
  ∧ Spec.split_index msgs = 0%nat
  ∧ split_index msgs ≠ Spec.split_index msgs.
Proof. vm_compute. split_and!; done. Qed.

Example split_on_user_boundary :
  split_index [Demo.u "u1"; Demo.a "a1"; Demo.a "a2"; Demo.a "a3"; Demo.u "u2"; Demo.a "a4"]
  = 4%nat.
Proof. reflexivity. Qed.

Example split_walks_backward :
  split_index [Demo.u "u1"; Demo.u "u2"; Demo.a "a1"; Demo.a "a2"; Demo.a "a3"] = 1%nat.
Proof. reflexivity. Qed.

(** ** The compactor: what it returns *)

Lemma string_length_app (a b : string) :
  String.length (a +:+ b) = (String.length a + String.length b)%nat.
Proof.
  induction a as [|c a IH]; [done|].
  change (S (String.length (a +:+ b)) = S (String.length a + String.length b)).
  by rewrite IH.
Qed.

Lemma join_length_app (sep : string) (l1 l2 : list string) :
  l1 ≠ [] → l2 ≠ [] →
  String.length (PyStr.join sep (l1 ++ l2))
  = (String.length (PyStr.join sep l1) + String.length sep
     + String.length (PyStr.join sep l2))%nat.
Proof.
  intros H1 H2. induction l1 as [|x l1 IH]; [done|].
  destruct l1 as [|y l1].
  - destruct l2 as [|z l2]; [done|]. cbn.
    rewrite !string_length_app. lia.
  - change (String.length (x +:+ sep +:+ PyStr.join sep ((y :: l1) ++ l2))
            = (String.length (x +:+ sep +:+ PyStr.join sep (y :: l1))
               + String.length sep + String.length (PyStr.join sep l2))%nat).
    rewrite !string_length_app, IH by done. lia.
Qed.

Lemma items_app (old recent : list message) :
  items (old ++ recent) = items old ++ items recent.
Proof. unfold items. by rewrite !map_app. Qed.

Lemma dumps_len_items (ms : list message) :
  dumps_len ms = Z.of_nat (String.length (PyStr.join ", " (items ms))) + 2.
Proof.
  unfold dumps_len, PyStr.len, Json.dumps_messages.
  change (Json.dumps (JList (map JDict ms)))
    with ("[" +:+ PyStr.join ", " (items ms) +:+ "]").
  rewrite !string_length_app. change (String.length "[") with 1%nat.
  change (String.length "]") with 1%nat. lia.
Qed.

Lemma dumps_len_app (old recent : list message) :
  old ≠ [] → recent ≠ [] →
  dumps_len (old ++ recent) = dumps_len old + dumps_len recent.
Proof.
  intros Ho Hr. rewrite !dumps_len_items, items_app, join_length_app.
  - change (String.length ", ") with 2%nat. lia.
  - by destruct old.
  - by destruct recent.
Qed.

Lemma split_index_lt (msgs : list message) :
  msgs ≠ [] → (split_index msgs < length msgs)%nat.
Proof.
  intros Hne.
  assert (Hmid : (length msgs / 2 < length msgs)%nat).
  { destruct msgs; [done|]. apply Nat.div_lt; simpl; lia. }
  destruct (split_index_trichotomy msgs) as [H|[H|H]];
    unfold found_forward, found_backward, fell_back in H; cbv zeta in H; lia.
Qed.

(** C3, as the code has it.  Below the threshold [compact] returns the
    list as it is and calls nothing.  At or above it, with a non-empty old
    half and an answer from the summariser, it returns the summary message
    followed by the recent tail as it was; the estimate drops whenever the
    text of the summary message is at least four characters shorter than
    the text of the old half. *)
Theorem compact_behaviour {Env : Type} chat format_for_summary
        (msgs : list message) (model : string) (threshold : Z) (w : World Env) :
  (estimate_tokens msgs < threshold →
   compact chat format_for_summary msgs model threshold w = (Ok msgs, w))
  ∧ (threshold ≤ estimate_tokens msgs →
     ∀ text r e',
       let old := take (split_index msgs) msgs in
       let recent := drop (split_index msgs) msgs in
       let s := summary_msg (length old) (str_or (content r) "(empty summary)") in
       old ≠ [] →
       format_for_summary old = Ok text →
       chat (summary_request model text) (env w) = (Ok r, e') →
       compact chat format_for_summary msgs model threshold w
       = (Ok (s :: recent),
          {| env := e'; files := files w;
             events := events w ++ [EvChat (summary_request model text) (Ok r)] |})
       ∧ (dumps_len [s] + 4 ≤ dumps_len old →
          estimate_tokens (s :: recent) < estimate_tokens msgs)).
Proof.
  split.
  - intros Hlt. unfold compact. apply Z.ltb_lt in Hlt. by rewrite Hlt.
  - intros Hge text r e' old recent s Hold Hfmt Hchat. split.
    + unfold compact, _split_messages. apply Z.ltb_ge in Hge. rewrite Hge.
      fold old recent. destruct old as [|m old'] eqn:Eold; [done|].
      unfold bind, lift, chat_create. rewrite Hfmt, Hchat. simpl. done.
    + intros Hshort.
      assert (Hmsgs : msgs ≠ []) by (intros ->; by destruct (split_index [])).
      assert (Hrecent : recent ≠ []).
      { unfold recent. intros H. apply (f_equal length) in H.
        rewrite length_drop in H. pose proof (split_index_lt msgs Hmsgs).
        simpl in H. lia. }
      assert (Hall : dumps_len msgs = dumps_len old + dumps_len recent).
      { rewrite <- dumps_len_app by done. unfold old, recent.
        by rewrite take_drop. }
      assert (Hnew : dumps_len (s :: recent) = dumps_len [s] + dumps_len recent).
      { by rewrite <- (dumps_len_app [s] recent). }
      unfold estimate_tokens. fold (dumps_len (s :: recent)) (dumps_len msgs).
      assert (dumps_len (s :: recent) + 4 ≤ dumps_len msgs) by lia.
      apply Z.lt_le_trans with ((dumps_len (s :: recent) + 1 * 4) / 4).
      * rewrite Z.div_add by lia. lia.
      * apply Z.div_le_mono; lia.
Qed.

(** C3 as stated fails: a short old half and the fixed heading of the
    summary message make the estimate grow. *)
Lemma compact_can_grow :
  let msgs := [Demo.u "a"; Demo.a "b"] in
  let chat := Demo.scripted [Ok (Demo.text_response "ok")] in
  let s := summary_msg 1 "ok" in
  1 ≤ estimate_tokens msgs
  ∧ take (split_index msgs) msgs = [Demo.u "a"]
  ∧ fst (compact chat Demo.render msgs "m" 1 Demo.world0) = Ok [s; Demo.a "b"]
  ∧ estimate_tokens msgs = 18
  ∧ estimate_tokens [s; Demo.a "b"] = 30
  ∧ ¬ (estimate_tokens [s; Demo.a "b"] < estimate_tokens msgs).
Proof. vm_compute. split_and!; try done. Qed.

(** ** The turn loop *)

Lemma tools_run_app (a b : list event) :
  tools_run (a ++ b) = tools_run a ++ tools_run b.
Proof. induction a as [|[] a IH]; simpl; by rewrite ?IH. Qed.

Lemma chat_results_app (a b : list event) :
  chat_results (a ++ b) = chat_results a ++ chat_results b.
Proof. induction a as [|[] a IH]; simpl; by rewrite ?IH. Qed.

Lemma appended_app (a b : list event) :
  appended (a ++ b) = appended a ++ appended b.
Proof. induction a as [|[] a IH]; simpl; by rewrite ?IH. Qed.

Section TurnFacts.

Context {Env : Type}.
Variable chat : Request → Env → outcome Response * Env.
Variable json_loads : string → option json.
Variables (model session_key : string).
Variable tool_registry : ToolRegistry Env.
Variable on_tool_use : OnToolUseCallback Env.

Implicit Types (w : World Env) (evs : list event) (r : Response).

Lemma world_eta w : {| env := env w; files := files w; events := events w |} = w.
Proof. by destruct w. Qed.

Lemma execute_total (nm : string) (tool_input : json) w :
  ∃ s e', execute tool_registry nm tool_input w
          = (Ok s, {| env := e'; files := files w; events := events w |}).
Proof.
  unfold execute. destruct (Dict.get nm tool_registry) as [tool|].
  - unfold try_except, bind, on_env, ret.
    destruct (handler tool tool_input (env w)) as [[s|e] e']; eauto.
  - eexists _, (env w). unfold ret. by rewrite world_eta.
Qed.

Lemma notify_world (nm : string) (tool_input : json) (result : string) w o w' :
  notify on_tool_use nm tool_input result w = (o, w') →
  files w' = files w
  ∧ ∃ evs, events w' = events w ++ evs ∧ Forall local_event evs ∧ tools_run evs = [].
Proof.
  unfold notify. destruct on_tool_use as [cb|].
  - unfold bind, on_env, log.
    destruct (cb nm tool_input result (env w)) as [[[]|e] e']; intros [= <- <-]; simpl.
    + split; [done|]. eexists; split_and!; [done| |done].
      repeat constructor.
    + split; [done|]. exists []. by rewrite app_nil_r.
  - intros [= <- <-]. split; [done|]. exists []. by rewrite app_nil_r.
Qed.

Lemma run_tools_spec (tcs : list ToolCall) (acc : list message) w o w' :
  run_tools json_loads tool_registry on_tool_use tcs acc w = (o, w') →
  files w' = files w
  ∧ ∃ evs, events w' = events w ++ evs
           ∧ Forall local_event evs
           ∧ match o with
             | Ok msgs =>
                 tools_run evs = map tc_name tcs
                 ∧ ∃ results, length results = length tcs
                              ∧ msgs = acc ++ result_msgs tcs results
             | Raise _ => True
             end.
Proof.
  revert acc w. induction tcs as [|tc tcs IH]; intros acc w; simpl.
  - intros [= <- <-]. split; [done|]. exists []. rewrite app_nil_r.
    split_and!; [done|done|done|]. exists []. by rewrite app_nil_r.
  - unfold bind at 1.
    destruct (execute_total (tc_name tc) (parse_arguments json_loads tc) w)
      as (s & e' & ->).
    unfold bind at 1. unfold log at 1. cbn [env files events].
    unfold bind at 1.
    destruct (notify on_tool_use (tc_name tc) (parse_arguments json_loads tc) s _)
      as [[[]|e] w1] eqn:Hn;
      apply notify_world in Hn as (Hf1 & evs1 & He1 & Hl1 & Ht1); cbn in Hf1, He1.
    + intros Hrun. apply IH in Hrun as (Hf2 & evs2 & He2 & Hl2 & Ho).
      split; [congruence|].
      exists (EvTool (tc_name tc) (parse_arguments json_loads tc) s :: evs1 ++ evs2).
      split_and!.
      * rewrite He2, He1. by rewrite <- !app_assoc.
      * constructor; [done|]. by apply Forall_app.
      * destruct o as [msgs|]; [|done].
        destruct Ho as (Ht2 & results & Hlen & ->). split.
        -- simpl. by rewrite tools_run_app, Ht1, Ht2.
        -- exists (s :: results). split; [simpl; by rewrite Hlen|].
           by rewrite <- app_assoc.
    + intros [= <- <-]. split; [done|].
      exists (EvTool (tc_name tc) (parse_arguments json_loads tc) s :: evs1).
      split_and!; [by rewrite He1, <- app_assoc | by constructor | done].
Qed.

Lemma bind_assoc {A B C : Type} (c : M Env A) (f : A → M Env B) (g : B → M Env C) w :
  bind (bind c f) g w = bind c (λ x, bind (f x) g) w.
Proof. unfold bind. by destruct (c w) as [[a|e] w']. Qed.

Lemma append_persist_then {B : Type} (m : message) (msgs : list message)
      (k : unit → M Env B) w :
  bind (append session_key m) (λ _, bind (persist_all session_key msgs) k) w
  = k tt (after_appends session_key w m msgs).
Proof.
  revert m w. induction msgs as [|m' msgs IH]; intros m w.
  - reflexivity.
  - simpl persist_all.
    transitivity
      (bind (append session_key m')
            (λ _, bind (persist_all session_key msgs) k)
            {| env := env w;
               files := <[_path session_key := session_log w session_key ++ [m]]> (files w);
               events := events w ++ [EvAppend (_path session_key) m] |}).
    { unfold bind at 1. unfold append at 1. cbn iota beta.
      by rewrite bind_assoc. }
    rewrite IH. f_equal. unfold after_appends, session_log. cbn [env files events].
    f_equal.
    + rewrite lookup_insert_eq. cbn. rewrite insert_insert_eq.
      by rewrite <- app_assoc.
    + by rewrite <- app_assoc.
Qed.

Lemma after_appends_log w (m : message) (msgs : list message) :
  session_log (after_appends session_key w m msgs) session_key
  = session_log w session_key ++ m :: msgs.
Proof. unfold session_log, after_appends. cbn. by rewrite lookup_insert_eq. Qed.

Lemma result_msgs_ids (tcs : list ToolCall) (results : list string) :
  length results = length tcs →
  map (Dict.get "tool_call_id") (result_msgs tcs results)
  = map (λ tc, Some (JStr (tc_id tc))) tcs
  ∧ Forall (λ m, get_is "role" "tool" m = true) (result_msgs tcs results)
  ∧ length (result_msgs tcs results) = length tcs.
Proof.
  revert results. induction tcs as [|tc tcs IH]; intros [|s results] Hlen;
    simpl in *; try done.
  destruct (IH results) as (H1 & H2 & H3); [lia|].
  split_and!; [by rewrite H1 | by constructor | by rewrite H3].
Qed.

Lemma turn_loop_chat_raise (n : nat) (tools : list json)
      (messages api_messages : list message) w (e : exn) (e1 : Env) :
  chat (turn_request model tools api_messages) (env w) = (Raise e, e1) →
  turn_loop chat json_loads model session_key tool_registry on_tool_use
            (S n) tools messages api_messages w
  = (Raise e,
     {| env := e1; files := files w;
        events := events w
                  ++ [EvChat (turn_request model tools api_messages) (Raise e)] |}).
Proof.
  intros Hchat. simpl turn_loop. unfold bind at 1. unfold chat_create.
  by rewrite Hchat.
Qed.

Lemma turn_loop_final_branch (n : nat) (tools : list json)
      (messages api_messages : list message) w r (e1 : Env) :
  chat (turn_request model tools api_messages) (env w) = (Ok r, e1) →
  has_tool_calls r = false →
  turn_loop chat json_loads model session_key tool_registry on_tool_use
            (S n) tools messages api_messages w
  = (Ok (str_or (content r) ""),
     {| env := e1;
        files := <[_path session_key :=
                     session_log w session_key ++ [_serialize_assistant_message r]]>
                 (files w);
        events := events w
                  ++ [EvChat (turn_request model tools api_messages) (Ok r);
                      EvAppend (_path session_key) (_serialize_assistant_message r)] |}).
Proof.
  intros Hchat Htc. simpl turn_loop. unfold bind at 1. unfold chat_create.
  rewrite Hchat. cbn iota beta. rewrite Htc. cbn [negb].
  unfold bind, append, ret, session_log. cbn [env files events].
  by rewrite <- app_assoc.
Qed.

Lemma turn_loop_tool_branch (n : nat) (tools : list json)
      (messages api_messages : list message) w r (e1 : Env) :
  chat (turn_request model tools api_messages) (env w) = (Ok r, e1) →
  has_tool_calls r = true →
  turn_loop chat json_loads model session_key tool_registry on_tool_use
            (S n) tools messages api_messages w
  = bind (run_tools json_loads tool_registry on_tool_use (tool_calls r) [])
         (λ tool_result_msgs,
            bind (append session_key (_serialize_assistant_message r))
                 (λ _, bind (persist_all session_key tool_result_msgs)
                         (λ _, turn_loop chat json_loads model session_key
                                 tool_registry on_tool_use n tools
                                 (messages ++ _serialize_assistant_message r
                                           :: tool_result_msgs)
                                 (api_messages ++ _serialize_assistant_message r
                                               :: tool_result_msgs))))
         {| env := e1; files := files w;
            events := events w
                      ++ [EvChat (turn_request model tools api_messages) (Ok r)] |}.
Proof.
  intros Hchat Htc. simpl turn_loop. unfold bind at 1. unfold chat_create.
  rewrite Hchat. cbn iota beta. rewrite Htc. reflexivity.
Qed.

Lemma local_events_silent evs :
  Forall local_event evs → chat_results evs = [] ∧ appended evs = [].
Proof.
  induction 1 as [|ev evs [Hw Hc] _ [IH1 IH2]]; [done|].
  destruct ev; simpl in *; done.
Qed.

Lemma turn_loop_spec (n : nat) (tools : list json)
      (messages api_messages : list message) w res w' :
  turn_loop chat json_loads model session_key tool_registry on_tool_use
            n tools messages api_messages w = (res, w') →
  ∃ evs, events w' = events w ++ evs
         ∧ (length (chat_results evs) ≤ n)%nat
         ∧ session_log w' session_key = session_log w session_key ++ appended evs
         ∧ match res with
           | Ok s => budget_exhausted n evs s ∨ ended_on_final evs s
           | Raise _ => True
           end.
Proof.
  revert messages api_messages w.
  induction n as [|n IH]; intros messages api_messages w.
  - intros [= <- <-]. exists []. rewrite !app_nil_r.
    split_and!; [done|done|done|]. left. by unfold budget_exhausted.
  - destruct (chat (turn_request model tools api_messages) (env w))
      as [[r|e] e1] eqn:Hchat.
    + destruct (has_tool_calls r) eqn:Htc.
      * rewrite (turn_loop_tool_branch _ _ _ _ _ _ _ Hchat Htc).
        unfold bind at 1.
        destruct (run_tools json_loads tool_registry on_tool_use (tool_calls r) [] _)
          as [[tool_msgs|e] w2] eqn:Hrun;
          apply run_tools_spec in Hrun as (Hfiles & evs1 & Hevs1 & Hlocal & Ho);
          cbn [env files events] in Hfiles, Hevs1;
          destruct (local_events_silent _ Hlocal) as [Hc1 Ha1].
        -- rewrite append_persist_then. intros Hrest.
           apply IH in Hrest as (evs2 & Hevs2 & Hlen2 & Hlog2 & Hres).
           set (req := turn_request model tools api_messages) in *.
           set (asst := _serialize_assistant_message r) in *.
           exists (EvChat req (Ok r) :: evs1
                   ++ EvAppend (_path session_key) asst
                   :: map (EvAppend (_path session_key)) tool_msgs ++ evs2).
           assert (Hmap_c : ∀ l : list message,
                      chat_results (map (EvAppend (_path session_key)) l) = []).
           { intros l. by induction l. }
           assert (Hmap_a : ∀ l : list message,
                      appended (map (EvAppend (_path session_key)) l) = l).
           { intros l. induction l as [|x l IHl]; [done|]. simpl. by rewrite IHl. }
           assert (Hchats : chat_results
                              (EvChat req (Ok r) :: evs1
                               ++ EvAppend (_path session_key) asst
                               :: map (EvAppend (_path session_key)) tool_msgs ++ evs2)
                            = Ok r :: chat_results evs2).
           { simpl. rewrite chat_results_app, Hc1. simpl.
             by rewrite chat_results_app, Hmap_c. }
           assert (Happ : appended
                            (EvChat req (Ok r) :: evs1
                             ++ EvAppend (_path session_key) asst
                             :: map (EvAppend (_path session_key)) tool_msgs ++ evs2)
                          = asst :: tool_msgs ++ appended evs2).
           { simpl. rewrite appended_app, Ha1. simpl.
             by rewrite appended_app, Hmap_a. }
           rewrite Hchats, Happ. split_and!.
           ++ rewrite Hevs2. unfold after_appends. cbn [events].
              rewrite Hevs1. rewrite <- !app_assoc. reflexivity.
           ++ simpl. lia.
           ++ rewrite Hlog2, after_appends_log. unfold session_log.
              rewrite Hfiles. by rewrite <- app_assoc.
           ++ destruct res as [s|]; [|done].
              destruct Hres as [(Hn & Hall & ->)|(earlier & r' & Hc & Hall & Hf & -> & Hlast)].
              ** left. unfold budget_exhausted. rewrite Hchats.
                 split_and!; [simpl; by rewrite Hn | simpl; by rewrite Htc | done].
              ** right. unfold ended_on_final. rewrite Hchats, Happ.
                 exists (Ok r :: earlier), r'. rewrite Hc.
                 split_and!; [done | simpl; by rewrite Htc | done | done |].
                 rewrite app_comm_cons, last_app, Hlast. done.
        -- intros [= <- <-].
           exists (EvChat (turn_request model tools api_messages) (Ok r) :: evs1).
           split_and!.
           ++ rewrite Hevs1. by rewrite <- app_assoc.
           ++ simpl. rewrite Hc1. simpl. lia.
           ++ simpl. rewrite Ha1, app_nil_r. unfold session_log. by rewrite Hfiles.
           ++ done.
      * rewrite (turn_loop_final_branch _ _ _ _ _ _ _ Hchat Htc).
        intros [= <- <-]. eexists. split_and!; [done|simpl; lia| |].
        -- unfold session_log at 1. cbn [files]. rewrite lookup_insert_eq. done.
        -- right. unfold ended_on_final. exists [], r. split_and!; done.
    + rewrite (turn_loop_chat_raise _ _ _ _ _ _ _ Hchat).
      intros [= <- <-]. eexists. split_and!; [done|simpl; lia| |done].
      simpl. by rewrite app_nil_r.
Qed.

End TurnFacts.

(** ** A whole turn *)

Section RunFacts.

Context {Env : Type}.
Variable chat : Request → Env → outcome Response * Env.
Variable json_loads : string → option json.
Variable format_for_summary : list message → outcome string.
Variables (model system_prompt session_key : string).
Variable tool_registry : ToolRegistry Env.
Variable on_tool_use : OnToolUseCallback Env.

Implicit Types (w : World Env) (evs : list event) (r : Response).

Lemma run_after_prepare (user_text : string) (max_turns threshold : Z)
      w (msgs : list message) w1 :
  prepare_history chat format_for_summary model session_key threshold w = (Ok msgs, w1) →
  run_agent_turn chat json_loads format_for_summary model system_prompt session_key
                 tool_registry on_tool_use user_text max_turns threshold w
  = turn_loop chat json_loads model session_key tool_registry on_tool_use
              (Z.to_nat max_turns) (get_schemas tool_registry)
              (msgs ++ [user_message user_text])
              ([("role", JStr "system"); ("content", JStr system_prompt)]
                 :: msgs ++ [user_message user_text])
              (with_user session_key w1 user_text).
Proof.
  intros Hprep. unfold run_agent_turn. unfold bind at 1. rewrite Hprep.
  reflexivity.
Qed.

Lemma run_prepare_raises (user_text : string) (max_turns threshold : Z)
      w (e : exn) w1 :
  prepare_history chat format_for_summary model session_key threshold w = (Raise e, w1) →
  run_agent_turn chat json_loads format_for_summary model system_prompt session_key
                 tool_registry on_tool_use user_text max_turns threshold w
  = (Raise e, w1).
Proof.
  intros Hprep. unfold run_agent_turn. unfold bind at 1. by rewrite Hprep.
Qed.

Lemma prepare_below_threshold (threshold : Z) w :
  estimate_tokens (_sanitize_loaded_messages (session_log w session_key)) < threshold →
  prepare_history chat format_for_summary model session_key threshold w
  = (Ok (_sanitize_loaded_messages (session_log w session_key)), w).
Proof.
  intros Hlt. unfold prepare_history, bind, load, ret.
  fold (session_log w session_key).
  destruct (Z.geb_spec (estimate_tokens
                          (_sanitize_loaded_messages (session_log w session_key)))
                       threshold); [lia|done].
Qed.

Lemma run_events (user_text : string) (max_turns threshold : Z)
      w (msgs : list message) w1 res w' :
  prepare_history chat format_for_summary model session_key threshold w = (Ok msgs, w1) →
  run_agent_turn chat json_loads format_for_summary model system_prompt session_key
                 tool_registry on_tool_use user_text max_turns threshold w
  = (res, w') →
  ∃ evs, events w' = events w1 ++ EvAppend (_path session_key) (user_message user_text) :: evs
         ∧ (length (chat_results evs) ≤ Z.to_nat max_turns)%nat
         ∧ session_log w' session_key
           = session_log w1 session_key ++ user_message user_text :: appended evs
         ∧ match res with
           | Ok s => budget_exhausted (Z.to_nat max_turns) evs s ∨ ended_on_final evs s
           | Raise _ => True
           end.
Proof.
  intros Hprep. rewrite (run_after_prepare _ _ _ _ _ _ Hprep). intros Hloop.
  apply turn_loop_spec in Hloop as (evs & Hevs & Hlen & Hlog & Hres).
  exists evs. split_and!; [|done| |done].
  - rewrite Hevs. unfold with_user. cbn [events]. by rewrite <- app_assoc.
  - rewrite Hlog. unfold with_user, session_log at 1. cbn [files].
    rewrite lookup_insert_eq. cbn. by rewrite <- app_assoc.
Qed.

Lemma forallb_snoc_false (earlier : list (outcome Response)) r :
  has_tool_calls r = false →
  forallb tool_requesting (earlier ++ [Ok r]) = false.
Proof.
  intros Hr. rewrite forallb_app. simpl. rewrite Hr. by rewrite andb_false_r.
Qed.

(** C7, as the code has it.  After the user message is appended, the loop
    makes at most [max_turns] LLM calls.  When the turn returns a string,
    either every one of exactly [max_turns] calls was tool-requesting and
    the string is the sentinel, or the last call gave a final response, all
    earlier ones were tool-requesting, and the string is that response's
    content (the empty string for none).  So the sentinel comes back exactly
    when the budget was exhausted in this way or the model's own final text
    is the sentinel.  With [max_turns] at or below zero the sentinel comes
    back with no LLM call and nothing but the user message written. *)
Theorem budget_sentinel (user_text : string) (max_turns threshold : Z)
        w (msgs : list message) w1 res w' :
  prepare_history chat format_for_summary model session_key threshold w = (Ok msgs, w1) →
  run_agent_turn chat json_loads format_for_summary model system_prompt session_key
                 tool_registry on_tool_use user_text max_turns threshold w
  = (res, w') →
  ∃ evs,
    events w' = events w1 ++ EvAppend (_path session_key) (user_message user_text) :: evs
    ∧ (length (chat_results evs) ≤ Z.to_nat max_turns)%nat
    ∧ (∀ s, res = Ok s →
            budget_exhausted (Z.to_nat max_turns) evs s ∨ ended_on_final evs s)
    ∧ (∀ s, res = Ok s →
            (s = sentinel ↔
             (length (chat_results evs) = Z.to_nat max_turns
              ∧ forallb tool_requesting (chat_results evs) = true)
             ∨ (∃ earlier r, chat_results evs = earlier ++ [Ok r]
                             ∧ has_tool_calls r = false
                             ∧ str_or (content r) "" = sentinel)))
    ∧ (max_turns ≤ 0 →
       res = Ok sentinel ∧ evs = []
       ∧ session_log w' session_key
         = session_log w1 session_key ++ [user_message user_text]).
Proof.
  intros Hprep Hrun.
  destruct (run_events _ _ _ _ _ _ _ _ Hprep Hrun) as (evs & Hevs & Hlen & Hlog & Hres).
  exists evs. split_and!; [done|done| | |].
  - intros s ->. exact Hres.
  - intros s ->. split.
    + intros ->. destruct Hres as [(Hn & Hall & _)|(earlier & r & Hc & _ & Hf & Hs & _)].
      * by left.
      * right. by exists earlier, r.
    + intros [[Hn Hall]|(earlier & r & Hc & Hf & Hs)].
      * destruct Hres as [(_ & _ & Hs)|(earlier & r & Hc & _ & Hf & _)]; [done|].
        rewrite Hc, forallb_snoc_false in Hall; done.
      * destruct Hres as [(_ & Hall & _)|(earlier' & r' & Hc' & _ & _ & Hs' & _)].
        -- rewrite Hc, forallb_snoc_false in Hall; done.
        -- rewrite Hc in Hc'. apply app_inj_tail in Hc' as [_ [= ->]]. congruence.
  - intros Hzero.
    rewrite (run_after_prepare _ _ _ _ _ _ Hprep) in Hrun.
    replace (Z.to_nat max_turns) with 0%nat in * by lia.
    simpl in Hrun. injection Hrun as <- <-.
    unfold with_user in Hevs. cbn [events] in Hevs.
    apply app_inv_head in Hevs. injection Hevs as <-.
    split_and!; [done|done|]. by rewrite Hlog.
Qed.

(** C9, as the code has it.  Once the history is prepared (loaded,
    sanitised and, at the threshold, compacted) without an exception, the
    user message is the next thing written, before any call of the loop,
    and it stays in the session file however the turn ends.  Below the
    threshold the preparation calls nothing and cannot fail.  When the
    summariser call of the compaction raises, the turn raises with it and
    the user message is not written. *)
Theorem user_message_persisted (user_text : string) (max_turns threshold : Z) w :
  (∀ msgs w1 res w',
      prepare_history chat format_for_summary model session_key threshold w
      = (Ok msgs, w1) →
      run_agent_turn chat json_loads format_for_summary model system_prompt
                     session_key tool_registry on_tool_use user_text max_turns
                     threshold w = (res, w') →
      ∃ evs, events w'
             = events w1 ++ EvAppend (_path session_key) (user_message user_text) :: evs
             ∧ session_log w' session_key
               = session_log w1 session_key ++ user_message user_text :: appended evs)
  ∧ (estimate_tokens (_sanitize_loaded_messages (session_log w session_key)) < threshold →
     prepare_history chat format_for_summary model session_key threshold w
     = (Ok (_sanitize_loaded_messages (session_log w session_key)), w))
  ∧ (∀ e w1,
       prepare_history chat format_for_summary model session_key threshold w
       = (Raise e, w1) →
       run_agent_turn chat json_loads format_for_summary model system_prompt
                      session_key tool_registry on_tool_use user_text max_turns
                      threshold w = (Raise e, w1)).
Proof.
  split_and!.
  - intros msgs w1 res w' Hprep Hrun.
    destruct (run_events _ _ _ _ _ _ _ _ Hprep Hrun) as (evs & Hevs & _ & Hlog & _).
    by exists evs.
  - apply prepare_below_threshold.
  - intros e w1. apply run_prepare_raises.
Qed.

End RunFacts.

(** ** The scenarios of the specification, run *)

Example parallel_tools_log :
  fst (demo_turn parallel_client "go" 20 100000 Demo.world0) = Ok "both"
  ∧ session_log (snd (demo_turn parallel_client "go" 20 100000 Demo.world0)) "k"
    = [Demo.u "go";
       _serialize_assistant_message two_calls;
       tool_result_msg (Demo.call "c1" "echo") "echoed";
       tool_result_msg (Demo.call "c2" "boom") "Error executing boom: boom";
       Demo.a "both"].
Proof. vm_compute. done. Qed.

Lemma budget_sentinel_witness :
  let run := demo_turn looping_client "go" 3 100000 Demo.world0 in
  prepare_history looping_client Demo.render "m" "k" 100000 Demo.world0
  = (Ok [], Demo.world0)
  ∧ run = (Ok sentinel, snd run)
  ∧ length (chat_results (events (snd run))) = 3%nat
  ∧ ∃ evs,
      events (snd run)
      = events Demo.world0 ++ EvAppend (_path "k") (user_message "go") :: evs
      ∧ (length (chat_results evs) ≤ Z.to_nat 3)%nat
      ∧ (budget_exhausted (Z.to_nat 3) evs sentinel ∨ ended_on_final evs sentinel).
Proof.
  intros run.
  assert (Hprep : prepare_history looping_client Demo.render "m" "k" 100000 Demo.world0
                  = (Ok [], Demo.world0)).
  { reflexivity. }
  assert (Hrun : run = (Ok sentinel, snd run)).
  { apply injective_projections; [vm_compute; reflexivity | reflexivity]. }
  split_and!; [exact Hprep | exact Hrun | vm_compute; reflexivity |].
  destruct (budget_sentinel looping_client Demo.loads Demo.render "m"
              "You are Jarvis." "k" Demo.registry None "go" 3 100000
              Demo.world0 [] Demo.world0 (Ok sentinel) (snd run) Hprep Hrun)
    as (evs & Hevs & Hlen & Hcase & _).
  exists evs. split_and!; [exact Hevs | exact Hlen | exact (Hcase sentinel eq_refl)].
Defined.

(** C7 as stated fails: a final answer that spells the sentinel comes back
    as the sentinel after a single call that requested no tool. *)
Lemma sentinel_without_exhaustion :
  let chat := Demo.scripted [Ok (Demo.text_response "(max tool turns reached)")] in
  let run := demo_turn chat "hi" 5 100000 Demo.world0 in
  fst run = Ok sentinel
  ∧ chat_results (events (snd run))
    = [Ok (Demo.text_response "(max tool turns reached)")]
  ∧ ¬ (length (chat_results (events (snd run))) = Z.to_nat 5
       ∧ forallb tool_requesting (chat_results (events (snd run))) = true).
Proof.
  vm_compute. split_and!; [reflexivity | reflexivity |]. intros [[=] _].
Qed.

(** A response that lists tool calls under another finish reason is
    final: it is written with its [tool_calls] and no tool is run. *)
Example final_response_with_tool_calls :
  let r := {| content := Some "done"; tool_calls := [Demo.call "c1" "echo"];
              finish_reason := "stop" |} in
  let run := demo_turn (Demo.scripted [Ok r]) "go" 20 100000 Demo.world0 in
  has_tool_calls r = false
  ∧ fst run = Ok "done"
  ∧ tools_run (events (snd run)) = []
  ∧ session_log (snd run) "k" = [Demo.u "go"; _serialize_assistant_message r].
Proof. vm_compute. done. Qed.

Example max_turns_zero :
  let run := demo_turn looping_client "go" 0 100000 Demo.world0 in
  fst run = Ok sentinel
  ∧ chat_results (events (snd run)) = []
  ∧ session_log (snd run) "k" = [Demo.u "go"].
Proof. vm_compute. done. Qed.

(** C9 as stated fails: at the threshold the summariser is called before
    the user message is written, and when that call raises the turn ends
    with the session file as it was. *)
Lemma user_message_lost_when_summariser_fails :
  let run := demo_turn (Demo.scripted []) "hi" 20 10 seeded in
  10 ≤ estimate_tokens (session_log seeded "k")
  ∧ fst run = Raise (PyExc "connection refused")
  ∧ events (snd run)
    = [EvChat (summary_request "m" "User: run ls") (Raise (PyExc "connection refused"))]
  ∧ session_log (snd run) "k" = [Demo.u "run ls"; Demo.a "done"]
  ∧ ¬ In (user_message "hi") (session_log (snd run) "k").
Proof.
  vm_compute. split_and!; try reflexivity.
  - intros [=].
  - intros [[=]|[[=]|[]]].
Qed.

Example user_message_kept_when_loop_call_fails :
  let run := demo_turn (Demo.scripted []) "hi" 20 100000 seeded in
  fst run = Raise (PyExc "connection refused")
  ∧ session_log (snd run) "k" = [Demo.u "run ls"; Demo.a "done"; Demo.u "hi"].
Proof. vm_compute. done. Qed.

(** * Further properties *)

(** ** The session store *)

Lemma list_ascii_of_string_app (a b : string) :
  list_ascii_of_string (a +:+ b) = list_ascii_of_string a ++ list_ascii_of_string b.
Proof.
  induction a as [|c a IH]; [done|].
  change (c :: list_ascii_of_string (a +:+ b)
          = c :: list_ascii_of_string a ++ list_ascii_of_string b).
  by rewrite IH.
Qed.

Lemma string_app_inv_tail (a b t : string) : a +:+ t = b +:+ t → a = b.
Proof.
  intros H. apply (f_equal list_ascii_of_string) in H.
  rewrite !list_ascii_of_string_app in H. apply app_inv_tail in H.
  apply (f_equal string_of_list_ascii) in H.
  by rewrite !string_of_list_ascii_of_string in H.
Qed.

Lemma sanitize_char_spec (c : ascii) :
  sanitize_char c = if filename_char c then c else "_"%char.
Proof. reflexivity. Qed.

Lemma sanitize_char_filename (c : ascii) : filename_char (sanitize_char c) = true.
Proof. rewrite sanitize_char_spec. by destruct (filename_char c) eqn:E. Qed.

Lemma sanitize_char_idem (c : ascii) : sanitize_char (sanitize_char c) = sanitize_char c.
Proof.
  rewrite (sanitize_char_spec (sanitize_char c)).
  by rewrite sanitize_char_filename.
Qed.

Lemma path_eq_iff (k1 k2 : string) : _path k1 = _path k2 ↔ sanitize_key k1 = sanitize_key k2.
Proof.
  unfold _path. split; [apply string_app_inv_tail | by intros ->].
Qed.

(** X2. Two keys name the same session exactly when they have the same
    sanitised form.  In that case what is appended, saved or deleted
    under one is seen under the other; otherwise none of the three
    changes the other's log.  Sanitising twice changes nothing. *)
Theorem keys_share_log_iff_same_filename {Env : Type} (k1 k2 : string)
        (m : message) (ms : list message) (w : World Env) :
  (sanitize_key k1 = sanitize_key k2 →
   session_log (snd (append k1 m w)) k2 = session_log w k2 ++ [m]
   ∧ session_log (snd (save k1 ms w)) k2 = ms
   ∧ session_log (session_delete k1 w) k2 = [])
  ∧ (sanitize_key k1 ≠ sanitize_key k2 →
     session_log (snd (append k1 m w)) k2 = session_log w k2
     ∧ session_log (snd (save k1 ms w)) k2 = session_log w k2
     ∧ session_log (session_delete k1 w) k2 = session_log w k2)
  ∧ sanitize_key (sanitize_key k1) = sanitize_key k1.
Proof.
  split_and!.
  - intros Heq. apply path_eq_iff in Heq.
    unfold session_log, append, save, session_delete. cbn [snd files].
    rewrite Heq. by rewrite !lookup_insert_eq, lookup_delete_eq.
  - intros Hne. rewrite <- path_eq_iff in Hne.
    unfold session_log, append, save, session_delete. cbn [snd files].
    by rewrite !lookup_insert_ne, lookup_delete_ne.
  - induction k1 as [|c k IH]; [done|]. simpl.
    by rewrite IH, sanitize_char_idem.
Qed.

(** X3. A sanitised key has the length of the key and holds only letters,
    digits, the underscore and the hyphen; a key made of such characters is
    its own file name. *)
Theorem sanitize_key_filename (key : string) :
  String.length (sanitize_key key) = String.length key
  ∧ string_forallb filename_char (sanitize_key key) = true
  ∧ (string_forallb filename_char key = true → sanitize_key key = key).
Proof.
  induction key as [|c k (IH1 & IH2 & IH3)]; [done|].
  split_and!.
  - simpl. by rewrite IH1.
  - simpl. by rewrite sanitize_char_filename, IH2.
  - simpl. intros [Hc Hk]%andb_prop. rewrite (IH3 Hk). f_equal.
    by rewrite sanitize_char_spec, Hc.
Qed.

Example colon_and_underscore_collide :
  sanitize_key "agent:main:repl:u1" = sanitize_key "agent_main:repl_u1".
Proof. reflexivity. Qed.

(** ** The tool registry, continued *)

Lemma dict_set_fresh {V : Type} (k : string) (v : V) (d : list (string * V)) :
  Dict.get k d = None → Dict.set k v d = d ++ [(k, v)].
Proof.
  induction d as [|[k' v'] d IH]; simpl; [done|].
  destruct (String.eqb k k'); [done|]. intros H. by rewrite IH.
Qed.

Lemma dict_get_none_keys {V : Type} (k : string) (d : list (string * V)) :
  Dict.get k d = None ↔ k ∉ map fst d.
Proof.
  induction d as [|[k' v'] d IH]; simpl.
  - split; [intros _; apply not_elem_of_nil | done].
  - destruct (String.eqb_spec k k') as [->|Hne].
    + split; [done|]. intros H. exfalso. apply H. by left.
    + rewrite IH. rewrite not_elem_of_cons. tauto.
Qed.

Lemma dict_get_app_fresh {V : Type} (k k0 : string) (v : V) (d : list (string * V)) :
  Dict.get k0 (d ++ [(k, v)])
  = match Dict.get k0 d with
    | Some x => Some x
    | None => if String.eqb k0 k then Some v else None
    end.
Proof.
  induction d as [|[k' v'] d IH]; simpl; [done|].
  by destruct (String.eqb k0 k').
Qed.

Section RegistryFacts.

Context {Env : Type}.
Implicit Types (reg : ToolRegistry Env) (tool : Tool Env) (w : World Env).

Lemma register_cases tool reg :
  match register tool reg with
  | Ok reg' => Dict.get (name tool) reg = None ∧ reg' = reg ++ [(name tool, tool)]
  | Raise e => is_Some (Dict.get (name tool) reg)
               ∧ e = PyExc ("Tool already registered: " +:+ name tool)
  end.
Proof.
  unfold register. destruct (Dict.get (name tool) reg) eqn:Hget.
  - split; [by eexists|done].
  - split; [done|]. by apply dict_set_fresh.
Qed.

(** X5. Registering a tool under a free name puts it last, keeps every
    earlier tool and schema, and sends [execute] of that name to the new
    handler; under a name already taken it raises [ValueError]. *)
Theorem register_then_execute tool reg :
  match register tool reg with
  | Ok reg' =>
      Dict.get (name tool) reg = None
      ∧ get_schemas reg' = get_schemas reg ++ [schema_of tool]
      ∧ (∀ nm, nm ≠ name tool → Dict.get nm reg' = Dict.get nm reg)
      ∧ (∀ nm tool_input w, nm ≠ name tool →
           execute reg' nm tool_input w = execute reg nm tool_input w)
      ∧ (∀ tool_input w,
           execute reg' (name tool) tool_input w
           = execute [(name tool, tool)] (name tool) tool_input w)
  | Raise e =>
      is_Some (Dict.get (name tool) reg)
      ∧ e = PyExc ("Tool already registered: " +:+ name tool)
  end.
Proof.
  pose proof (register_cases tool reg) as H.
  destruct (register tool reg) as [reg'|e]; [|exact H].
  destruct H as [Hfree ->].
  assert (Hother : ∀ nm, nm ≠ name tool →
            Dict.get nm (reg ++ [(name tool, tool)]) = Dict.get nm reg).
  { intros nm Hne. rewrite dict_get_app_fresh.
    destruct (Dict.get nm reg); [done|].
    apply String.eqb_neq in Hne. by rewrite Hne. }
  split_and!.
  - done.
  - unfold get_schemas. by rewrite map_app.
  - exact Hother.
  - intros nm tool_input w Hne. unfold execute. by rewrite Hother.
  - intros tool_input w. unfold execute. rewrite dict_get_app_fresh, Hfree.
    simpl. by rewrite String.eqb_refl.
Qed.

Lemma register_all_names (tools : list (Tool Env)) reg reg' :
  register_all tools reg = Ok reg' →
  map fst reg' = map fst reg ++ map name tools
  ∧ reg' = reg ++ map (λ tool, (name tool, tool)) tools
  ∧ (NoDup (map fst reg) → NoDup (map fst reg')).
Proof.
  revert reg. induction tools as [|tool tools IH]; intros reg; simpl.
  - intros [= ->]. by rewrite !app_nil_r.
  - pose proof (register_cases tool reg) as H.
    destruct (register tool reg) as [reg1|e]; [|done].
    destruct H as [Hfree Hreg1]. intros Hall.
    apply IH in Hall as (Hnames & Heq & Hnodup).
    assert (Hkeys : map fst reg1 = map fst reg ++ [name tool]).
    { by rewrite Hreg1, map_app. }
    split_and!.
    + by rewrite Hnames, Hkeys, <- app_assoc.
    + by rewrite Heq, Hreg1, <- app_assoc.
    + intros Hnd. apply Hnodup. rewrite Hkeys.
      apply NoDup_app. split_and!; [done| |].
      * intros x Hx [->|[]%elem_of_nil]%elem_of_cons.
        by apply dict_get_none_keys in Hfree.
      * apply NoDup_singleton.
Qed.

(** X6. Registering a list of tools from an empty registry succeeds
    exactly when their names are distinct; the registry then lists them in
    the order given, and [execute] of a name reaches the tool of that
    name. *)
Theorem register_all_distinct (tools : list (Tool Env)) :
  (NoDup (map name tools) ↔ ∃ reg, register_all tools [] = Ok reg)
  ∧ (∀ reg, register_all tools [] = Ok reg →
            map fst reg = map name tools
            ∧ get_schemas reg = map schema_of tools
            ∧ ∀ tool, tool ∈ tools → Dict.get (name tool) reg = Some tool).
Proof.
  assert (Hfwd : ∀ (tools : list (Tool Env)) reg,
             NoDup (map fst reg ++ map name tools) →
             ∃ reg', register_all tools reg = Ok reg').
  { clear tools. induction tools as [|tool tools IH]; intros reg Hnd; simpl.
    - by eexists.
    - pose proof (register_cases tool reg) as H.
      destruct (register tool reg) as [reg1|e].
      + destruct H as [_ ->]. apply IH.
        rewrite map_app. simpl. by rewrite <- app_assoc.
      + destruct H as [[x Hx] _]. exfalso.
        apply NoDup_app in Hnd as (_ & Hdisj & _).
        apply (Hdisj (name tool)); [|by left].
        destruct (decide (name tool ∈ map fst reg)) as [Hin|Hout]; [done|].
        apply dict_get_none_keys in Hout. by rewrite Hx in Hout. }
  split.
  - split.
    + intros Hnd. by apply (Hfwd tools []).
    + intros [reg Hreg]. apply register_all_names in Hreg as (Hnames & _ & Hnd).
      simpl in Hnames. rewrite <- Hnames. apply Hnd. constructor.
  - intros reg Hreg.
    apply register_all_names in Hreg as (Hnames & -> & Hnd).
    simpl in *. split_and!; [done| |].
    + unfold get_schemas. by rewrite map_map.
    + intros tool Hin. specialize (Hnd (NoDup_nil_2)).
      rewrite Hnames in Hnd. clear Hnames.
      induction tools as [|t tools IH]; [by apply elem_of_nil in Hin|].
      simpl in *. apply NoDup_cons in Hnd as [Hfresh Hnd].
      apply elem_of_cons in Hin as [->|Hin].
      * by rewrite String.eqb_refl.
      * destruct (String.eqb_spec (name tool) (name t)) as [Heq|Hne].
        -- exfalso. apply Hfresh. rewrite <- Heq.
           by apply (list_elem_of_fmap_2 name).
        -- by apply IH.
Qed.

End RegistryFacts.

Example demo_registry_built :
  register_all [Demo.echo; Demo.boom] [] = Ok Demo.registry
  ∧ register_all [Demo.echo; Demo.boom; Demo.echo] []
    = Raise (PyExc "Tool already registered: echo").
Proof. split; reflexivity. Qed.

(** ** Words of a command line *)

Lemma string_app_nil_r (s : string) : s +:+ "" = s.
Proof.
  induction s as [|c s IH]; [done|].
  change (String c (s +:+ "") = String c s). by rewrite IH.
Qed.

Lemma string_app_cons (c : ascii) (s t : string) :
  String c s +:+ t = String c (s +:+ t).
Proof. reflexivity. Qed.

Lemma rev_app_rev_app (a b c : string) :
  String.rev_app (String.rev_app a b) c = String.rev_app b (a +:+ c).
Proof.
  revert b c. induction a as [|x a IH]; intros b c; [done|].
  cbn [String.rev_app]. rewrite IH. by rewrite string_app_cons.
Qed.

Lemma rstrip_cons_nonspace (c : ascii) (s : string) :
  PyStr.isspace c = false →
  PyStr.rstrip (String c s) = String c (PyStr.rstrip s).
Proof. intros Hc. cbn [PyStr.rstrip]. rewrite Hc. by destruct (PyStr.rstrip s). Qed.

Lemma rstrip_app_no_space (tok rest : string) :
  no_space tok = true →
  PyStr.rstrip (tok +:+ rest) = tok +:+ PyStr.rstrip rest.
Proof.
  induction tok as [|c tok IH]; [done|]. cbn [no_space string_forallb].
  intros [Hc Htok]%andb_true_iff. apply negb_true_iff in Hc.
  rewrite !string_app_cons, rstrip_cons_nonspace by done.
  by rewrite IH.
Qed.

Lemma split_go_no_space (tok rest acc : string) :
  no_space tok = true →
  PyStr.split_go (Some acc) (tok +:+ rest)
  = PyStr.split_go (Some (String.rev_app tok acc)) rest.
Proof.
  revert acc. induction tok as [|c tok IH]; intros acc; [done|].
  cbn [no_space string_forallb].
  intros [Hc Htok]%andb_true_iff. apply negb_true_iff in Hc.
  rewrite string_app_cons. cbn [PyStr.split_go]. rewrite Hc.
  cbn [default]. by rewrite IH.
Qed.

(** The first word of [tok] followed by a space and anything is [tok]. *)
Lemma first_word (tok rest : string) :
  tok ≠ "" → no_space tok = true →
  ∃ more, PyStr.split (PyStr.strip (tok +:+ " " +:+ rest)) = tok :: more.
Proof.
  intros Hne Htok. destruct tok as [|c tok]; [done|].
  pose proof Htok as Htok'. cbn [no_space string_forallb] in Htok'.
  apply andb_true_iff in Htok' as [Hc Htok']. apply negb_true_iff in Hc.
  unfold PyStr.strip.
  assert (Hl : PyStr.lstrip (String c tok +:+ " " +:+ rest)
               = String c tok +:+ " " +:+ rest).
  { rewrite string_app_cons. cbn [PyStr.lstrip]. by rewrite Hc. }
  rewrite Hl, rstrip_app_no_space by done.
  assert (Hfirst : ∀ y, (y = "" ∨ ∃ r, y = String " " r) →
            ∃ more, PyStr.split (String c tok +:+ y) = String c tok :: more).
  { intros y Hy. unfold PyStr.split. rewrite string_app_cons.
    cbn [PyStr.split_go]. rewrite Hc. cbn [default].
    rewrite split_go_no_space by done.
    assert (Hrev : String.rev (String.rev_app tok (String c "")) = String c tok).
    { unfold String.rev. rewrite rev_app_rev_app. cbn [String.rev_app].
      by rewrite string_app_nil_r. }
    destruct Hy as [->|[r ->]].
    - cbn [PyStr.split_go]. rewrite Hrev. by eexists.
    - cbn [PyStr.split_go].
      change (PyStr.isspace " ") with true. cbn iota. rewrite Hrev. by eexists. }
  apply Hfirst.
  change (" " +:+ rest) with (String " " rest). cbn [PyStr.rstrip].
  destruct (PyStr.rstrip rest); [left | right; by eexists].
  by change (PyStr.isspace " ") with true.
Qed.

Lemma base_cmd_first_word (tok rest : string) :
  tok ≠ "" → no_space tok = true →
  base_cmd (tok +:+ " " +:+ rest) = tok.
Proof.
  intros Hne Htok. unfold base_cmd.
  by destruct (first_word tok rest Hne Htok) as [more ->].
Qed.

(** ** The permission manager, continued *)

Lemma save_records (command : string) (approved : bool) (f : ApprovalsFile) :
  mem command
      (listed (if approved then "allowed" else "denied")
              (_save_approval command approved f)) = true.
Proof.
  unfold _save_approval, listed. cbv zeta.
  destruct approved.
  - destruct (mem command (default [] (Dict.get "allowed" (_load_approvals f))))
      eqn:Hm; simpl; [done|].
    rewrite dict_get_set_eq. simpl. apply mem_snoc.
  - destruct (mem command (default [] (Dict.get "denied" (_load_approvals f))))
      eqn:Hm; simpl; [done|].
    rewrite dict_get_set_eq. simpl. apply mem_snoc.
Qed.

Lemma mem_elem_of (x : string) (l : list string) : mem x l = true ↔ x ∈ l.
Proof.
  unfold mem. rewrite existsb_exists. split.
  - intros (y & Hin & ->%String.eqb_eq). by apply list_elem_of_In.
  - intros Hin. exists x. split; [by apply list_elem_of_In|apply String.eqb_refl].
Qed.

Section ApprovalFacts.

Context {User : Type}.
Implicit Types (pm : PermissionManager User) (s : PermState User).

(** X7. Once the user has approved a command, it is in the allowed
    list and [check] answers [safe] or [approved] for it; the gate then
    answers [True] for it, in every state with that approvals file,
    without a prompt and without a write, and so does every later attempt
    at the same command. *)
Theorem approval_persists pm (command : string) s s' :
  request_approval pm command s = (true, s') →
  mem command (listed "allowed" (approvals_file s')) = true
  ∧ check pm (approvals_file s') command
    = (if decide (base_cmd command ∈ _safe_commands pm) then "safe" else "approved")
  ∧ (∀ s2, approvals_file s2 = approvals_file s' →
           run_command_gate pm command s2 = (true, s2))
  ∧ ∀ n, attempts pm command n s' = s'
         ∧ run_command_gate pm command (attempts pm command n s') = (true, s').
Proof.
  intros Hreq. unfold request_approval in Hreq.
  destruct (match _approval_callback pm with
            | Some cb => cb command (user s)
            | None => (false, user s)
            end) as [approved u] eqn:Hcb.
  injection Hreq as -> <-. cbn [approvals_file].
  pose proof (save_records command true (approvals_file s)) as Hrec.
  cbn iota in Hrec.
  assert (Hcheck : check pm (_save_approval command true (approvals_file s)) command
     = (if decide (base_cmd command ∈ _safe_commands pm) then "safe" else "approved")).
  { unfold check. destruct (decide _); [done|]. by rewrite Hrec. }
  assert (Hgate : ∀ s2, approvals_file s2
                        = _save_approval command true (approvals_file s) →
                        run_command_gate pm command s2 = (true, s2)).
  { intros s2 Hs2. unfold run_command_gate. rewrite Hs2, Hcheck.
    by destruct (decide _). }
  split_and!; [done|done|done|].
  intros n. induction n as [|n [IH _]].
  - split; [done|]. by apply Hgate.
  - assert (Hn : attempts pm command (S n)
                   {| approvals_file := _save_approval command true (approvals_file s);
                      user := u; prompts := prompts s ++ [command] |}
                 = {| approvals_file := _save_approval command true (approvals_file s);
                      user := u; prompts := prompts s ++ [command] |}).
    { cbn [attempts]. rewrite Hgate by done. exact IH. }
    split; [exact Hn|]. rewrite Hn. by apply Hgate.
Qed.

(** X8. Only the first word of a command is compared with the safe set:
    a safe word followed by a space and anything at all is [safe], so the
    gate lets it through, asking nobody and writing nothing. *)
Theorem safe_first_word_passes pm (f : ApprovalsFile) (tok rest : string) :
  tok ∈ _safe_commands pm → tok ≠ "" → no_space tok = true →
  check pm f (tok +:+ " " +:+ rest) = "safe"
  ∧ ∀ s, run_command_gate pm (tok +:+ " " +:+ rest) s = (true, s).
Proof.
  intros Hsafe Hne Htok.
  assert (Hcheck : ∀ f, check pm f (tok +:+ " " +:+ rest) = "safe").
  { intros f'. unfold check. rewrite base_cmd_first_word by done.
    by destruct (decide _). }
  split; [apply Hcheck|].
  intros s. unfold run_command_gate. by rewrite Hcheck.
Qed.

End ApprovalFacts.

Lemma listed_save (key command : string) (approved : bool) (f : ApprovalsFile) :
  listed key (_save_approval command approved f)
  = if String.eqb key (decision_key approved)
       && negb (mem command (listed (decision_key approved) f))
    then listed key f ++ [command] else listed key f.
Proof.
  unfold _save_approval, listed, decision_key. cbv zeta.
  destruct approved.
  - destruct (mem command (default [] (Dict.get "allowed" (_load_approvals f))))
      eqn:Hm; cbn [_load_approvals negb].
    + by rewrite andb_false_r.
    + rewrite andb_true_r. destruct (String.eqb_spec key "allowed") as [->|Hne].
      * by rewrite dict_get_set_eq.
      * by rewrite dict_get_set_ne.
  - destruct (mem command (default [] (Dict.get "denied" (_load_approvals f))))
      eqn:Hm; cbn [_load_approvals negb].
    + by rewrite andb_false_r.
    + rewrite andb_true_r. destruct (String.eqb_spec key "denied") as [->|Hne].
      * by rewrite dict_get_set_eq.
      * by rewrite dict_get_set_ne.
Qed.

Lemma save_approval_idem (command : string) (approved : bool) (f : ApprovalsFile) :
  _save_approval command approved (_save_approval command approved f)
  = _save_approval command approved f.
Proof.
  pose proof (save_records command approved f) as Hrec.
  fold (decision_key approved) in Hrec.
  assert (Hdoc : ∃ d, _save_approval command approved f = Document d).
  { unfold _save_approval. cbv zeta.
    match goal with |- context [if ?b then _ else _] => destruct b end;
      eexists; reflexivity. }
  destruct Hdoc as [d Hd]. rewrite Hd in *.
  unfold _save_approval. cbv zeta. cbn [_load_approvals].
  fold (decision_key approved).
  unfold listed in Hrec. cbn [_load_approvals] in Hrec. by rewrite Hrec.
Qed.

(** X9. Recording a decision only ever adds: every command listed under
    a key stays listed, the one addition possible is the command itself
    under the key of the decision, a list without repetition stays so,
    and recording the same decision again changes nothing. *)
Theorem save_approval_only_adds (key command : string) (approved : bool)
        (f : ApprovalsFile) :
  (∀ c, c ∈ listed key f → c ∈ listed key (_save_approval command approved f))
  ∧ (∀ c, c ∈ listed key (_save_approval command approved f) →
          c ∈ listed key f ∨ (c = command ∧ key = decision_key approved))
  ∧ (NoDup (listed key f) → NoDup (listed key (_save_approval command approved f)))
  ∧ _save_approval command approved (_save_approval command approved f)
    = _save_approval command approved f.
Proof.
  split_and!; [| | |apply save_approval_idem]; rewrite listed_save;
    destruct (String.eqb_spec key (decision_key approved)) as [->|Hne];
    cbn [andb]; try done; try (by left);
    destruct (mem command (listed (decision_key approved) f)) eqn:Hm;
    cbn [negb]; try done; try (by left).
  - intros c Hc. apply elem_of_app. by left.
  - intros c [Hc|Hc%list_elem_of_singleton]%elem_of_app; [by left|by right].
  - intros Hnd. apply NoDup_app. split_and!; [done| |apply NoDup_singleton].
    intros c Hc ->%list_elem_of_singleton.
    apply mem_elem_of in Hc. congruence.
Qed.

Section NoCallback.

Context {User : Type}.
Implicit Types (pm : PermissionManager User) (s : PermState User).

Lemma check_allowed_only pm (f f' : ApprovalsFile) (command : string) :
  listed "allowed" f = listed "allowed" f' →
  check pm f command = check pm f' command.
Proof. intros H. unfold check. by rewrite H. Qed.

(** X10. A manager without an approval callback never widens what is
    allowed: whatever commands are put to the gate, the allowed list and
    the user are as before, and a command passes exactly when [check]
    on the approvals file of the start did not answer [needs_approval]. *)
Theorem no_callback_never_allows pm (commands : list string) s :
  _approval_callback pm = None →
  listed "allowed" (approvals_file (snd (run_commands pm commands s)))
  = listed "allowed" (approvals_file s)
  ∧ user (snd (run_commands pm commands s)) = user s
  ∧ fst (run_commands pm commands s)
    = map (λ command,
             negb (String.eqb (check pm (approvals_file s) command)
                              "needs_approval")) commands.
Proof.
  intros Hcb. revert s. induction commands as [|command rest IH]; intros s.
  - done.
  - cbn [run_commands].
    destruct (run_command_gate pm command s) as [ok s1] eqn:Hgate.
    specialize (IH s1).
    destruct (run_commands pm rest s1) as [oks s2] eqn:Hrest.
    cbn [fst snd] in *. destruct IH as (IHa & IHu & IHo).
    assert (H1 : listed "allowed" (approvals_file s1)
                 = listed "allowed" (approvals_file s)
                 ∧ user s1 = user s
                 ∧ ok = negb (String.eqb (check pm (approvals_file s) command)
                                          "needs_approval")).
    { unfold run_command_gate in Hgate.
      destruct (String.eqb (check pm (approvals_file s) command) "needs_approval").
      - unfold request_approval in Hgate. rewrite Hcb in Hgate.
        injection Hgate as <- <-. cbn [approvals_file user].
        by rewrite save_denied_keeps_allowed.
      - by injection Hgate as <- <-. }
    destruct H1 as (Ha & Hu & ->).
    split_and!; [congruence|congruence|].
    cbn [map]. f_equal. rewrite IHo. apply map_ext. intros c.
    by rewrite (check_allowed_only pm _ _ c Ha).
Qed.

End NoCallback.

(** ** Strings, continued *)

Lemma isspace_lower_char (c : ascii) :
  PyStr.isspace (PyStr.lower_char c) = PyStr.isspace c.
Proof. destruct c as [[] [] [] [] [] [] [] []]; reflexivity. Qed.

Lemma lower_char_idem (c : ascii) :
  PyStr.lower_char (PyStr.lower_char c) = PyStr.lower_char c.
Proof. destruct c as [[] [] [] [] [] [] [] []]; reflexivity. Qed.

Lemma lower_idem (s : string) : PyStr.lower (PyStr.lower s) = PyStr.lower s.
Proof.
  induction s as [|c s IH]; [done|]. cbn [PyStr.lower].
  by rewrite lower_char_idem, IH.
Qed.

Lemma lstrip_lower (s : string) :
  PyStr.lstrip (PyStr.lower s) = PyStr.lower (PyStr.lstrip s).
Proof.
  induction s as [|c s IH]; [done|]. cbn [PyStr.lower PyStr.lstrip].
  rewrite isspace_lower_char. by destruct (PyStr.isspace c).
Qed.

Lemma rstrip_lower (s : string) :
  PyStr.rstrip (PyStr.lower s) = PyStr.lower (PyStr.rstrip s).
Proof.
  induction s as [|c s IH]; [done|]. cbn [PyStr.lower PyStr.rstrip].
  rewrite IH, isspace_lower_char.
  destruct (PyStr.rstrip s); cbn [PyStr.lower]; [|done].
  by destruct (PyStr.isspace c).
Qed.

Lemma strip_lower (s : string) :
  PyStr.strip (PyStr.lower s) = PyStr.lower (PyStr.strip s).
Proof. unfold PyStr.strip. by rewrite lstrip_lower, rstrip_lower. Qed.

Lemma lstrip_head (s : string) :
  PyStr.lstrip s = ""
  ∨ ∃ c t, PyStr.lstrip s = String c t ∧ PyStr.isspace c = false.
Proof.
  induction s as [|c s IH]; [by left|]. cbn [PyStr.lstrip].
  destruct (PyStr.isspace c) eqn:Hc; [done|]. right. by exists c, s.
Qed.

Lemma rstrip_idem (s : string) : PyStr.rstrip (PyStr.rstrip s) = PyStr.rstrip s.
Proof.
  induction s as [|c s IH]; [done|]. cbn [PyStr.rstrip].
  destruct (PyStr.rstrip s) as [|d r] eqn:Hr.
  - destruct (PyStr.isspace c) eqn:Hc; [done|].
    cbn [PyStr.rstrip]. by rewrite Hc.
  - cbn [PyStr.rstrip] in *. by rewrite IH.
Qed.

Lemma strip_idem (s : string) : PyStr.strip (PyStr.strip s) = PyStr.strip s.
Proof.
  unfold PyStr.strip.
  assert (Hl : PyStr.lstrip (PyStr.rstrip (PyStr.lstrip s))
               = PyStr.rstrip (PyStr.lstrip s)).
  { destruct (lstrip_head s) as [->|(c & t & -> & Hc)]; [done|].
    rewrite rstrip_cons_nonspace by done. cbn [PyStr.lstrip]. by rewrite Hc. }
  by rewrite Hl, rstrip_idem.
Qed.

Lemma lower_nonempty (s : string) : s ≠ "" → PyStr.lower s ≠ "".
Proof. by destruct s. Qed.

(** ** Dictionaries, continued *)

Lemma dict_set_keys {V : Type} (k : string) (v : V) (d : list (string * V)) :
  map fst (Dict.set k v d)
  = if decide (k ∈ map fst d) then map fst d else map fst d ++ [k].
Proof.
  induction d as [|[k' v'] d IH]; cbn [Dict.set map fst].
  - rewrite decide_False; [reflexivity|apply not_elem_of_nil].
  - destruct (String.eqb_spec k k') as [->|Hne]; cbn [map fst].
    + rewrite decide_True; [done|by left].
    + rewrite IH. destruct (decide (k ∈ map fst d)) as [Hin|Hout].
      * rewrite decide_True; [done|by right].
      * rewrite decide_False; [done|].
        by intros [?|?]%elem_of_cons.
Qed.

Lemma dict_set_nodup {V : Type} (k : string) (v : V) (d : list (string * V)) :
  NoDup (map fst d) → NoDup (map fst (Dict.set k v d)).
Proof.
  intros Hnd. rewrite dict_set_keys. destruct (decide _) as [|Hout]; [done|].
  apply NoDup_app. split_and!; [done| |apply NoDup_singleton].
  by intros x Hx ->%list_elem_of_singleton.
Qed.

Lemma dict_set_elem {V : Type} (k : string) (v : V) (d : list (string * V))
      (kv : string * V) :
  kv ∈ Dict.set k v d → kv ∈ d ∨ kv = (k, v).
Proof.
  induction d as [|[k' v'] d IH]; cbn [Dict.set].
  - intros ->%list_elem_of_singleton. by right.
  - destruct (String.eqb_spec k k') as [->|Hne].
    + intros [->|Hin]%elem_of_cons; [by right|]. left. by right.
    + intros [->|Hin]%elem_of_cons; [left; by left|].
      destruct (IH Hin) as [?|?]; [left; by right|by right].
Qed.

(** ** The agent router, continued *)

Lemma build_prefix_map_app (agents1 agents2 : list AgentConfig)
      (acc : list (string * AgentConfig)) :
  build_prefix_map (agents1 ++ agents2) acc
  = build_prefix_map agents2 (build_prefix_map agents1 acc).
Proof.
  revert acc. induction agents1 as [|agent rest IH]; intros acc; [done|].
  cbn [app build_prefix_map].
  destruct (prefix agent) as [p|]; [|apply IH].
  destruct (String.eqb p ""); apply IH.
Qed.

Lemma build_prefix_map_ok (agents all : list AgentConfig)
      (acc : list (string * AgentConfig)) :
  (∀ agent, agent ∈ agents → agent ∈ all) →
  NoDup (map fst acc) → Forall (entry_ok all) acc →
  NoDup (map fst (build_prefix_map agents acc))
  ∧ Forall (entry_ok all) (build_prefix_map agents acc).
Proof.
  revert acc. induction agents as [|agent rest IH]; intros acc Hall Hnd Hok;
    [done|].
  assert (Hrest : ∀ a, a ∈ rest → a ∈ all).
  { intros a Ha. apply Hall. by right. }
  cbn [build_prefix_map].
  destruct (prefix agent) as [p|] eqn:Hp; [|by apply IH].
  destruct (String.eqb_spec p "") as [->|Hne]; [by apply IH|].
  apply IH; [done|by apply dict_set_nodup|].
  apply Forall_forall. intros kv [Hin| ->]%dict_set_elem.
  - by apply (proj1 (Forall_forall _ _) Hok).
  - unfold entry_ok. cbn [fst snd]. split_and!.
    + by apply lower_nonempty.
    + apply lower_idem.
    + apply Hall. by left.
    + by exists p.
Qed.

(** X11. The prefix map [__init__] builds has pairwise different keys,
    each of them non-empty, in lower case and the lowercased prefix of
    the agent it leads to, which is one of the agents given. *)
Theorem prefix_map_wellformed (default_agent : AgentConfig)
        (agents : list AgentConfig) :
  NoDup (map fst (_prefix_map (AgentRouter_init default_agent agents)))
  ∧ Forall (entry_ok agents) (_prefix_map (AgentRouter_init default_agent agents)).
Proof.
  unfold AgentRouter_init. cbn [_prefix_map].
  apply build_prefix_map_ok; [done|constructor|constructor].
Qed.

(** X12. An agent given last takes over the entry of its lowercased
    prefix, also from an earlier agent whose prefix differs from its own
    only in case; the keys of the other entries keep their order. *)
Theorem last_agent_takes_prefix (default_agent agent : AgentConfig)
        (agents : list AgentConfig) (p : string) :
  prefix agent = Some p → p ≠ "" →
  let before := _prefix_map (AgentRouter_init default_agent agents) in
  let after := _prefix_map (AgentRouter_init default_agent (agents ++ [agent])) in
  Dict.get (PyStr.lower p) after = Some agent
  ∧ (∀ q, q ≠ PyStr.lower p → Dict.get q after = Dict.get q before)
  ∧ map fst after
    = (if decide (PyStr.lower p ∈ map fst before) then map fst before
       else map fst before ++ [PyStr.lower p]).
Proof.
  intros Hp Hne before after. subst before after.
  unfold AgentRouter_init. cbn [_prefix_map].
  rewrite build_prefix_map_app. cbn [build_prefix_map]. rewrite Hp.
  apply String.eqb_neq in Hne. rewrite Hne.
  split_and!.
  - apply dict_get_set_eq.
  - intros q Hq. by apply dict_get_set_ne.
  - apply dict_set_keys.
Qed.

Lemma resolve_in_agent (pm : list (string * AgentConfig))
      (t t' text_lower : string) :
  option_map fst (resolve_in pm t text_lower)
  = option_map fst (resolve_in pm t' text_lower).
Proof.
  induction pm as [|[p agent] pm IH]; [done|]. cbn [resolve_in].
  by destruct (PyStr.startswith text_lower p).
Qed.

Lemma resolve_agent_by_text_lower (router : AgentRouter) (t t' : string) :
  PyStr.lower (PyStr.strip t) = PyStr.lower (PyStr.strip t') →
  fst (resolve router t) = fst (resolve router t').
Proof.
  intros H. unfold resolve. cbv zeta. rewrite <- H.
  pose proof (resolve_in_agent (_prefix_map router) t t'
                (PyStr.lower (PyStr.strip t))) as Hag.
  destruct (resolve_in _ t _) as [[a r]|], (resolve_in _ t' _) as [[a' r']|];
    cbn in Hag; try done. by injection Hag as ->.
Qed.

Lemma resolve_in_padding (pm : list (string * AgentConfig)) (t text_lower : string) :
  resolve_in pm (PyStr.strip t) text_lower = resolve_in pm t text_lower.
Proof.
  induction pm as [|[p agent] pm IH]; [done|]. cbn [resolve_in].
  rewrite IH. unfold remainder_of. by rewrite strip_idem.
Qed.

(** X13. Routing ignores case and surrounding white space: two texts
    that agree after lowercasing go to the same agent, a text and its
    stripped form go to the same agent, and when a prefix matches the
    two give the same cleaned text as well. *)
Theorem routing_ignores_case_and_padding (router : AgentRouter) :
  (∀ t t', PyStr.lower t = PyStr.lower t' →
           fst (resolve router t) = fst (resolve router t'))
  ∧ (∀ t, fst (resolve router (PyStr.strip t)) = fst (resolve router t))
  ∧ (∀ t, ¬ unmatched (_prefix_map router) (PyStr.lower (PyStr.strip t)) →
          resolve router (PyStr.strip t) = resolve router t).
Proof.
  split_and!.
  - intros t t' H. apply resolve_agent_by_text_lower.
    by rewrite <- !strip_lower, H.
  - intros t. apply resolve_agent_by_text_lower. by rewrite strip_idem.
  - intros t Hm. unfold resolve. cbv zeta. rewrite strip_idem, resolve_in_padding.
    destruct (resolve_in _ t _) eqn:Hres; [done|].
    exfalso. apply Hm.
    destruct (resolve_in_cases (_prefix_map router) (PyStr.lower (PyStr.strip t)))
      as [Hun|(before & p & agent & after & Hpm & Hb & Hp)]; [done|].
    rewrite Hpm in Hres.
    by rewrite (resolve_in_first_match _ _ _ _ t _ Hb Hp) in Hres.
Qed.

Lemma str_or_clean (s : string) :
  str_or (Some (PyStr.strip s)) no_query ≠ ""
  ∧ PyStr.strip (str_or (Some (PyStr.strip s)) no_query)
    = str_or (Some (PyStr.strip s)) no_query.
Proof.
  unfold str_or. destruct (String.eqb_spec (PyStr.strip s) "") as [Hs|Hs].
  - split; [done|reflexivity].
  - split; [done|apply strip_idem].
Qed.

(** X14. When a prefix matches, the text handed to the agent is never
    empty and carries no surrounding white space. *)
Theorem matched_text_is_clean (router : AgentRouter) (user_text : string) :
  ¬ unmatched (_prefix_map router) (PyStr.lower (PyStr.strip user_text)) →
  snd (resolve router user_text) ≠ ""
  ∧ PyStr.strip (snd (resolve router user_text)) = snd (resolve router user_text).
Proof.
  intros Hm.
  destruct (resolve_in_cases (_prefix_map router)
              (PyStr.lower (PyStr.strip user_text)))
    as [Hun|(before & p & agent & after & Hpm & Hb & Hp)]; [done|].
  unfold resolve. cbv zeta. rewrite Hpm.
  rewrite (resolve_in_first_match _ _ _ _ user_text _ Hb Hp). cbn [snd].
  apply str_or_clean.
Qed.

(** ** Session keys *)

Lemma sanitize_key_app (a b : string) :
  sanitize_key (a +:+ b) = sanitize_key a +:+ sanitize_key b.
Proof.
  induction a as [|c a IH]; [done|].
  change (String (sanitize_char c) (sanitize_key (a +:+ b))
          = String (sanitize_char c) (sanitize_key a +:+ sanitize_key b)).
  by rewrite IH.
Qed.

Lemma string_app_inv_head (h a b : string) : h +:+ a = h +:+ b → a = b.
Proof.
  induction h as [|c h IH]; [done|].
  rewrite !string_app_cons. intros [= H]. by apply IH.
Qed.

(** X15. One agent, one channel: two callers get the same session file
    exactly when their user ids have the same sanitised form; and the
    key does not keep channel and user id apart, a colon moved from one
    to the other gives the same key. *)
Theorem session_isolation (agent : AgentConfig) :
  (∀ c1 c2, rc_channel c1 = rc_channel c2 →
     (_path (session_key_of agent c1) = _path (session_key_of agent c2)
      ↔ sanitize_key (rc_user_id c1) = sanitize_key (rc_user_id c2)))
  ∧ (∀ t t' a b c,
       session_key_of agent
         {| rc_user_text := t; rc_channel := a +:+ ":" +:+ b; rc_user_id := c |}
       = session_key_of agent
           {| rc_user_text := t'; rc_channel := a; rc_user_id := b +:+ ":" +:+ c |}).
Proof.
  split.
  - intros c1 c2 Hch. rewrite path_eq_iff. unfold session_key_of.
    rewrite Hch, !sanitize_key_app. split.
    + intros H. by do 4 apply string_app_inv_head in H.
    + by intros ->.
  - intros t t' a b c. unfold session_key_of. cbn [rc_channel rc_user_id].
    by rewrite !string_app_assoc.
Qed.

(** ** The heartbeat, continued *)

(** X16. A firing never raises, whatever the run or the result callback
    do; when the run raises the callback is not called; and the agent
    named in the heartbeat plays no part, two heartbeats with the same
    name and prompt fire alike. *)
Theorem fire_swallows_and_ignores_agent {Env : Type} chat json_loads
        format_for_summary (router : AgentRouter)
        (tool_registry : ToolRegistry Env) (on_result : OnHeartbeatResult Env)
        (h : Heartbeat) (w : World Env) :
  fst (_fire chat json_loads format_for_summary router tool_registry on_result h w)
  = Ok tt
  ∧ (∀ e w1,
       run chat json_loads format_for_summary router (fire_call h)
           tool_registry None w = (Raise e, w1) →
       _fire chat json_loads format_for_summary router tool_registry on_result h w
       = (Ok tt, w1))
  ∧ (∀ h', hb_name h' = hb_name h → hb_prompt h' = hb_prompt h →
       _fire chat json_loads format_for_summary router tool_registry on_result h' w
       = _fire chat json_loads format_for_summary router tool_registry on_result h w).
Proof.
  split_and!.
  - unfold _fire, try_except, bind.
    destruct (run chat json_loads format_for_summary router (fire_call h)
                  tool_registry None w) as [[response|e] w1]; [|done].
    destruct on_result as [cb|]; [|done].
    unfold on_env, ret. by destruct (cb (hb_name h) response (env w1)) as [[[]|e] e'].
  - intros e w1 Hrun. unfold _fire, try_except, bind. by rewrite Hrun.
  - intros h' Hn Hp. unfold _fire, fire_call, _heartbeat_run_fn_call.
    by rewrite Hn, Hp.
Qed.

(** ** The compactor, continued *)

Lemma summary_msg_not_orphan (n : nat) (summary : string) :
  is_orphan (summary_msg n summary) = false.
Proof. reflexivity. Qed.

Lemma ends_with_orphan_drop (msgs : list message) (i : nat) :
  (i < length msgs)%nat →
  ends_with_orphan (drop i msgs) = ends_with_orphan msgs.
Proof.
  intros Hi. unfold ends_with_orphan.
  rewrite <- (take_drop i msgs) at 2.
  rewrite last_app.
  destruct (last (drop i msgs)) eqn:Hl; [done|].
  apply last_None in Hl. apply (f_equal length) in Hl.
  rewrite length_drop in Hl. simpl in Hl. lia.
Qed.

Section CompactFacts.

Context {Env : Type}.
Variable chat : Request → Env → outcome Response * Env.
Variable format_for_summary : list message → outcome string.

Implicit Types (w : World Env).

(** What [compact] leaves behind, whatever it returns. *)
Lemma compact_outcome (msgs : list message) (model : string) (threshold : Z)
      w o w' :
  compact chat format_for_summary msgs model threshold w = (o, w') →
  files w' = files w
  ∧ (w' = w ∨ ∃ req res, events w' = events w ++ [EvChat req res])
  ∧ match o with
    | Ok out =>
        (out = msgs
         ∨ ∃ summary,
             out = summary_msg (length (take (split_index msgs) msgs)) summary
                   :: drop (split_index msgs) msgs
             ∧ is_user (summary_msg (length (take (split_index msgs) msgs)) summary)
               = true)
        ∧ (length out ≤ length msgs)%nat
        ∧ ends_with_orphan out = ends_with_orphan msgs
    | Raise _ => True
    end.
Proof.
  unfold compact. destruct (estimate_tokens msgs <? threshold).
  { unfold ret. intros [= <- <-]. split_and!; [done|by left|by left|done|done]. }
  unfold _split_messages.
  destruct (take (split_index msgs) msgs) as [|m old] eqn:Hold.
  { unfold ret. intros [= <- <-]. split_and!; [done|by left|by left|done|done]. }
  unfold bind, lift.
  destruct (format_for_summary (m :: old)) as [text|e].
  2: { intros [= <- <-]. split_and!; [done|by left|done]. }
  unfold chat_create.
  destruct (chat (summary_request model text) (env w)) as [[r|e] e'].
  - unfold ret. intros [= <- <-]. cbn [files events].
    split_and!; [done|right; by eexists _, _| | |].
    + right. by eexists.
    + assert (Hlen : length (take (split_index msgs) msgs) = S (length old)).
      { by rewrite Hold. }
      rewrite length_take in Hlen. cbn [length]. rewrite length_drop. lia.
    + assert (Hne : msgs ≠ []).
      { intros ->. by rewrite take_nil in Hold. }
      pose proof (split_index_lt msgs Hne) as Hlt.
      rewrite <- (ends_with_orphan_drop msgs (split_index msgs) Hlt).
      unfold ends_with_orphan.
      destruct (drop (split_index msgs) msgs) as [|x rest] eqn:Hd; [|done].
      apply (f_equal length) in Hd. rewrite length_drop in Hd. simpl in Hd. lia.
  - intros [= <- <-]. cbn [files events].
    split_and!; [done|right; by eexists _, _|done].
Qed.

(** X17. Whatever the summariser does, [compact] writes no file and
    makes at most one LLM call; what it returns is the list it got or one
    summary message, a user message, in front of the messages from the
    cut on, so it is never longer than the list it got and ends as that
    list ended. *)
Theorem compact_effects (msgs : list message) (model : string) (threshold : Z) w :
  let '(o, w') := compact chat format_for_summary msgs model threshold w in
  files w' = files w
  ∧ (w' = w ∨ ∃ req res, events w' = events w ++ [EvChat req res])
  ∧ match o with
    | Ok out =>
        (out = msgs
         ∨ ∃ summary,
             out = summary_msg (length (take (split_index msgs) msgs)) summary
                   :: drop (split_index msgs) msgs
             ∧ is_user (summary_msg (length (take (split_index msgs) msgs)) summary)
               = true)
        ∧ (length out ≤ length msgs)%nat
        ∧ ends_with_orphan out = ends_with_orphan msgs
    | Raise _ => True
    end.
Proof.
  destruct (compact chat format_for_summary msgs model threshold w)
    as [o w'] eqn:Hcompact.
  exact (compact_outcome msgs model threshold w o w' Hcompact).
Qed.

Variables (model session_key : string).

Lemma sanitize_clean (x : list message) :
  ends_with_orphan (_sanitize_loaded_messages x) = false.
Proof. by destruct (sanitize_split x) as (tail & _ & _ & H). Qed.

(** What the preparation of a turn leaves behind, whatever it returns. *)
Lemma prepare_history_outcome (threshold : Z) w o w1 :
  prepare_history chat format_for_summary model session_key threshold w = (o, w1) →
  (∀ p, p ≠ _path session_key → files w1 !! p = files w !! p)
  ∧ (∃ evs, events w1 = events w ++ evs
            ∧ (length (chat_results evs) ≤ 1)%nat
            ∧ tools_run evs = [] ∧ appended evs = [])
  ∧ match o with
    | Ok msgs =>
        ends_with_orphan msgs = false
        ∧ (estimate_tokens (_sanitize_loaded_messages (session_log w session_key))
           < threshold →
           w1 = w ∧ msgs = _sanitize_loaded_messages (session_log w session_key))
        ∧ (threshold
           ≤ estimate_tokens (_sanitize_loaded_messages (session_log w session_key)) →
           session_log w1 session_key = msgs
           ∧ last (events w1) = Some (EvSave (_path session_key) msgs))
    | Raise _ => files w1 = files w
    end.
Proof.
  set (loaded := _sanitize_loaded_messages (session_log w session_key)).
  unfold prepare_history, bind at 1, load.
  fold (session_log w session_key). fold loaded.
  destruct (Z.geb_spec (estimate_tokens loaded) threshold) as [Hge|Hlt].
  - unfold bind at 1.
    destruct (compact chat format_for_summary loaded model threshold w)
      as [[out|e] w2] eqn:Hcompact;
      pose proof (compact_outcome loaded model threshold w _ w2 Hcompact) as Hc.
    + destruct Hc as (Hfiles & Hev & Hout & _ & Horph).
      unfold bind, save, ret. intros [= <- <-]. cbn [files events]. split_and!.
      * intros p Hp. rewrite lookup_insert_ne by done. by rewrite Hfiles.
      * destruct Hev as [->|(req & res & ->)].
        -- exists [EvSave (_path session_key) out].
           split_and!; [done|simpl; lia|done|done].
        -- exists [EvChat req res; EvSave (_path session_key) out].
           split_and!; [by rewrite <- app_assoc|simpl; lia|done|done].
      * rewrite Horph. apply sanitize_clean.
      * intros Hlt. lia.
      * intros _. split.
        -- unfold session_log. cbn [files]. by rewrite lookup_insert_eq.
        -- by rewrite last_snoc.
    + destruct Hc as (Hfiles & Hev & _). intros [= <- <-]. split_and!.
      * intros p _. by rewrite Hfiles.
      * destruct Hev as [->|(req & res & ->)].
        -- exists []. rewrite app_nil_r.
           split_and!; [done|simpl; lia|done|done].
        -- exists [EvChat req res].
           split_and!; [done|simpl; lia|done|done].
      * done.
  - unfold ret. intros [= <- <-]. split_and!.
    + done.
    + exists []. rewrite app_nil_r.
      split_and!; [done|simpl; lia|done|done].
    + apply sanitize_clean.
    + done.
    + intros Hge. lia.
Qed.

(** X18. Preparing the history touches no other session file, runs no
    tool, appends nothing and makes at most one LLM call.  When it
    raises, no file has changed.  When it returns, the list does not end
    with an unanswered assistant message; below the threshold nothing at
    all has happened and the list is the sanitised file, which stays as
    it was on disk; at the threshold the session file has been rewritten
    and holds exactly the list returned. *)
Theorem prepare_history_effects (threshold : Z) w :
  let loaded := _sanitize_loaded_messages (session_log w session_key) in
  let '(o, w1) := prepare_history chat format_for_summary model session_key
                                  threshold w in
  (∀ p, p ≠ _path session_key → files w1 !! p = files w !! p)
  ∧ (∃ evs, events w1 = events w ++ evs
            ∧ (length (chat_results evs) ≤ 1)%nat
            ∧ tools_run evs = [] ∧ appended evs = [])
  ∧ match o with
    | Ok msgs =>
        ends_with_orphan msgs = false
        ∧ (estimate_tokens loaded < threshold → w1 = w ∧ msgs = loaded)
        ∧ (threshold ≤ estimate_tokens loaded →
           session_log w1 session_key = msgs
           ∧ last (events w1) = Some (EvSave (_path session_key) msgs))
    | Raise _ => files w1 = files w
    end.
Proof.
  intros loaded.
  destruct (prepare_history chat format_for_summary model session_key threshold w)
    as [o w1] eqn:Hprep.
  exact (prepare_history_outcome threshold w o w1 Hprep).
Qed.

End CompactFacts.

(** ** The sanitiser, continued *)

Lemma sanitize_id (l : list message) :
  ends_with_orphan l = false → _sanitize_loaded_messages l = l.
Proof.
  intros H. destruct (sanitize_split l) as (tail & Heq & Hall & _).
  destruct tail as [|m tail]; [by rewrite app_nil_r in Heq|].
  rewrite Heq in H at 1. rewrite last_orphan_tail in H; done.
Qed.

Lemma sanitize_snoc (l : list message) (m : message) :
  _sanitize_loaded_messages (l ++ [m])
  = if is_orphan m then _sanitize_loaded_messages l else l ++ [m].
Proof.
  unfold _sanitize_loaded_messages. rewrite rev_app_distr. cbn [rev app pop_orphans].
  destruct (is_orphan m); [done|].
  cbn [rev]. by rewrite rev_involutive.
Qed.

Lemma tool_not_orphan (m : message) :
  get_is "role" "tool" m = true → is_orphan m = false.
Proof.
  unfold is_orphan, get_is. destruct (Dict.get "role" m) as [[| | |s| |]|]; try done.
  intros ->%String.eqb_eq. reflexivity.
Qed.

Lemma serialized_orphan (r : Response) :
  is_orphan (_serialize_assistant_message r)
  = match tool_calls r with [] => false | _ => true end.
Proof. unfold _serialize_assistant_message. by destruct (tool_calls r). Qed.

Lemma ends_with_orphan_snoc (l : list message) (m : message) :
  ends_with_orphan (l ++ [m]) = is_orphan m.
Proof. unfold ends_with_orphan. by rewrite last_snoc. Qed.

Lemma keeps_clean_nil : keeps_clean [].
Proof. intros pre _ H. by rewrite app_nil_r. Qed.

Lemma keeps_clean_cycle (asst : message) (tool_msgs body : list message) :
  tool_msgs ≠ [] →
  Forall (λ m, get_is "role" "tool" m = true) tool_msgs →
  keeps_clean body →
  keeps_clean (asst :: tool_msgs ++ body).
Proof.
  intros Hne Hall Hbody pre Hpre Hclean.
  replace (pre ++ asst :: tool_msgs ++ body)
    with ((pre ++ asst :: tool_msgs) ++ body)
    by (by rewrite <- app_assoc).
  apply Hbody; [by destruct pre|].
  destruct tool_msgs as [|t ts _] using rev_ind; [done|].
  rewrite app_comm_cons, app_assoc, ends_with_orphan_snoc.
  apply tool_not_orphan. apply Forall_app in Hall as [_ Hall].
  by inversion Hall.
Qed.

Lemma result_msgs_written (tcs : list ToolCall) (results : list string) :
  Forall loop_written (result_msgs tcs results).
Proof.
  revert results. induction tcs as [|tc tcs IH]; intros [|s results];
    try constructor; [|apply IH].
  right. right. left. by eexists _, _.
Qed.

(** ** The turn loop, continued *)

Section LoopFacts.

Context {Env : Type}.
Variable chat : Request → Env → outcome Response * Env.
Variable json_loads : string → option json.
Variables (model session_key : string).
Variable tool_registry : ToolRegistry Env.
Variable on_tool_use : OnToolUseCallback Env.

Implicit Types (w : World Env) (evs : list event) (r : Response).

Lemma has_tool_calls_nonempty r : has_tool_calls r = true → tool_calls r ≠ [].
Proof.
  unfold has_tool_calls. intros [_ H]%andb_true_iff. by destruct (tool_calls r).
Qed.

Lemma after_appends_other (p : string) w (m : message) (msgs : list message) :
  p ≠ _path session_key →
  files (after_appends session_key w m msgs) !! p = files w !! p.
Proof. intros Hp. unfold after_appends. cbn [files]. by rewrite lookup_insert_ne. Qed.

(** What the loop leaves in the files, however it ends. *)
Lemma turn_loop_log (n : nat) (tools : list json)
      (messages api_messages : list message) w res w' :
  turn_loop chat json_loads model session_key tool_registry on_tool_use
            n tools messages api_messages w = (res, w') →
  (∀ p, p ≠ _path session_key → files w' !! p = files w !! p)
  ∧ ∃ body, keeps_clean body
      ∧ Forall loop_written body
      ∧ (session_log w' session_key = session_log w session_key ++ body
         ∨ ∃ r, res = Ok (str_or (content r) "")
                ∧ has_tool_calls r = false
                ∧ session_log w' session_key
                  = session_log w session_key ++ body
                    ++ [_serialize_assistant_message r]).
Proof.
  revert messages api_messages w res w'.
  induction n as [|n IH]; intros messages api_messages w res w'.
  - intros [= <- <-]. split; [done|]. exists [].
    split_and!; [apply keeps_clean_nil|constructor|].
    left. by rewrite app_nil_r.
  - destruct (chat (turn_request model tools api_messages) (env w))
      as [[r|e] e1] eqn:Hchat.
    + destruct (has_tool_calls r) eqn:Htc.
      * rewrite (turn_loop_tool_branch _ _ _ _ _ _ _ _ _ _ _ _ _ Hchat Htc).
        unfold bind at 1.
        destruct (run_tools json_loads tool_registry on_tool_use (tool_calls r) [] _)
          as [[tool_msgs|e] w2] eqn:Hrun;
          apply run_tools_spec in Hrun as (Hfiles & evs1 & Hevs1 & Hlocal & Ho);
          cbn [env files events] in Hfiles, Hevs1.
        -- rewrite append_persist_then. intros Hrest.
           apply IH in Hrest as (Hframe & body & Hbody & Hwritten & Hlog).
           destruct Ho as (_ & results & Hlen & Hmsgs). simpl in Hmsgs. subst tool_msgs.
           destruct (result_msgs_ids _ _ Hlen) as (_ & Hroles & Hlen').
           assert (Hlog0 : session_log
                             (after_appends session_key w2
                                (_serialize_assistant_message r)
                                (result_msgs (tool_calls r) results)) session_key
                           = session_log w session_key
                             ++ _serialize_assistant_message r
                             :: result_msgs (tool_calls r) results).
           { rewrite after_appends_log. unfold session_log. by rewrite Hfiles. }
           split.
           { intros p Hp. rewrite Hframe, after_appends_other by done.
             by rewrite Hfiles. }
           exists (_serialize_assistant_message r
                   :: result_msgs (tool_calls r) results ++ body).
           split.
           { apply keeps_clean_cycle; [|done|done].
             apply has_tool_calls_nonempty in Htc.
             intros Hnil. rewrite Hnil in Hlen'. simpl in Hlen'.
             destruct (tool_calls r); [done|simpl in Hlen'; lia]. }
           split.
           { constructor; [right; left; by eexists|].
             apply Forall_app. split; [apply result_msgs_written|done]. }
           destruct Hlog as [Hlog|(r' & -> & Hr' & Hlog)].
           ++ left. rewrite Hlog, Hlog0. by rewrite <- app_assoc.
           ++ right. exists r'. split_and!; [done|done|].
              rewrite Hlog, Hlog0. rewrite <- !app_assoc. f_equal.
              cbn [app]. f_equal. by rewrite <- app_assoc.
        -- intros [= <- <-]. split.
           { intros p _. by rewrite Hfiles. }
           exists []. split_and!; [apply keeps_clean_nil|constructor|]. left.
           rewrite app_nil_r. unfold session_log. by rewrite Hfiles.
      * rewrite (turn_loop_final_branch _ _ _ _ _ _ _ _ _ _ _ _ _ Hchat Htc).
        intros [= <- <-]. split.
        { intros p Hp. cbn [files]. by rewrite lookup_insert_ne. }
        exists []. split_and!; [apply keeps_clean_nil|constructor|]. right. exists r.
        split_and!; [done|done|].
        unfold session_log at 1. cbn [files]. by rewrite lookup_insert_eq.
    + rewrite (turn_loop_chat_raise _ _ _ _ _ _ _ _ _ _ _ _ _ Hchat).
      intros [= <- <-]. split; [done|].
      exists []. split_and!; [apply keeps_clean_nil|constructor|]. left.
      by rewrite app_nil_r.
Qed.

End LoopFacts.

Section ToolPhase.

Context {Env : Type}.
Variable json_loads : string → option json.
Variable tool_registry : ToolRegistry Env.
Variable on_tool_use : OnToolUseCallback Env.

Implicit Types (w : World Env).

Lemma run_tools_trace_acc (tcs : list ToolCall) (acc : list message) w o w' :
  run_tools json_loads tool_registry on_tool_use tcs acc w = (o, w') →
  files w' = files w
  ∧ match o with
    | Ok msgs =>
        ∃ results, length results = length tcs
                   ∧ msgs = acc ++ result_msgs tcs results
                   ∧ events w' = events w ++ tool_trace json_loads on_tool_use tcs results
    | Raise _ =>
        ∃ ran tc later results s,
          tcs = ran ++ tc :: later
          ∧ length results = length ran
          ∧ events w'
            = events w ++ tool_trace json_loads on_tool_use ran results
              ++ [EvTool (tc_name tc) (parse_arguments json_loads tc) s]
          ∧ on_tool_use ≠ None
    end.
Proof.
  revert acc w. induction tcs as [|tc tcs IH]; intros acc w; cbn [run_tools].
  - intros [= <- <-]. split; [done|]. exists []. by rewrite !app_nil_r.
  - unfold bind at 1.
    destruct (execute_total tool_registry (tc_name tc)
                (parse_arguments json_loads tc) w) as (s & e' & ->).
    unfold bind at 1. unfold log at 1. cbn [env files events].
    unfold bind at 1. unfold notify.
    destruct on_tool_use as [cb|] eqn:Hcb.
    + unfold bind at 1, on_env at 1. cbn [env files events].
      destruct (cb (tc_name tc) (parse_arguments json_loads tc) s e')
        as [[[]|e] e''].
      * unfold log at 1. cbn [env files events]. intros Hrest.
        apply IH in Hrest as (Hfiles & Ho). split; [done|].
        destruct o as [msgs|e].
        -- destruct Ho as (results & Hlen & -> & Hev). exists (s :: results).
           split_and!; [simpl; by rewrite Hlen|by rewrite <- app_assoc|].
           rewrite Hev. cbn [events]. unfold tool_trace at 2.
           cbn [zip_with concat]. by rewrite <- !app_assoc.
        -- destruct Ho as (ran & tc' & later & results & s' & -> & Hlen & Hev & _).
           exists (tc :: ran), tc', later, (s :: results), s'.
           split_and!; [done|simpl; by rewrite Hlen| |done].
           rewrite Hev. cbn [events]. unfold tool_trace at 2.
           cbn [zip_with concat]. by rewrite <- !app_assoc.
      * intros [= <- <-]. split; [done|].
        exists [], tc, tcs, [], s. split_and!; done.
    + unfold ret at 1. intros Hrest.
      apply IH in Hrest as (Hfiles & Ho). split; [done|].
      destruct o as [msgs|e].
      * destruct Ho as (results & Hlen & -> & Hev). exists (s :: results).
        split_and!; [simpl; by rewrite Hlen|by rewrite <- app_assoc|].
        rewrite Hev. cbn [events]. unfold tool_trace at 2.
        cbn [zip_with concat]. by rewrite <- !app_assoc.
      * by destruct Ho as (? & ? & ? & ? & ? & _ & _ & _ & ?).
Qed.

(** X20. The tool phase of a response, event by event: the tools run in
    the order of the calls, each followed at once by the callback when
    there is one, and the result recorded for a call is the content of
    its tool message.  No file is touched.  The phase raises only if the
    callback raises, and then right after a tool has run: the calls
    after that one are not run. *)
Theorem run_tools_trace (tcs : list ToolCall) w :
  let '(o, w') := run_tools json_loads tool_registry on_tool_use tcs [] w in
  files w' = files w
  ∧ match o with
    | Ok msgs =>
        ∃ results, length results = length tcs
                   ∧ msgs = result_msgs tcs results
                   ∧ map (Dict.get "content") msgs = map (λ s, Some (JStr s)) results
                   ∧ events w' = events w ++ tool_trace json_loads on_tool_use tcs results
    | Raise _ =>
        ∃ ran tc later results s,
          tcs = ran ++ tc :: later
          ∧ length results = length ran
          ∧ events w'
            = events w ++ tool_trace json_loads on_tool_use ran results
              ++ [EvTool (tc_name tc) (parse_arguments json_loads tc) s]
          ∧ on_tool_use ≠ None
    end.
Proof.
  destruct (run_tools json_loads tool_registry on_tool_use tcs [] w)
    as [o w'] eqn:Hrun.
  apply run_tools_trace_acc in Hrun as (Hfiles & Ho). split; [done|].
  destruct o as [msgs|e]; [|done].
  destruct Ho as (results & Hlen & -> & Hev). exists results.
  split_and!; [done|done| |done].
  clear Hev. revert results Hlen.
  induction tcs as [|tc tcs IH]; intros [|s results] Hlen; simpl in *; try done.
  f_equal. apply IH. lia.
Qed.

End ToolPhase.

(** ** A whole turn, continued *)

Section RunFacts2.

Context {Env : Type}.
Variable chat : Request → Env → outcome Response * Env.
Variable json_loads : string → option json.
Variable format_for_summary : list message → outcome string.
Variables (model system_prompt session_key : string).
Variable tool_registry : ToolRegistry Env.
Variable on_tool_use : OnToolUseCallback Env.

Implicit Types (w : World Env) (evs : list event) (r : Response).

(** X19. What a turn leaves in the session file is read back whole by
    the next turn: once the history is prepared, however the turn ends,
    the sanitiser is the identity on the file - with one exception, a
    final response that lists tool calls, whose message is written last
    and dropped again by the sanitiser at the next load. *)
Theorem turn_log_reloads (user_text : string) (max_turns threshold : Z)
        w (msgs : list message) w1 res w' :
  prepare_history chat format_for_summary model session_key threshold w
  = (Ok msgs, w1) →
  run_agent_turn chat json_loads format_for_summary model system_prompt
                 session_key tool_registry on_tool_use user_text max_turns
                 threshold w = (res, w') →
  _sanitize_loaded_messages (session_log w' session_key)
  = session_log w' session_key
  ∨ ∃ r, res = Ok (str_or (content r) "")
         ∧ has_tool_calls r = false
         ∧ tool_calls r ≠ []
         ∧ session_log w' session_key
           = _sanitize_loaded_messages (session_log w' session_key)
             ++ [_serialize_assistant_message r].
Proof.
  intros Hprep Hrun.
  rewrite (run_after_prepare _ _ _ _ _ _ _ _ _ _ _ _ _ _ Hprep) in Hrun.
  apply turn_loop_log in Hrun as (_ & body & Hbody & _ & Hlog).
  assert (Hu : session_log (with_user session_key w1 user_text) session_key
               = session_log w1 session_key ++ [user_message user_text]).
  { unfold with_user, session_log at 1. cbn [files]. by rewrite lookup_insert_eq. }
  rewrite Hu in Hlog.
  assert (Hclean : ends_with_orphan
                     ((session_log w1 session_key ++ [user_message user_text]) ++ body)
                   = false).
  { apply Hbody; [by destruct (session_log w1 session_key)|].
    by rewrite ends_with_orphan_snoc. }
  destruct Hlog as [Hlog|(r & -> & Hr & Hlog)].
  - left. rewrite Hlog. by apply sanitize_id.
  - rewrite app_assoc in Hlog. rewrite Hlog, sanitize_snoc, serialized_orphan.
    destruct (tool_calls r) as [|tc tcs] eqn:Htcs.
    + by left.
    + right. exists r. rewrite Htcs. split_and!; [done|done|done|].
      by rewrite sanitize_id.
Qed.

(** X21. The footprint of a turn: no session file but its own is
    touched, and it makes at most [max_turns] LLM calls and one more for
    the summary - none more than [max_turns] when the history is below
    the threshold. *)
Theorem turn_footprint (user_text : string) (max_turns threshold : Z) w :
  let '(res, w') :=
    run_agent_turn chat json_loads format_for_summary model system_prompt
                   session_key tool_registry on_tool_use user_text max_turns
                   threshold w in
  (∀ p, p ≠ _path session_key → files w' !! p = files w !! p)
  ∧ ∃ evs, events w' = events w ++ evs
           ∧ (length (chat_results evs) ≤ Z.to_nat max_turns + 1)%nat
           ∧ (estimate_tokens (_sanitize_loaded_messages (session_log w session_key))
              < threshold →
              (length (chat_results evs) ≤ Z.to_nat max_turns)%nat).
Proof.
  destruct (prepare_history chat format_for_summary model session_key threshold w)
    as [o w1] eqn:Hprep.
  pose proof (prepare_history_outcome chat format_for_summary model session_key
                threshold w o w1 Hprep) as Hp.
  destruct o as [msgs|e].
  - destruct Hp as (Hframe1 & (evs0 & Hev0 & Hc0 & _ & _) & _ & Hbelow & _).
    rewrite (run_after_prepare _ _ _ _ _ _ _ _ _ _ _ _ _ _ Hprep).
    destruct (turn_loop _ _ _ _ _ _ _ _ _ _ _) as [res w'] eqn:Hloop.
    pose proof Hloop as Hlog. apply turn_loop_log in Hlog as (Hframe2 & _).
    apply turn_loop_spec in Hloop as (evs & Hevs & Hlen & _ & _).
    split.
    + intros p Hne. rewrite Hframe2 by done. unfold with_user. cbn [files].
      rewrite lookup_insert_ne by done. by apply Hframe1.
    + exists (evs0 ++ EvAppend (_path session_key) (user_message user_text) :: evs).
      split_and!.
      * rewrite Hevs. unfold with_user. cbn [events]. rewrite Hev0.
        by rewrite <- !app_assoc.
      * rewrite chat_results_app. rewrite length_app. cbn [chat_results]. lia.
      * intros Hlt. destruct (Hbelow Hlt) as [-> _].
        assert (evs0 = []) as ->.
        { apply (app_inv_head (events w)). by rewrite app_nil_r. }
        by cbn [app chat_results].
  - destruct Hp as (Hframe1 & (evs0 & Hev0 & Hc0 & _ & _) & Hfiles).
    rewrite (run_prepare_raises _ _ _ _ _ _ _ _ _ _ _ _ _ _ Hprep).
    split; [done|]. exists evs0. split_and!; [done|lia|].
    intros Hlt.
    rewrite (prepare_below_threshold _ _ _ _ _ _ Hlt) in Hprep. done.
Qed.

End RunFacts2.

(** ** The estimate, continued *)

Lemma dumps_len_ge (ms : list message) : 2 ≤ dumps_len ms.
Proof. rewrite dumps_len_items. lia. Qed.

(** X22. The estimate never drops when messages are added at the end,
    and is zero for the empty history: a session that has reached the
    threshold stays at or above it until a compaction shortens it. *)
Theorem estimate_tokens_monotone (ms more : list message) (threshold : Z) :
  estimate_tokens [] = 0
  ∧ estimate_tokens ms ≤ estimate_tokens (ms ++ more)
  ∧ (threshold ≤ estimate_tokens ms → threshold ≤ estimate_tokens (ms ++ more)).
Proof.
  assert (Hmono : estimate_tokens ms ≤ estimate_tokens (ms ++ more)).
  { unfold estimate_tokens. fold (dumps_len ms) (dumps_len (ms ++ more)).
    apply Z.div_le_mono; [lia|].
    destruct ms as [|m ms]; [apply (dumps_len_ge more)|].
    destruct more as [|x more]; [by rewrite app_nil_r|].
    rewrite dumps_len_app by done.
    pose proof (dumps_len_ge (x :: more)). lia. }
  split_and!; [reflexivity|done|lia].
Qed.

(** ** One message, one line *)

Lemma string_forallb_app (p : ascii → bool) (a b : string) :
  string_forallb p (a +:+ b) = string_forallb p a && string_forallb p b.
Proof.
  induction a as [|c a IH]; [done|].
  rewrite string_app_cons. cbn [string_forallb]. by rewrite IH, andb_assoc.
Qed.

Lemma escape_char_no_control (c : ascii) :
  string_forallb no_control (Json.escape_char c) = true.
Proof. destruct c as [[] [] [] [] [] [] [] []]; reflexivity. Qed.

Lemma escape_no_control (s : string) :
  string_forallb no_control (Json.escape s) = true.
Proof.
  induction s as [|c s IH]; [done|]. cbn [Json.escape].
  by rewrite string_forallb_app, escape_char_no_control, IH.
Qed.

Lemma quote_no_control (s : string) :
  string_forallb no_control (Json.quote s) = true.
Proof.
  unfold Json.quote. cbn [string_forallb].
  by rewrite string_forallb_app, escape_no_control.
Qed.

Lemma join_no_control (l : list string) :
  Forall (λ x, string_forallb no_control x = true) l →
  string_forallb no_control (PyStr.join ", " l) = true.
Proof.
  induction 1 as [|x l Hx Hl IH]; [done|].
  destruct l as [|y l]; [done|].
  change (PyStr.join ", " (x :: y :: l))
    with (x +:+ ", " +:+ PyStr.join ", " (y :: l)).
  by rewrite !string_forallb_app, Hx, IH.
Qed.

Lemma string_of_uint_no_control (d : Decimal.uint) :
  string_forallb no_control (NilEmpty.string_of_uint d) = true.
Proof.
  induction d; cbn [NilEmpty.string_of_uint string_forallb]; by rewrite ?IHd.
Qed.

Lemma of_Z_no_control (z : Z) : string_forallb no_control (PyStr.of_Z z) = true.
Proof.
  unfold PyStr.of_Z, NilZero.string_of_int, NilZero.string_of_uint.
  destruct (Z.to_int z) as [d|d].
  - destruct d; try done; apply string_of_uint_no_control.
  - cbn [string_forallb].
    destruct d; try done; apply string_of_uint_no_control.
Qed.

Lemma dumps_no_control : ∀ j : json, string_forallb no_control (Json.dumps j) = true.
Proof.
  fix IH 1. intros [|[]|z|s|l|kvs]; cbn [Json.dumps].
  - done.
  - done.
  - done.
  - apply of_Z_no_control.
  - apply quote_no_control.
  - rewrite !string_forallb_app. rewrite join_no_control; [done|].
    induction l as [|x l IHl]; constructor; [apply IH|apply IHl].
  - rewrite !string_forallb_app. rewrite join_no_control; [done|].
    induction kvs as [|[k v] kvs IHl]; constructor; [|apply IHl].
    by rewrite !string_forallb_app, quote_no_control, IH.
Qed.

Lemma rstrip_snoc (s : string) (c : ascii) :
  PyStr.isspace c = false →
  PyStr.rstrip (s +:+ String c "") = s +:+ String c "".
Proof.
  intros Hc. induction s as [|a s IH].
  - change ("" +:+ String c "") with (String c "").
    cbn [PyStr.rstrip]. by rewrite Hc.
  - rewrite string_app_cons. cbn [PyStr.rstrip]. rewrite IH.
    by destruct s.
Qed.

(** X23. The text written for a message holds no control character, so
    no line break: it is one line of the session file, not blank, and
    [strip] as done by [load] and [message_count] gives it back
    unchanged. *)
Theorem message_is_one_line (m : message) :
  string_forallb no_control (line_of m) = true
  ∧ line_of m ≠ ""
  ∧ PyStr.strip (line_of m) = line_of m.
Proof.
  split_and!.
  - apply dumps_no_control.
  - done.
  - unfold line_of, Json.dumps_message. cbn [Json.dumps].
    set (body := PyStr.join ", " _).
    change ("{" +:+ body +:+ "}") with (String "{" (body +:+ "}")).
    unfold PyStr.strip. cbn [PyStr.lstrip].
    change (PyStr.isspace "{") with false. cbn iota.
    rewrite rstrip_cons_nonspace by done. by rewrite rstrip_snoc.
Qed.

(** ** What a session file holds *)

Section WrittenFacts.

Context {Env : Type}.
Variable chat : Request → Env → outcome Response * Env.
Variable json_loads : string → option json.
Variable format_for_summary : list message → outcome string.
Variables (model system_prompt session_key : string).
Variable tool_registry : ToolRegistry Env.
Variable on_tool_use : OnToolUseCallback Env.

Implicit Types (w : World Env).

Lemma sanitize_written (x : list message) :
  Forall loop_written x → Forall loop_written (_sanitize_loaded_messages x).
Proof.
  intros H. destruct (sanitize_split x) as (tail & Heq & _ & _).
  rewrite Heq in H. by apply Forall_app in H as [H _].
Qed.

Lemma prepare_written (threshold : Z) w o w1 :
  Forall loop_written (session_log w session_key) →
  prepare_history chat format_for_summary model session_key threshold w = (o, w1) →
  Forall loop_written (session_log w1 session_key)
  ∧ match o with
    | Ok msgs => Forall loop_written msgs
    | Raise _ => True
    end.
Proof.
  intros Hw Hprep.
  pose proof (prepare_history_outcome chat format_for_summary model session_key
                threshold w o w1 Hprep) as Hp.
  pose proof (sanitize_written _ Hw) as Hs.
  destruct o as [msgs|e].
  - destruct Hp as (_ & _ & _ & Hbelow & Habove).
    destruct (Z.lt_ge_cases
                (estimate_tokens (_sanitize_loaded_messages (session_log w session_key)))
                threshold) as [Hlt|Hge].
    + by destruct (Hbelow Hlt) as [-> ->].
    + destruct (Habove Hge) as [Hlog _]. rewrite Hlog.
      assert (Hmsgs : Forall loop_written msgs); [|done].
      unfold prepare_history, bind at 1, load in Hprep.
      fold (session_log w session_key) in Hprep.
      apply Z.geb_le in Hge. rewrite Hge in Hprep.
      unfold bind at 1 in Hprep.
      destruct (compact chat format_for_summary
                        (_sanitize_loaded_messages (session_log w session_key))
                        model threshold w) as [[out|e] w2] eqn:Hcompact; [|done].
      pose proof (compact_outcome chat format_for_summary _ model threshold w
                                  _ w2 Hcompact) as Hc.
      unfold bind, save, ret in Hprep. injection Hprep as <- _.
      destruct Hc as (_ & _ & [->|(summary & -> & _)] & _); [done|].
      constructor.
      * right. right. right. by eexists _, _.
      * rewrite <- (take_drop
                      (split_index
                         (_sanitize_loaded_messages (session_log w session_key)))
                      (_sanitize_loaded_messages (session_log w session_key)))
          in Hs.
        by apply Forall_app in Hs as [_ Hs].
  - destruct Hp as (_ & _ & Hfiles). unfold session_log. by rewrite Hfiles.
Qed.

(** X24. A session file that holds only messages written by the code -
    user, assistant, tool and summary messages - still does after a
    turn, however the turn ends. *)
Theorem turn_keeps_log_loop_written (user_text : string)
        (max_turns threshold : Z) w :
  Forall loop_written (session_log w session_key) →
  Forall loop_written
    (session_log
       (snd (run_agent_turn chat json_loads format_for_summary model system_prompt
                            session_key tool_registry on_tool_use user_text
                            max_turns threshold w)) session_key).
Proof.
  intros Hw.
  destruct (prepare_history chat format_for_summary model session_key threshold w)
    as [[msgs|e] w1] eqn:Hprep;
    pose proof (prepare_written _ _ _ _ Hw Hprep) as [Hw1 _].
  - rewrite (run_after_prepare _ _ _ _ _ _ _ _ _ _ _ _ _ _ Hprep).
    destruct (turn_loop _ _ _ _ _ _ _ _ _ _ _) as [res w'] eqn:Hloop.
    apply turn_loop_log in Hloop as (_ & body & _ & Hbody & Hlog). cbn [snd].
    assert (Hu : session_log (with_user session_key w1 user_text) session_key
                 = session_log w1 session_key ++ [user_message user_text]).
    { unfold with_user, session_log at 1. cbn [files]. by rewrite lookup_insert_eq. }
    assert (Hpre : Forall loop_written
                     (session_log (with_user session_key w1 user_text) session_key)).
    { rewrite Hu. apply Forall_app. split; [done|].
      constructor; [|constructor]. left. by eexists. }
    destruct Hlog as [->|(r & _ & _ & ->)].
    + by apply Forall_app.
    + apply Forall_app. split; [done|]. apply Forall_app. split; [done|].
      constructor; [|constructor]. right. left. by eexists.
  - by rewrite (run_prepare_raises _ _ _ _ _ _ _ _ _ _ _ _ _ _ Hprep).
Qed.

End WrittenFacts.

(** ** The text for the summariser *)

Lemma call_names_serialized (tcs : list ToolCall) :
  Demo.call_names (_serialize_tool_calls tcs) = Ok (map tc_name tcs).
Proof.
  induction tcs as [|tc tcs IH]; [done|].
  unfold _serialize_tool_calls in *. cbn [map Demo.call_names].
  rewrite IH. reflexivity.
Qed.

Lemma render_message_written (m : message) :
  loop_written m → ∃ ls, Demo.render_message m = Ok ls.
Proof.
  intros [[t ->]|[[r ->]|[(tc & s & ->)|(n & s & ->)]]].
  - by eexists.
  - unfold _serialize_assistant_message.
    destruct (tool_calls r) as [|tc tcs] eqn:Htcs.
    + destruct (content r); by eexists.
    + unfold Demo.render_message.
      change (default (JStr "unknown") (Dict.get "role" _)) with (JStr "assistant").
      cbn iota.
      change (truthy_get "tool_calls" _) with true. cbn iota.
      change (Dict.get "tool_calls" _)
        with (Some (JList (_serialize_tool_calls (tc :: tcs)))).
      cbn iota. rewrite call_names_serialized.
      destruct (content r) as [c|]; [|by eexists].
      change (default (JStr "") (Dict.get "content" _)) with (JStr c).
      cbn [truthy Demo.show]. destruct (negb (c =? "")%string); by eexists.
  - by eexists.
  - by eexists.
Qed.

Lemma render_lines_written (ms : list message) :
  Forall loop_written ms → ∃ ls, Demo.render_lines ms = Ok ls.
Proof.
  induction 1 as [|m ms Hm _ [ls IH]]; [by eexists|].
  destruct (render_message_written m Hm) as [l Hl].
  cbn [Demo.render_lines]. rewrite Hl, IH. by eexists.
Qed.

(** X25. On messages written by the code the text for the summariser
    can always be built; so compacting such a history raises only when
    the LLM call itself raises. *)
Theorem summary_text_of_written_log {Env : Type}
        (chat : Request → Env → outcome Response * Env)
        (msgs : list message) (model : string) (threshold : Z) (w : World Env) :
  Forall loop_written msgs →
  (∃ text, Demo.render msgs = Ok text)
  ∧ ∀ e w', compact chat Demo.render msgs model threshold w = (Raise e, w') →
            ∃ req, events w' = events w ++ [EvChat req (Raise e)].
Proof.
  intros Hw. split.
  - unfold Demo.render. destruct (render_lines_written msgs Hw) as [ls ->].
    by eexists.
  - intros e w'. unfold compact.
    destruct (estimate_tokens msgs <? threshold); [done|].
    unfold _split_messages.
    destruct (take (split_index msgs) msgs) as [|m old] eqn:Hold; [done|].
    assert (Hold_w : Forall loop_written (m :: old)).
    { rewrite <- Hold. rewrite <- (take_drop (split_index msgs) msgs) in Hw.
      by apply Forall_app in Hw as [Hw _]. }
    unfold Demo.render at 1.
    destruct (render_lines_written _ Hold_w) as [ls Hls].
    unfold bind, lift. unfold Demo.render. rewrite Hls.
    unfold chat_create.
    destruct (chat _ (env w)) as [[r|e1] e'] eqn:Hchat; [done|].
    intros [= <- <-]. by eexists.
Qed.

Lemma approval_persists_witness :
  mem "make deploy"
      (listed "allowed"
         (approvals_file (snd (request_approval trusting "make deploy" fresh))))
  = true
  ∧ check trusting
          (approvals_file (snd (request_approval trusting "make deploy" fresh)))
          "make deploy"
    = (if decide (base_cmd "make deploy" ∈ _safe_commands trusting)
       then "safe" else "approved")
  ∧ (∀ s2, approvals_file s2
           = approvals_file (snd (request_approval trusting "make deploy" fresh)) →
           run_command_gate trusting "make deploy" s2 = (true, s2))
  ∧ ∀ n, attempts trusting "make deploy" n
                  (snd (request_approval trusting "make deploy" fresh))
         = snd (request_approval trusting "make deploy" fresh)
         ∧ run_command_gate trusting "make deploy"
             (attempts trusting "make deploy" n
                       (snd (request_approval trusting "make deploy" fresh)))
           = (true, snd (request_approval trusting "make deploy" fresh)).
Proof.
  apply (approval_persists trusting "make deploy" fresh
           (snd (request_approval trusting "make deploy" fresh))).
  reflexivity.
Defined.

Lemma safe_first_word_passes_witness :
  check unattended Missing ("git" +:+ " " +:+ "status; rm -rf /") = "safe"
  ∧ ∀ s, run_command_gate unattended ("git" +:+ " " +:+ "status; rm -rf /") s
         = (true, s).
Proof.
  apply (safe_first_word_passes unattended Missing "git" "status; rm -rf /").
  - apply (bool_decide_unpack _). vm_compute. exact I.
  - done.
  - reflexivity.
Defined.

Lemma no_callback_never_allows_witness :
  listed "allowed"
         (approvals_file
            (snd (run_commands unattended ["ls -la"; "rm -rf /"; "rm -rf /"] fresh)))
  = listed "allowed" (approvals_file fresh)
  ∧ user (snd (run_commands unattended ["ls -la"; "rm -rf /"; "rm -rf /"] fresh))
    = user fresh
  ∧ fst (run_commands unattended ["ls -la"; "rm -rf /"; "rm -rf /"] fresh)
    = map (λ command,
             negb (String.eqb (check unattended (approvals_file fresh) command)
                              "needs_approval"))
          ["ls -la"; "rm -rf /"; "rm -rf /"].
Proof.
  apply (no_callback_never_allows unattended ["ls -la"; "rm -rf /"; "rm -rf /"] fresh).
  reflexivity.
Defined.

Lemma last_agent_takes_prefix_witness :
  Dict.get (PyStr.lower "/RESEARCH")
           (_prefix_map (AgentRouter_init Demo.jarvis ([Demo.scout] ++ [deep])))
  = Some deep
  ∧ (∀ q, q ≠ PyStr.lower "/RESEARCH" →
          Dict.get q (_prefix_map (AgentRouter_init Demo.jarvis ([Demo.scout] ++ [deep])))
          = Dict.get q (_prefix_map (AgentRouter_init Demo.jarvis [Demo.scout])))
  ∧ map fst (_prefix_map (AgentRouter_init Demo.jarvis ([Demo.scout] ++ [deep])))
    = (if decide (PyStr.lower "/RESEARCH"
                  ∈ map fst (_prefix_map (AgentRouter_init Demo.jarvis [Demo.scout])))
       then map fst (_prefix_map (AgentRouter_init Demo.jarvis [Demo.scout]))
       else map fst (_prefix_map (AgentRouter_init Demo.jarvis [Demo.scout]))
            ++ [PyStr.lower "/RESEARCH"]).
Proof.
  apply (last_agent_takes_prefix Demo.jarvis deep [Demo.scout] "/RESEARCH");
    [reflexivity|done].
Defined.

Lemma matched_text_is_clean_witness :
  snd (resolve Demo.router "  /Research   AI  ") ≠ ""
  ∧ PyStr.strip (snd (resolve Demo.router "  /Research   AI  "))
    = snd (resolve Demo.router "  /Research   AI  ").
Proof.
  apply (matched_text_is_clean Demo.router "  /Research   AI  ").
  intros H. vm_compute in H. inversion H as [|kv pm Hkv Hpm]. discriminate Hkv.
Defined.

Lemma turn_log_reloads_witness :
  _sanitize_loaded_messages
    (session_log (snd (demo_turn parallel_client "go" 20 100000 Demo.world0)) "k")
  = session_log (snd (demo_turn parallel_client "go" 20 100000 Demo.world0)) "k"
  ∨ ∃ r, fst (demo_turn parallel_client "go" 20 100000 Demo.world0)
         = Ok (str_or (content r) "")
         ∧ has_tool_calls r = false
         ∧ tool_calls r ≠ []
         ∧ session_log (snd (demo_turn parallel_client "go" 20 100000 Demo.world0)) "k"
           = _sanitize_loaded_messages
               (session_log (snd (demo_turn parallel_client "go" 20 100000 Demo.world0))
                            "k")
             ++ [_serialize_assistant_message r].
Proof.
  apply (turn_log_reloads parallel_client Demo.loads Demo.render "m"
           "You are Jarvis." "k" Demo.registry None "go" 20 100000 Demo.world0
           [] Demo.world0
           (fst (demo_turn parallel_client "go" 20 100000 Demo.world0))
           (snd (demo_turn parallel_client "go" 20 100000 Demo.world0)));
    [reflexivity|apply surjective_pairing].
Defined.

Lemma turn_keeps_log_loop_written_witness :
  Forall loop_written
    (session_log (snd (demo_turn parallel_client "go" 20 100000 Demo.world0)) "k").
Proof.
  apply (turn_keeps_log_loop_written parallel_client Demo.loads Demo.render "m"
           "You are Jarvis." "k" Demo.registry None "go" 20 100000 Demo.world0).
  apply Forall_nil_2.
Defined.

Lemma summary_text_of_written_log_witness :
  (∃ text, Demo.render [Demo.u "run ls"; Demo.a "done"] = Ok text)
  ∧ ∀ e w', compact (Demo.scripted []) Demo.render [Demo.u "run ls"; Demo.a "done"]
                    "m" 10 seeded = (Raise e, w') →
            ∃ req, events w' = events seeded ++ [EvChat req (Raise e)].
Proof.
  apply (summary_text_of_written_log (Demo.scripted [])
           [Demo.u "run ls"; Demo.a "done"] "m" 10 seeded).
  constructor; [left; by exists "run ls"|].
  constructor; [right; left; by exists (Demo.text_response "done")|].
  constructor.
Defined.

(** ** The tool cycle *)

Section CycleFacts.

Context {Env : Type}.
Variable chat : Request → Env → outcome Response * Env.
Variable json_loads : string → option json.
Variables (model session_key : string).
Variable tool_registry : ToolRegistry Env.
Variable on_tool_use : OnToolUseCallback Env.

Implicit Types (w : World Env) (r : Response).

Lemma tools_executed_frame (tcs : list ToolCall) w (results : list string) w' :
  tools_executed json_loads tool_registry on_tool_use tcs w results w' →
  files w' = files w
  ∧ length results = length tcs
  ∧ events w' = events w ++ tool_trace json_loads on_tool_use tcs results.
Proof.
  induction 1 as [w|tc tcs w w1 w2 w' s results Hex Hcb _ (IHf & IHl & IHe)].
  - by rewrite app_nil_r.
  - destruct (execute_total tool_registry (tc_name tc)
                (parse_arguments json_loads tc) w) as (s0 & e0 & Hex0).
    rewrite Hex0 in Hex. injection Hex as -> <-.
    unfold callback_told, tool_logged in Hcb. cbn [env files events] in Hcb.
    unfold tool_trace. cbn [zip_with concat].
    fold (tool_trace json_loads on_tool_use tcs results).
    destruct on_tool_use as [cb|].
    + destruct Hcb as (e' & _ & ->). cbn [files events] in *.
      split_and!; [done|simpl; by rewrite IHl|].
      rewrite IHe. by rewrite <- !app_assoc.
    + subst w2. cbn [files events] in *.
      split_and!; [done|simpl; by rewrite IHl|].
      rewrite IHe. by rewrite <- !app_assoc.
Qed.

(** The tool loop against the calls executed one by one. *)
Lemma run_tools_executed (tcs : list ToolCall) (acc : list message) w o w' :
  run_tools json_loads tool_registry on_tool_use tcs acc w = (o, w') →
  match o with
  | Ok msgs =>
      ∃ results,
        tools_executed json_loads tool_registry on_tool_use tcs w results w'
        ∧ msgs = acc ++ result_msgs tcs results
  | Raise e =>
      ∃ ran tc later results w_mid s w_ex,
        tcs = ran ++ tc :: later
        ∧ tools_executed json_loads tool_registry on_tool_use ran w results w_mid
        ∧ execute tool_registry (tc_name tc) (parse_arguments json_loads tc) w_mid
          = (Ok s, w_ex)
        ∧ callback_raised on_tool_use (tc_name tc) (parse_arguments json_loads tc) s
            (tool_logged w_ex (tc_name tc) (parse_arguments json_loads tc) s) e w'
  end.
Proof.
  revert acc w. induction tcs as [|tc tcs IH]; intros acc w; cbn [run_tools].
  - intros [= <- <-]. exists []. split; [constructor|by rewrite app_nil_r].
  - unfold bind at 1.
    destruct (execute tool_registry (tc_name tc) (parse_arguments json_loads tc) w)
      as [[s|e0] w1] eqn:Hex.
    2: { destruct (execute_total tool_registry (tc_name tc)
                     (parse_arguments json_loads tc) w) as (s0 & e1 & Hex0).
         congruence. }
    unfold bind at 1. unfold log at 1.
    fold (tool_logged w1 (tc_name tc) (parse_arguments json_loads tc) s).
    unfold bind at 1. unfold notify.
    destruct on_tool_use as [cb|] eqn:Hcb.
    + unfold bind at 1, on_env at 1.
      destruct (cb (tc_name tc) (parse_arguments json_loads tc) s
                   (env (tool_logged w1 (tc_name tc)
                                     (parse_arguments json_loads tc) s)))
        as [[[]|e] e'] eqn:Hcall.
      * unfold log at 1. cbn [env files events]. intros Hrest.
        apply IH in Hrest. destruct o as [msgs|e].
        -- destruct Hrest as (results & Hexec & ->). exists (s :: results).
           split; [|by rewrite <- app_assoc].
           eapply executed_cons; [exact Hex| |exact Hexec].
           unfold callback_told. by exists e'.
        -- destruct Hrest as (ran & tc' & later & results & w_mid & s' & w_ex
                              & -> & Hexec & Hex' & Hraise).
           exists (tc :: ran), tc', later, (s :: results), w_mid, s', w_ex.
           split_and!; [done| |done|done].
           eapply executed_cons; [exact Hex| |exact Hexec].
           unfold callback_told. by exists e'.
      * intros [= <- <-].
        exists [], tc, tcs, [], w, s, w1.
        split_and!; [done|constructor|done|].
        unfold callback_raised. by exists cb, e'.
    + unfold ret at 1. intros Hrest.
      apply IH in Hrest. destruct o as [msgs|e].
      * destruct Hrest as (results & Hexec & ->). exists (s :: results).
        split; [|by rewrite <- app_assoc].
        eapply executed_cons; [exact Hex|done|exact Hexec].
      * destruct Hrest as (ran & tc' & later & results & w_mid & s' & w_ex
                           & -> & Hexec & Hex' & Hraise).
        exists (tc :: ran), tc', later, (s :: results), w_mid, s', w_ex.
        split_and!; [done| |done|done].
        eapply executed_cons; [exact Hex|done|exact Hexec].
Qed.

Lemma result_msgs_content (tcs : list ToolCall) (results : list string) :
  length results = length tcs →
  map (Dict.get "content") (result_msgs tcs results)
  = map (λ s, Some (JStr s)) results.
Proof.
  revert results. induction tcs as [|tc tcs IH]; intros [|s results] Hlen;
    simpl in *; try done.
  f_equal. apply IH. lia.
Qed.

(** X26. The tool cycle of the loop.  When a call of the loop yields a
    tool-requesting response - a finish reason [tool_calls] or [tool_use]
    and at least one call - one of two things happens.  Either the tool of
    every call is executed by the registry, in the order of the calls,
    each in the world its predecessors left and each followed by the
    callback; no file is written meanwhile; only then the assistant
    message is appended, immediately followed by one tool message per
    call, in order, with the id of its call and the string its execution
    returned as content; and the loop goes on from there.  Or the
    callback raises after some tool has run, and the turn ends with that
    exception and nothing of the cycle written. *)
Theorem tool_cycle_runs_then_persists (n : nat) (tools : list json)
        (messages api_messages : list message) w r (e1 : Env) :
  chat (turn_request model tools api_messages) (env w) = (Ok r, e1) →
  has_tool_calls r = true →
  let w1 := {| env := e1; files := files w;
               events := events w
                         ++ [EvChat (turn_request model tools api_messages) (Ok r)] |} in
  let asst := _serialize_assistant_message r in
  (∃ results w2,
      let tool_msgs := result_msgs (tool_calls r) results in
      tools_executed json_loads tool_registry on_tool_use (tool_calls r) w1 results w2
      ∧ length results = length (tool_calls r)
      ∧ files w2 = files w
      ∧ events w2
        = events w1 ++ tool_trace json_loads on_tool_use (tool_calls r) results
      ∧ map (Dict.get "tool_call_id") tool_msgs
        = map (λ tc, Some (JStr (tc_id tc))) (tool_calls r)
      ∧ map (Dict.get "content") tool_msgs = map (λ s, Some (JStr s)) results
      ∧ Forall (λ m, get_is "role" "tool" m = true) tool_msgs
      ∧ session_log (after_appends session_key w2 asst tool_msgs) session_key
        = session_log w session_key ++ asst :: tool_msgs
      ∧ turn_loop chat json_loads model session_key tool_registry on_tool_use
                  (S n) tools messages api_messages w
        = turn_loop chat json_loads model session_key tool_registry on_tool_use
                    n tools (messages ++ asst :: tool_msgs)
                    (api_messages ++ asst :: tool_msgs)
                    (after_appends session_key w2 asst tool_msgs))
  ∨ (∃ ran tc later results w_mid s w_ex e w2,
        tool_calls r = ran ++ tc :: later
        ∧ tools_executed json_loads tool_registry on_tool_use ran w1 results w_mid
        ∧ execute tool_registry (tc_name tc) (parse_arguments json_loads tc) w_mid
          = (Ok s, w_ex)
        ∧ callback_raised on_tool_use (tc_name tc) (parse_arguments json_loads tc) s
            (tool_logged w_ex (tc_name tc) (parse_arguments json_loads tc) s) e w2
        ∧ files w2 = files w
        ∧ turn_loop chat json_loads model session_key tool_registry on_tool_use
                    (S n) tools messages api_messages w
          = (Raise e, w2)).
Proof.
  intros Hchat Htc w1 asst.
  pose proof (turn_loop_tool_branch chat json_loads model session_key tool_registry
                on_tool_use n tools messages api_messages w r e1 Hchat Htc) as Hstep.
  fold w1 asst in Hstep. rewrite Hstep. clear Hstep.
  destruct (run_tools json_loads tool_registry on_tool_use (tool_calls r) [] w1)
    as [o w2] eqn:Hrun.
  pose proof (run_tools_executed _ _ _ _ _ Hrun) as Ho.
  destruct o as [tool_msgs|e].
  - left. unfold bind at 1. rewrite Hrun.
    destruct Ho as (results & Hexec & ->). cbn [app].
    destruct (tools_executed_frame _ _ _ _ Hexec) as (Hfiles & Hlen & Hev).
    destruct (result_msgs_ids _ _ Hlen) as (Hids & Hroles & _).
    exists results, w2. cbv zeta.
    split_and!; [done|done|done|done|done|by apply result_msgs_content|done| |].
    + rewrite after_appends_log. unfold session_log. by rewrite Hfiles.
    + by rewrite append_persist_then.
  - right. unfold bind at 1. rewrite Hrun.
    destruct Ho as (ran & tc & later & results & w_mid & s & w_ex
                    & Htcs & Hexec & Hex & Hraise).
    exists ran, tc, later, results, w_mid, s, w_ex, e, w2.
    split_and!; [done|done|done|done| |done].
    destruct (tools_executed_frame _ _ _ _ Hexec) as (Hfiles & _ & _).
    destruct (execute_total tool_registry (tc_name tc)
                (parse_arguments json_loads tc) w_mid) as (s0 & e0 & Hex0).
    rewrite Hex0 in Hex. injection Hex as -> <-.
    destruct Hraise as (cb & e' & _ & _ & ->). cbn [files tool_logged]. done.
Qed.

End CycleFacts.

Lemma tool_cycle_runs_then_persists_witness :
  let req := turn_request "m" [] [Demo.u "go"] in
  let w1 := {| env := 1%nat; files := ∅; events := [EvChat req (Ok two_calls)] |} in
  parallel_client req (env Demo.world0) = (Ok two_calls, 1%nat)
  ∧ has_tool_calls two_calls = true
  ∧ ((∃ results w2,
         tools_executed Demo.loads Demo.registry None (tool_calls two_calls)
                        w1 results w2
         ∧ length results = length (tool_calls two_calls)
         ∧ files w2 = files Demo.world0)
     ∨ ∃ e w2,
         turn_loop parallel_client Demo.loads "m" "k" Demo.registry None 1 []
                   [Demo.u "go"] [Demo.u "go"] Demo.world0 = (Raise e, w2)).
Proof.
  intros req w1.
  assert (Hchat : parallel_client req (env Demo.world0) = (Ok two_calls, 1%nat)).
  { reflexivity. }
  assert (Htc : has_tool_calls two_calls = true).
  { reflexivity. }
  split_and!; [exact Hchat | exact Htc |].
  destruct (tool_cycle_runs_then_persists parallel_client Demo.loads "m" "k"
              Demo.registry None 0 [] [Demo.u "go"] [Demo.u "go"] Demo.world0
              two_calls 1%nat Hchat Htc)
    as [(results & w2 & Hexec & Hlen & Hfiles & _)
       |(ran & tc & later & results & w_mid & s & w_ex & e & w2 & _ & _ & _ & _ & _ & Hloop)].
  - left. exists results, w2. split_and!; [exact Hexec | exact Hlen | exact Hfiles].
  - right. exists e, w2. exact Hloop.
Defined.

(** C1.  The claim fails on the code for a response that lists tool calls under a
    finish reason other than [tool_calls] and [tool_use]: it is taken as
    final, no tool is executed, and its message is appended with its
    [tool_calls] and no tool message after it, so the session file ends
    with an unanswered assistant message. *)
Theorem tool_calls_left_unanswered :
  let r := {| content := Some "done"; tool_calls := [Demo.call "c1" "echo"];
              finish_reason := "length" |} in
  let run := demo_turn (Demo.scripted [Ok r]) "go" 20 100000 Demo.world0 in
  tool_calls r ≠ []
  ∧ fst run = Ok "done"
  ∧ tools_run (events (snd run)) = []
  ∧ session_log (snd run) "k" = [Demo.u "go"; _serialize_assistant_message r]
  ∧ Dict.get "tool_calls" (_serialize_assistant_message r)
    = Some (JList (_serialize_tool_calls (tool_calls r)))
  ∧ ends_with_orphan (session_log (snd run) "k") = true.
Proof. vm_compute. split_and!; done. Qed.

(** ** The session file as text *)

Lemma no_control_not_newline (c : ascii) :
  no_control c = true →
  Ascii.eqb c Jsonl.LF = false ∧ Ascii.eqb c Jsonl.CR = false.
Proof.
  unfold no_control. intros H. apply Nat.leb_le in H.
  split; apply Ascii.eqb_neq; intros ->; vm_compute in H; lia.
Qed.

(** A line without control characters, written with its line feed, is
    read back as one line. *)
Lemma lines_go_line (l rest cur : string) :
  string_forallb no_control l = true →
  Jsonl.lines_go (Jsonl.in_line cur) (l +:+ nl +:+ rest)
  = String.rev_app cur (l +:+ nl) :: Jsonl.lines_go (Jsonl.in_line "") rest.
Proof.
  revert cur. induction l as [|c l IH]; intros cur Hl.
  - reflexivity.
  - cbn [string_forallb] in Hl. apply andb_true_iff in Hl as [Hc Hl].
    destruct (no_control_not_newline c Hc) as [Hlf Hcr].
    rewrite string_app_cons. cbn [Jsonl.lines_go Jsonl.cur_of].
    rewrite Hlf, Hcr. rewrite IH by done. reflexivity.
Qed.

Lemma lines_go_after_cr (x : string) :
  match x with
  | String c _ => Ascii.eqb c Jsonl.LF = false
  | EmptyString => True
  end →
  Jsonl.lines_go Jsonl.after_cr x = Jsonl.lines_go (Jsonl.in_line "") x.
Proof. destruct x as [|c x]; [done|]. intros Hc. cbn [Jsonl.lines_go]. by rewrite Hc. Qed.

(** Reading a text whose last line is complete, with more text after
    it, reads the text and then the rest. *)
Lemma lines_go_app (t x : string) (st : Jsonl.reader) :
  t ≠ "" → Jsonl.ends_line t = true →
  match x with
  | String c _ => Ascii.eqb c Jsonl.LF = false
  | EmptyString => True
  end →
  Jsonl.lines_go st (t +:+ x)
  = Jsonl.lines_go st t ++ Jsonl.lines_go (Jsonl.in_line "") x.
Proof.
  intros Hne Hend Hx. revert st Hne Hend.
  induction t as [|c t IH]; intros st Hne Hend; [done|].
  rewrite string_app_cons.
  destruct t as [|c' t'].
  - change ("" +:+ x) with x. cbn [Jsonl.ends_line] in Hend.
    cbn [Jsonl.lines_go].
    destruct (Ascii.eqb c Jsonl.LF) eqn:Hlf.
    + by destruct st.
    + cbn [orb] in Hend. rewrite Hend. cbn [app Jsonl.cur_of].
      by rewrite lines_go_after_cr.
  - assert (Hend' : Jsonl.ends_line (String c' t') = true) by exact Hend.
    cbn [Jsonl.lines_go].
    destruct (Ascii.eqb c Jsonl.LF).
    + destruct st; cbn [app]; by rewrite IH.
    + destruct (Ascii.eqb c Jsonl.CR); cbn [app]; by rewrite IH.
Qed.

Lemma rstrip_nl (s : string) : PyStr.rstrip (s +:+ nl) = PyStr.rstrip s.
Proof.
  induction s as [|c s IH]; [reflexivity|].
  rewrite string_app_cons. cbn [PyStr.rstrip]. by rewrite IH.
Qed.

Lemma line_strip (m : message) :
  PyStr.strip (line_of m +:+ nl) = line_of m ∧ line_of m ≠ "".
Proof.
  split; [|done].
  unfold line_of, Json.dumps_message. cbn [Json.dumps].
  set (body := PyStr.join ", " _).
  change ("{" +:+ body +:+ "}") with (String "{" (body +:+ "}")).
  rewrite string_app_cons. unfold PyStr.strip. cbn [PyStr.lstrip].
  change (PyStr.isspace "{") with false. cbn iota.
  rewrite rstrip_cons_nonspace by done. by rewrite rstrip_nl, rstrip_snoc.
Qed.

Lemma parse_written_line (json_loads : string → option json) (m : message) :
  Jsonl.parse_line json_loads (line_of m +:+ nl) = json_loads (line_of m).
Proof.
  unfold Jsonl.parse_line. cbv zeta.
  destruct (line_strip m) as [-> Hne].
  apply String.eqb_neq in Hne. by rewrite Hne.
Qed.

Lemma ends_line_app (t x : string) :
  x ≠ "" → Jsonl.ends_line (t +:+ x) = Jsonl.ends_line x.
Proof.
  intros Hx. induction t as [|c t IH]; [done|].
  rewrite string_app_cons. cbn [Jsonl.ends_line].
  destruct (t +:+ x) eqn:E; [|done].
  destruct t; [by destruct x|done].
Qed.

Lemma ends_line_written (m : message) (rest : string) :
  Jsonl.ends_line rest = true →
  Jsonl.ends_line (line_of m +:+ nl +:+ rest) = true.
Proof.
  intros Hrest. destruct rest as [|c rest].
  - rewrite (ends_line_app (line_of m) (nl +:+ "")) by done. reflexivity.
  - rewrite (ends_line_app (line_of m) (nl +:+ String c rest)) by done.
    by rewrite (ends_line_app nl (String c rest)).
Qed.

Lemma ends_line_appended (t : string) (m : message) :
  Jsonl.ends_line (t +:+ line_of m +:+ nl) = true.
Proof.
  rewrite (ends_line_app t (line_of m +:+ nl)) by done.
  rewrite (ends_line_app (line_of m) nl) by done. reflexivity.
Qed.

Lemma written_line_start (m : message) (rest : string) :
  match line_of m +:+ rest with
  | String c _ => Ascii.eqb c Jsonl.LF = false
  | EmptyString => True
  end.
Proof. reflexivity. Qed.

(** X1. On the text of the session file: when the file is absent,
    empty or ends with a complete line, and [json.loads] gives back the
    message from the line written for it, [load] after [append] returns
    what it returned before with the message at the end, whatever blank
    or malformed lines the file holds; [message_count] grows by one; and
    the file ends with a complete line again. *)
Theorem append_then_load (json_loads : string → option json) (m : message)
        (file : option string) :
  Jsonl.terminated file = true →
  json_loads (line_of m) = Some (JDict m) →
  Jsonl.load json_loads (Jsonl.append m file)
  = Jsonl.load json_loads file ++ [JDict m]
  ∧ Jsonl.message_count (Jsonl.append m file) = S (Jsonl.message_count file)
  ∧ Jsonl.terminated (Jsonl.append m file) = true.
Proof.
  intros Hterm Hloads.
  assert (Hone : Jsonl.lines (line_of m +:+ nl) = [line_of m +:+ nl]).
  { unfold Jsonl.lines.
    rewrite <- (string_app_nil_r (line_of m +:+ nl)) at 1.
    rewrite string_app_assoc, lines_go_line by apply dumps_no_control.
    reflexivity. }
  assert (Hcount : negb (String.eqb (PyStr.strip (line_of m +:+ nl)) "") = true).
  { destruct (line_strip m) as [-> Hne]. apply String.eqb_neq in Hne.
    by rewrite Hne. }
  assert (Hempty : Jsonl.load json_loads (Some (line_of m +:+ nl)) = [JDict m]
                   ∧ Jsonl.message_count (Some (line_of m +:+ nl)) = 1%nat).
  { unfold Jsonl.load, Jsonl.message_count. rewrite Hone. cbn [omap list_omap].
    rewrite parse_written_line, Hloads. cbn [List.filter]. by rewrite Hcount. }
  unfold Jsonl.append. fold (line_of m).
  destruct file as [text|]; cbn [default].
  - destruct (decide (text = "")) as [->|Hne].
    + split_and!; [apply Hempty|apply Hempty|apply ends_line_appended].
    + cbn [Jsonl.terminated] in Hterm.
      assert (Hlines : Jsonl.lines (text +:+ line_of m +:+ nl)
                       = Jsonl.lines text ++ [line_of m +:+ nl]).
      { unfold Jsonl.lines. rewrite lines_go_app; [|done|done|reflexivity].
        fold (Jsonl.lines (line_of m +:+ nl)). by rewrite Hone. }
      unfold Jsonl.load, Jsonl.message_count, Jsonl.terminated.
      change (id text) with text. rewrite Hlines. split_and!.
      * rewrite omap_app. cbn [omap list_omap].
        by rewrite parse_written_line, Hloads.
      * rewrite List.filter_app, length_app. cbn [List.filter].
        rewrite Hcount. simpl. lia.
      * apply ends_line_appended.
  - split_and!; [apply Hempty|apply Hempty|apply ends_line_appended].
Qed.

Lemma write_lines_app (ms1 ms2 : list message) :
  Jsonl.write_lines (ms1 ++ ms2) = Jsonl.write_lines ms1 +:+ Jsonl.write_lines ms2.
Proof.
  induction ms1 as [|m ms1 IH]; [done|].
  cbn [app Jsonl.write_lines]. rewrite IH.
  by rewrite !string_app_assoc.
Qed.

Lemma write_lines_read (ms : list message) :
  Jsonl.lines (Jsonl.write_lines ms) = map (λ m, line_of m +:+ nl) ms
  ∧ Jsonl.ends_line (Jsonl.write_lines ms) = true.
Proof.
  induction ms as [|m ms [IH1 IH2]]; [done|].
  cbn [Jsonl.write_lines map]. fold (line_of m). split.
  - unfold Jsonl.lines. rewrite lines_go_line by apply dumps_no_control.
    fold (Jsonl.lines (Jsonl.write_lines ms)). by rewrite IH1.
  - by apply ends_line_written.
Qed.

(** X4. On the text of the session file: [save] writes one line per
    message, so that, when [json.loads] gives back each message from its
    line, [load] returns the list saved and [message_count] its length;
    the file ends with a complete line, and appending to it gives the
    file [save] writes from the longer list. *)
Theorem save_then_load (json_loads : string → option json) (ms : list message) :
  Forall (λ m, json_loads (line_of m) = Some (JDict m)) ms →
  Jsonl.load json_loads (Jsonl.save ms) = map JDict ms
  ∧ Jsonl.message_count (Jsonl.save ms) = length ms
  ∧ Jsonl.terminated (Jsonl.save ms) = true
  ∧ ∀ m, Jsonl.append m (Jsonl.save ms) = Jsonl.save (ms ++ [m]).
Proof.
  intros Hloads. destruct (write_lines_read ms) as [Hlines Hend].
  unfold Jsonl.save, Jsonl.load, Jsonl.message_count, Jsonl.terminated.
  rewrite Hlines. split_and!; [| |done|].
  - clear Hlines Hend. induction Hloads as [|m ms Hm _ IH]; [done|].
    cbn [map omap list_omap]. rewrite parse_written_line, Hm.
    cbn [map]. f_equal. exact IH.
  - clear Hlines Hend Hloads. induction ms as [|m ms IH]; [done|].
    cbn [map List.filter].
    destruct (line_strip m) as [-> Hne]. apply String.eqb_neq in Hne.
    rewrite Hne. cbn [negb length]. by rewrite IH.
  - intros m. unfold Jsonl.append. cbn [default]. f_equal.
    rewrite write_lines_app. cbn [Jsonl.write_lines].
    by rewrite string_app_nil_r.
Qed.

(** After a last line without terminator the appended line is glued to
    it; here both messages are lost to [load]. *)
Example unterminated_last_line_swallows_append :
  let file := Some "{}" in
  Jsonl.terminated file = false
  ∧ Jsonl.load Demo.loads file = [JDict []]
  ∧ Jsonl.append [] file = Some ("{}{}" +:+ nl)
  ∧ Jsonl.load Demo.loads (Jsonl.append [] file) = [].
Proof. vm_compute. done. Qed.

(** Blank and malformed lines are skipped by [load]; [message_count]
    counts the malformed ones. *)
Example load_skips_bad_lines :
  let file := Some ("{}" +:+ nl +:+ nl +:+ "oops" +:+ nl +:+ "  {}  " +:+ nl) in
  Jsonl.load Demo.loads file = [JDict []; JDict []]
  ∧ Jsonl.message_count file = 3%nat.
Proof. vm_compute. done. Qed.

Lemma append_then_load_witness :
  Jsonl.load (knows [Demo.u "hi"]) (Jsonl.append (Demo.u "hi") (Some ("oops" +:+ nl)))
  = Jsonl.load (knows [Demo.u "hi"]) (Some ("oops" +:+ nl)) ++ [JDict (Demo.u "hi")]
  ∧ Jsonl.message_count (Jsonl.append (Demo.u "hi") (Some ("oops" +:+ nl)))
    = S (Jsonl.message_count (Some ("oops" +:+ nl)))
  ∧ Jsonl.terminated (Jsonl.append (Demo.u "hi") (Some ("oops" +:+ nl))) = true.
Proof.
  apply (append_then_load (knows [Demo.u "hi"]) (Demo.u "hi") (Some ("oops" +:+ nl)));
    reflexivity.
Defined.

Lemma save_then_load_witness :
  Jsonl.load (knows [Demo.u "hi"; Demo.a "hello"])
             (Jsonl.save [Demo.u "hi"; Demo.a "hello"])
  = map JDict [Demo.u "hi"; Demo.a "hello"]
  ∧ Jsonl.message_count (Jsonl.save [Demo.u "hi"; Demo.a "hello"])
    = length [Demo.u "hi"; Demo.a "hello"]
  ∧ Jsonl.terminated (Jsonl.save [Demo.u "hi"; Demo.a "hello"]) = true
  ∧ ∀ m, Jsonl.append m (Jsonl.save [Demo.u "hi"; Demo.a "hello"])
         = Jsonl.save ([Demo.u "hi"; Demo.a "hello"] ++ [m]).
Proof.
  apply (save_then_load (knows [Demo.u "hi"; Demo.a "hello"])
           [Demo.u "hi"; Demo.a "hello"]).
  repeat constructor.
Defined.
